(** * Stale-bot agent: a shallow embedding of the Go sources and its properties

    The development follows the repository file by file:
    - Go values and library functions the code relies on ([any], [strings],
      [time], [sort.Slice]);
    - util.go: the API-call counter, [doRequest] and the four request helpers;
    - agent.go: the maintainer cache, the GraphQL fetch, [buildHistoryTimeline],
      [replayHistoryToFindState] and [getIssueState];
    - main.go: the chunked batch loop of [main].

    Definitions come first; the properties of the program follow. *)

From Stdlib Require Import ZArith String Ascii List Floats Lia.
From stdpp Require Import gmap strings list sorting pretty.

Set Warnings "-register-all".
Open Scope Z_scope.

(* ===================================================================== *)
(** ** Go values *)
(* ===================================================================== *)

(** Go's [int] (64 bit): arithmetic wraps around. *)
Definition int_wrap (z : Z) : Z := (z + 2 ^ 63) mod 2 ^ 64 - 2 ^ 63.
Definition int_add (a b : Z) : Z := int_wrap (a + b).
Definition int_mul (a b : Z) : Z := int_wrap (a * b).
Definition maxInt : Z := 2 ^ 63 - 1.
Definition minInt : Z := - 2 ^ 63.

(** Go's [error]: the code only ever formats errors with [%v]/[%w], so an
    error is its message. *)
Definition error : Type := string.

(** A Go function returning [(T, error)] with the zero [T] next to a non-nil
    error. *)
Inductive Result (A : Type) : Type :=
| Ok (a : A)
| Err (e : error).
Arguments Ok {A} a.
Arguments Err {A} e.

(** [any]: the dynamic values the program handles.  [encoding/json] produces
    [Nil], [Bool], [Float64], [Str], [Slice] and [Map]; the remaining
    constructors are the statically typed Go values the code itself stores in
    a [map[string]any] ([int], [[]string], [*string]). *)
Inductive any : Type :=
| Nil
| Bool (b : bool)
| Int (n : Z)
| Float64 (f : float)
| Str (s : string)
| Slice (l : list any)
| Map (m : gmap string any)
| Strings (l : list string)
| StrPtr (p : option string).

(** [m[k]]: indexing a map yields the zero value (a nil interface) for a
    missing key. *)
Definition index (m : gmap string any) (k : string) : any :=
  default Nil (m !! k).

(** Checked type assertions [v.(T)] in their comma-ok form. *)
Definition asMap (v : any) : option (gmap string any) :=
  match v with Map m => Some m | _ => None end.
Definition asSlice (v : any) : option (list any) :=
  match v with Slice l => Some l | _ => None end.
Definition asString (v : any) : option string :=
  match v with Str s => Some s | _ => None end.

(** [s, _ := v.(string)]: the zero string when the assertion fails. *)
Definition stringOrZero (v : any) : string := default EmptyString (asString v).

(** [login] of the object stored under [k]:
    [if a, ok := m[k].(map[string]any); ok { actor, _ = a["login"].(string) }]. *)
Definition loginOf (m : gmap string any) (k : string) : string :=
  match asMap (index m k) with
  | Some a => stringOrZero (index a "login")
  | None => EmptyString
  end.

(* ===================================================================== *)
(** ** package strings *)
(* ===================================================================== *)

(** [strings.Contains(s, substr)]. *)
Fixpoint strings_Contains (s substr : string) : bool :=
  String.prefix substr s ||
  match s with
  | EmptyString => false
  | String _ s' => strings_Contains s' substr
  end.

(** [strings.HasSuffix(s, suffix)]. *)
Definition strings_HasSuffix (s suffix : string) : bool :=
  (String.length suffix <=? String.length s)%nat &&
  String.eqb (String.substring (String.length s - String.length suffix)
                               (String.length suffix) s) suffix.

(* ===================================================================== *)
(** ** package time *)
(* ===================================================================== *)

(** A [time.Time] instant: nanoseconds since the Unix epoch. *)
Definition time_Time : Type := Z.

(** A [time.Duration]: an [int64] count of nanoseconds. *)
Definition Duration : Type := Z.
Definition Second : Duration := 1000000000.
Definition Hour : Duration := 3600 * Second.

(** The zero [time.Time] (January 1, year 1, 00:00:00 UTC), which
    [time.Parse] returns next to an error. *)
Definition zeroTime : time_Time := -62135596800 * Second.

Definition Before (t u : time_Time) : bool := t <? u.
Definition After (t u : time_Time) : bool := u <? t.

(** [t.Sub(u)]: the difference, saturated to the range of [Duration]. *)
Definition Sub (t u : time_Time) : Duration :=
  let d := t - u in
  if d <? minInt then minInt else if maxInt <? d then maxInt else d.

(** [float64(n)] for an integer below 2^63 in magnitude. *)
Definition float64_of_Z (n : Z) : float :=
  if n <? 0 then (- PrimFloat.of_uint63 (Uint63.of_Z (- n)))%float
  else PrimFloat.of_uint63 (Uint63.of_Z n).

(** [d.Hours()]:
    [hour := d / Hour; nsec := d % Hour;
     return float64(hour) + float64(nsec)/(60*60*1e9)]. *)
Definition Hours (d : Duration) : float :=
  (float64_of_Z (Z.quot d Hour) + float64_of_Z (Z.rem d Hour) / 3600000000000)%float.

(** [int64(f)] for a [float64]: truncation toward zero; out of range (and
    NaN) gives the smallest [int64], as on amd64. *)
Definition int64_of_float (f : float) : Z :=
  match FloatOps.Prim2SF f with
  | SpecFloat.S754_zero _ => 0
  | SpecFloat.S754_finite s m e =>
      let v := if 0 <=? e then Z.pos m * 2 ^ e else Z.pos m / 2 ^ (- e) in
      let v := if s then - v else v in
      if (v <? minInt) || (maxInt <? v) then minInt else v
  | _ => minInt
  end.

(* ===================================================================== *)
(** ** What the Go runtime and the standard library provide *)
(* ===================================================================== *)

(** An outgoing HTTP request: method, URL (with its encoded query) and the
    value whose JSON encoding is the body. *)
Record Request : Type := mkRequest {
  Method : string;
  URL : string;
  Payload : option any
}.

(** An HTTP response: the status code and what [decodeJSON] makes of the body
    ([io.ReadAll] followed by [json.Unmarshal]). *)
Record Response : Type := mkResponse {
  StatusCode : Z;
  Body : Result any
}.

(** Library functions whose implementation is outside the repository. *)
Record GoRuntime : Type := mkGoRuntime {
  (** [time.Parse(time.RFC3339, s)], with the zero time on a parse error *)
  time_Parse : string -> time_Time;
  (** [url.Parse(rawURL)], returning [u.String()] *)
  url_Parse : string -> Result string;
  (** [q := u.Query(); q.Set(k, v)...; u.RawQuery = q.Encode(); u.String()] *)
  url_SetQuery : string -> gmap string string -> string;
  (** [http.NewRequest(method, url, body)] *)
  http_NewRequest : string -> string -> option any -> Result Request;
  (** [fmt.Sprintf("%v", v)] *)
  fmt_v : any -> string;
  (** one step of the [xorshift] generator of package sort *)
  xorshift_Next : Z -> Z
}.

(* ===================================================================== *)
(** ** package sort: [sort.Slice]

    [sort.Slice] belongs to Go's standard library, not to the repository.  The
    program's result depends on what it does with equal keys, so it is modelled
    after the library's implementation (a pattern-defeating quicksort, file
    sort/zsortfunc.go since Go 1.19), one definition per library function.
    The slice is a list, indices are natural numbers; [data.Less] and
    [data.Swap] go through the element comparison [less].  An index outside the
    slice makes Go panic; the library never produces one, and the model leaves
    the slice untouched there. *)
(* ===================================================================== *)

Section sort.
Local Open Scope nat_scope.
Context {A : Type}.
Variable less : A -> A -> bool.
Variable next : Z -> Z.

Definition Less (data : list A) (i j : nat) : bool :=
  match data !! i, data !! j with
  | Some x, Some y => less x y
  | _, _ => false
  end.

Definition Swap (data : list A) (i j : nat) : list A :=
  match data !! i, data !! j with
  | Some x, Some y => <[i := y]> (<[j := x]> data)
  | _, _ => data
  end.

(** [for j := i; j > a && data.Less(j, j-1); j-- { data.Swap(j, j-1) }] *)
Fixpoint insertionSort_inner (data : list A) (a j : nat) : list A :=
  match j with
  | O => data
  | S j' =>
      if (a <? j) && Less data j j'
      then insertionSort_inner (Swap data j j') a j'
      else data
  end.

(** [for i := a + 1; i < b; i++ { ... }], with [n] iterations left. *)
Fixpoint insertionSort_outer (data : list A) (a i n : nat) : list A :=
  match n with
  | O => data
  | S n' => insertionSort_outer (insertionSort_inner data a i) a (S i) n'
  end.

Definition insertionSort_func (data : list A) (a b : nat) : list A :=
  insertionSort_outer data a (a + 1) (b - (a + 1)).

(** [siftDown_func(data, lo, hi, first)]; [root] starts at [lo] and grows, so
    [hi] iterations are enough. *)
Fixpoint siftDown_loop (fuel : nat) (data : list A) (root hi first : nat) : list A :=
  match fuel with
  | O => data
  | S fuel' =>
      let child := 2 * root + 1 in
      if hi <=? child then data
      else
        let child :=
          if (child + 1 <? hi) && Less data (first + child) (first + child + 1)
          then child + 1 else child in
        if negb (Less data (first + root) (first + child)) then data
        else siftDown_loop fuel' (Swap data (first + root) (first + child)) child hi first
  end.

Definition siftDown_func (data : list A) (lo hi first : nat) : list A :=
  siftDown_loop hi data lo hi first.

(** [for i := (hi - 1) / 2; i >= 0; i-- { siftDown_func(data, i, hi, first) }] *)
Fixpoint heapSort_build (data : list A) (i hi first : nat) : list A :=
  let data := siftDown_func data i hi first in
  match i with
  | O => data
  | S i' => heapSort_build data i' hi first
  end.

(** [for i := hi - 1; i >= 0; i-- { data.Swap(first, first+i); siftDown_func(data, lo, i, first) }] *)
Fixpoint heapSort_pop (data : list A) (i first : nat) : list A :=
  let data := siftDown_func (Swap data first (first + i)) 0 i first in
  match i with
  | O => data
  | S i' => heapSort_pop data i' first
  end.

Definition heapSort_func (data : list A) (a b : nat) : list A :=
  let first := a in
  let hi := b - a in
  if hi =? 0 then data
  else heapSort_pop (heapSort_build data ((hi - 1) / 2) hi first) (hi - 1) first.

(** [bits.Len(uint(n))] *)
Definition bits_Len (n : nat) : nat :=
  if n =? 0 then 0 else S (Nat.log2 n).

(** [nextPowerOfTwo(length)]: [1 << bits.Len(uint(length))] *)
Definition nextPowerOfTwo (length : nat) : nat := 2 ^ bits_Len length.

(** The body of the loop of [breakPatterns_func], for [i] from [i] on. *)
Fixpoint breakPatterns_loop (n : nat) (data : list A) (random : Z)
    (a length modulus idx i : nat) : list A :=
  match n with
  | O => data
  | S n' =>
      let random := next random in
      let other := Z.to_nat (random `mod` Z.of_nat modulus) in
      let other := if length <=? other then other - length else other in
      breakPatterns_loop n' (Swap data (idx - 1 + i) (a + other)) random
        a length modulus idx (S i)
  end.

Definition breakPatterns_func (data : list A) (a b : nat) : list A :=
  let length := b - a in
  if 8 <=? length then
    let random := Z.of_nat length in
    let modulus := nextPowerOfTwo length in
    let idx := a + (length / 4) * 2 - 1 in
    breakPatterns_loop 3 data random a length modulus idx 0
  else data.

Inductive sortedHint : Type := unknownHint | increasingHint | decreasingHint.

(** [order2_func]: the counter [*swaps] is threaded through. *)
Definition order2_func (data : list A) (a b swaps : nat) : nat * nat * nat :=
  if Less data b a then (b, a, S swaps) else (a, b, swaps).

Definition median_func (data : list A) (a b c swaps : nat) : nat * nat :=
  let '(a, b, swaps) := order2_func data a b swaps in
  let '(b, c, swaps) := order2_func data b c swaps in
  let '(a, b, swaps) := order2_func data a b swaps in
  (b, swaps).

Definition medianAdjacent_func (data : list A) (a swaps : nat) : nat * nat :=
  median_func data (a - 1) a (a + 1) swaps.

Definition shortestNinther : nat := 50.
Definition maxSwaps : nat := 4 * 3.

Definition choosePivot_func (data : list A) (a b : nat) : nat * sortedHint :=
  let l := b - a in
  let swaps := 0 in
  let i := a + l / 4 * 1 in
  let j := a + l / 4 * 2 in
  let k := a + l / 4 * 3 in
  let '(j, swaps) :=
    if 8 <=? l then
      let '(i, j, k, swaps) :=
        if shortestNinther <=? l then
          let '(i, swaps) := medianAdjacent_func data i swaps in
          let '(j, swaps) := medianAdjacent_func data j swaps in
          let '(k, swaps) := medianAdjacent_func data k swaps in
          (i, j, k, swaps)
        else (i, j, k, swaps) in
      median_func data i j k swaps
    else (j, swaps) in
  if swaps =? 0 then (j, increasingHint)
  else if swaps =? maxSwaps then (j, decreasingHint)
  else (j, unknownHint).

(** [reverseRange_func]: [for i < j { data.Swap(i, j); i++; j-- }] *)
Fixpoint reverseRange_loop (fuel : nat) (data : list A) (i j : nat) : list A :=
  match fuel with
  | O => data
  | S fuel' =>
      if i <? j then reverseRange_loop fuel' (Swap data i j) (S i) (j - 1)
      else data
  end.

Definition reverseRange_func (data : list A) (a b : nat) : list A :=
  reverseRange_loop (b - a) data a (b - 1).

(** [for i < b && !data.Less(i, i-1) { i++ }] *)
Fixpoint scanSorted (fuel : nat) (data : list A) (i b : nat) : nat :=
  match fuel with
  | O => i
  | S fuel' =>
      if (i <? b) && negb (Less data i (i - 1))
      then scanSorted fuel' data (S i) b else i
  end.

(** [for j := i - 1; j >= 1; j-- { if !data.Less(j, j-1) { break }; data.Swap(j, j-1) }] *)
Fixpoint shiftLeft (data : list A) (j : nat) : list A :=
  match j with
  | O => data
  | S j' =>
      if negb (Less data j j') then data
      else shiftLeft (Swap data j j') j'
  end.

(** [for j := i + 1; j < b; j++ { if !data.Less(j, j-1) { break }; data.Swap(j, j-1) }] *)
Fixpoint shiftRight (fuel : nat) (data : list A) (j : nat) : list A :=
  match fuel with
  | O => data
  | S fuel' =>
      if negb (Less data j (j - 1)) then data
      else shiftRight fuel' (Swap data j (j - 1)) (S j)
  end.

Definition maxSteps : nat := 5.
Definition shortestShifting : nat := 50.

(** The outer loop of [partialInsertionSort_func], with [steps] rounds left. *)
Fixpoint partialInsertionSort_loop (steps : nat) (data : list A) (a b i : nat)
    : list A * bool :=
  match steps with
  | O => (data, false)
  | S steps' =>
      let i := scanSorted (b - i) data i b in
      if i =? b then (data, true)
      else if b - a <? shortestShifting then (data, false)
      else
        let data := Swap data i (i - 1) in
        let data := if 2 <=? i - a then shiftLeft data (i - 1) else data in
        let data := if 2 <=? b - i then shiftRight (b - (i + 1)) data (i + 1) else data in
        partialInsertionSort_loop steps' data a b i
  end.

Definition partialInsertionSort_func (data : list A) (a b : nat) : list A * bool :=
  partialInsertionSort_loop maxSteps data a b (a + 1).

(** [for i <= j && data.Less(i, a) { i++ }] *)
Fixpoint scanLess (fuel : nat) (data : list A) (i j a : nat) : nat :=
  match fuel with
  | O => i
  | S fuel' =>
      if (i <=? j) && Less data i a then scanLess fuel' data (S i) j a else i
  end.

(** [for i <= j && !data.Less(j, a) { j-- }] *)
Fixpoint scanNotLess (data : list A) (i j a : nat) : nat :=
  match j with
  | O => j
  | S j' =>
      if (i <=? j) && negb (Less data j a) then scanNotLess data i j' a else j
  end.

(** The [for { ... }] loop of [partition_func]; returns the slice and [j]. *)
Fixpoint partition_loop (fuel : nat) (data : list A) (i j a : nat) : list A * nat :=
  match fuel with
  | O => (data, j)
  | S fuel' =>
      let i := scanLess (S j - i) data i j a in
      let j := scanNotLess data i j a in
      if j <? i then (data, j)
      else partition_loop fuel' (Swap data i j) (S i) (j - 1) a
  end.

Definition partition_func (data : list A) (a b pivot : nat) : list A * nat * bool :=
  let data := Swap data a pivot in
  let i := a + 1 in
  let j := b - 1 in
  let i := scanLess (S j - i) data i j a in
  let j := scanNotLess data i j a in
  if j <? i then (Swap data j a, j, true)
  else
    let data := Swap data i j in
    let '(data, j) := partition_loop (b - a) data (S i) (j - 1) a in
    (Swap data j a, j, false).

(** [for i <= j && !data.Less(a, i) { i++ }] *)
Fixpoint scanNotGreater (fuel : nat) (data : list A) (i j a : nat) : nat :=
  match fuel with
  | O => i
  | S fuel' =>
      if (i <=? j) && negb (Less data a i) then scanNotGreater fuel' data (S i) j a else i
  end.

(** [for i <= j && data.Less(a, j) { j-- }] *)
Fixpoint scanGreater (data : list A) (i j a : nat) : nat :=
  match j with
  | O => j
  | S j' =>
      if (i <=? j) && Less data a j then scanGreater data i j' a else j
  end.

Fixpoint partitionEqual_loop (fuel : nat) (data : list A) (i j a : nat) : list A * nat :=
  match fuel with
  | O => (data, i)
  | S fuel' =>
      let i := scanNotGreater (S j - i) data i j a in
      let j := scanGreater data i j a in
      if j <? i then (data, i)
      else partitionEqual_loop fuel' (Swap data i j) (S i) (j - 1) a
  end.

Definition partitionEqual_func (data : list A) (a b pivot : nat) : list A * nat :=
  let data := Swap data a pivot in
  partitionEqual_loop (b - a) data (a + 1) (b - 1) a.

Definition maxInsertion : nat := 12.

Definition isIncreasing (h : sortedHint) : bool :=
  match h with increasingHint => true | _ => false end.
Definition isDecreasing (h : sortedHint) : bool :=
  match h with decreasingHint => true | _ => false end.

(** [pdqsort_func(data, a, b, limit)].  One unit of [fuel] per round of the
    [for] loop and per recursive call; every round shrinks [b - a], so
    [b - a] units are enough.  [wasBalanced] and [wasPartitioned] are the
    loop's two flags. *)
Fixpoint pdqsort_loop (fuel : nat) (data : list A) (a b limit : nat)
    (wasBalanced wasPartitioned : bool) : list A :=
  match fuel with
  | O => data
  | S fuel' =>
      let length := b - a in
      if length <=? maxInsertion then insertionSort_func data a b
      else if limit =? 0 then heapSort_func data a b
      else
        let '(data, limit) :=
          if negb wasBalanced then (breakPatterns_func data a b, limit - 1)
          else (data, limit) in
        let '(pivot, hint) := choosePivot_func data a b in
        let '(data, pivot, hint) :=
          if isDecreasing hint
          then (reverseRange_func data a b, (b - 1) - (pivot - a), increasingHint)
          else (data, pivot, hint) in
        let '(data, sorted) :=
          if wasBalanced && wasPartitioned && isIncreasing hint
          then partialInsertionSort_func data a b
          else (data, false) in
        if sorted then data
        else if (0 <? a) && negb (Less data (a - 1) pivot) then
          let '(data, mid) := partitionEqual_func data a b pivot in
          pdqsort_loop fuel' data mid b limit wasBalanced wasPartitioned
        else
          let '(data, mid, alreadyPartitioned) := partition_func data a b pivot in
          let leftLen := mid - a in
          let rightLen := b - mid in
          let balanceThreshold := length / 8 in
          if leftLen <? rightLen then
            let wasBalanced := balanceThreshold <=? leftLen in
            let data := pdqsort_loop fuel' data a mid limit true true in
            pdqsort_loop fuel' data (mid + 1) b limit wasBalanced alreadyPartitioned
          else
            let wasBalanced := balanceThreshold <=? rightLen in
            let data := pdqsort_loop fuel' data (mid + 1) b limit true true in
            pdqsort_loop fuel' data a mid limit wasBalanced alreadyPartitioned
  end.

Definition pdqsort_func (data : list A) (a b limit : nat) : list A :=
  pdqsort_loop (S (b - a)) data a b limit true true.

(** [sort.Slice(x, less)]:
    [length := rv.Len(); limit := bits.Len(uint(length));
     pdqsort_func(lessSwap{less, swap}, 0, length, limit)] *)
Definition sort_Slice (x : list A) : list A :=
  let length := length x in
  let limit := bits_Len length in
  pdqsort_func x 0 length limit.
End sort.


(* ===================================================================== *)
(** ** The process state and the monad of effects *)
(* ===================================================================== *)

(** The package-level variables the code mutates ([apiCallCount],
    [maintainersCache]) and the outside world it talks to: [network k] is what
    the [k]-th call of [httpClient.Do] returns (a response, or a transport
    error), [requests] the requests sent so far, [slept] the arguments of the
    [time.Sleep] calls so far, [clock] the current instant. *)
Record World : Type := mkWorld {
  apiCallCount : Z;
  maintainersCache : option (list string);
  network : nat -> Result Response;
  requests : list Request;
  slept : list Duration;
  clock : time_Time
}.

Definition set_apiCallCount (n : Z) (w : World) : World :=
  mkWorld n (maintainersCache w) (network w) (requests w) (slept w) (clock w).
Definition set_maintainersCache (c : option (list string)) (w : World) : World :=
  mkWorld (apiCallCount w) c (network w) (requests w) (slept w) (clock w).

(** How a call ends: it returns, or it panics. *)
Inductive Outcome (A : Type) : Type :=
| Returned (a : A)
| Panicked (reason : string).
Arguments Returned {A} a.
Arguments Panicked {A} reason.

Definition M (A : Type) : Type := World -> Outcome A * World.

#[global] Instance M_ret : MRet M := fun A a w => (Returned a, w).
#[global] Instance M_bind : MBind M := fun A B k m w =>
  match m w with
  | (Returned a, w') => k a w'
  | (Panicked r, w') => (Panicked r, w')
  end.

Definition panic {A : Type} (reason : string) : M A := fun w => (Panicked reason, w).
Definition modify (f : World -> World) : M unit := fun w => (Returned tt, f w).
Definition gets {A : Type} (f : World -> A) : M A := fun w => (Returned (f w), w).

(** [httpClient.Do(req)] *)
Definition httpClient_Do (req : Request) : M (Result Response) := fun w =>
  (Returned (network w (length (requests w))),
   mkWorld (apiCallCount w) (maintainersCache w) (network w)
           (requests w ++ [req]) (slept w) (clock w)).

(** [time.Sleep(d)] *)
Definition time_Sleep (d : Duration) : M unit := fun w =>
  (Returned tt,
   mkWorld (apiCallCount w) (maintainersCache w) (network w)
           (requests w) (slept w ++ [d]) (clock w + Z.max d 0)).

(** [time.Now().UTC()] *)
Definition time_Now : M time_Time := gets clock.

(* ===================================================================== *)
(** ** config.go *)
(* ===================================================================== *)

Definition STALE_LABEL_NAME : string := "stale".

(** The package variables [InitConfig] sets once at start-up. *)
Record Config : Type := mkConfig {
  GitHubBaseURL : string;
  Owner : string;
  Repo : string;
  STALE_HOURS_THRESHOLD : float;
  CLOSE_HOURS_AFTER_STALE_THRESHOLD : float;
  ConcurrencyLimit : Z;
  GraphQLCommentLimit : Z;
  GraphQLEditLimit : Z;
  GraphQLTimelineLimit : Z;
  SleepBetweenChunks : float
}.

(* ===================================================================== *)
(** ** util.go *)
(* ===================================================================== *)

Definition retryStatusCodes : gmap Z bool :=
  list_to_map [(429, true); (500, true); (502, true); (503, true); (504, true)].

Definition maxRetries : nat := 6.
Definition backoffFactor : Z := 2.

Definition GetAPICallCount : M Z := gets apiCallCount.

Definition ResetAPICallCount : M unit := modify (set_apiCallCount 0).

Definition incrementAPICallCount : M unit :=
  modify (fun w => set_apiCallCount (int_add (apiCallCount w) 1) w).

(** The loop of [doRequest], [left] being [maxRetries - attempt]:
    [for attempt := 0; attempt <= maxRetries; attempt++ { ... }] and the two
    returns after it. *)
Fixpoint doRequest_loop (left : nat) (req : Request) (backoff : Duration)
    : M (Result Response) :=
  r ← httpClient_Do req;
  match r with
  | Ok resp =>
      if negb (default false (retryStatusCodes !! StatusCode resp))
      then mret (Ok resp)
      else
        match left with
        | O => mret (Err "request failed after retries")
        | S left' =>
            time_Sleep backoff;;
            doRequest_loop left' req (int_mul backoff backoffFactor)
        end
  | Err e =>
      match left with
      | O => mret (Err e)
      | S left' =>
          time_Sleep backoff;;
          doRequest_loop left' req (int_mul backoff backoffFactor)
      end
  end.

Definition doRequest (req : Request) : M (Result Response) :=
  doRequest_loop maxRetries req Second.

Definition decodeJSON (resp : Response) : Result any := Body resp.

Section util.
Variable rt : GoRuntime.

Definition GetRequest (rawURL : string) (params : option (gmap string any))
    : M (Result any) :=
  incrementAPICallCount;;
  match url_Parse rt rawURL with
  | Err e => mret (Err e)
  | Ok u =>
      let u :=
        match params with
        | Some ps => url_SetQuery rt u (fmt_v rt <$> ps)
        | None => u
        end in
      match http_NewRequest rt "GET" u None with
      | Err e => mret (Err e)
      | Ok req =>
          r ← doRequest req;
          match r with
          | Err e => mret (Err e)
          | Ok resp => mret (decodeJSON resp)
          end
      end
  end.

Definition PostRequest (url : string) (payload : any) : M (Result any) :=
  incrementAPICallCount;;
  match http_NewRequest rt "POST" url (Some payload) with
  | Err e => mret (Err e)
  | Ok req =>
      r ← doRequest req;
      match r with
      | Err e => mret (Err e)
      | Ok resp => mret (decodeJSON resp)
      end
  end.


End util.

(* ===================================================================== *)
(** ** agent.go *)
(* ===================================================================== *)

Definition BOT_ALERT_SIGNATURE : string :=
  "**Notification:** The author has updated the issue description".

Definition BOT_NAME : string := "adk-bot".

Record TimelineEvent : Type := mkTimelineEvent {
  Type_ : string;
  Actor : string;
  Time : time_Time;
  Data : any
}.

Record IssueState : Type := mkIssueState {
  LastActionRole : string;
  LastActivityTime : time_Time;
  LastActionType : string;
  LastCommentText : option string;
  LastActorName : string
}.

Record IssueTargetArgs : Type := mkIssueTargetArgs {
  IssueNumber : Z
}.

(** [m[k]["nodes"]] as a list, when both checked assertions
    [m[k].(map[string]any)] and [...["nodes"].([]any)] succeed; the loops over
    it do not run otherwise. *)
Definition nodesOf (m : gmap string any) (k : string) : list any :=
  match asMap (index m k) with
  | Some o => default [] (asSlice (index o "nodes"))
  | None => []
  end.

(** [isBot], the closure of [buildHistoryTimeline]. *)
Definition isBot (actor : string) : bool :=
  String.eqb actor "" || strings_HasSuffix actor "[bot]" || String.eqb actor BOT_NAME.

(** The GraphQL query of [FetchGraphQLData]. *)
Definition graphQLQuery : string := "
query($owner: String!, $name: String!, $number: Int!, $commentLimit: Int!, $timelineLimit: Int!, $editLimit: Int!) {
  repository(owner: $owner, name: $name) {
    issue(number: $number) {
      author { login }
      createdAt
      labels(first: 20) { nodes { name } }

      comments(last: $commentLimit) {
        nodes {
          author { login }
          body
          createdAt
          lastEditedAt
        }
      }

      userContentEdits(last: $editLimit) {
        nodes {
          editor { login }
          editedAt
        }
      }

      timelineItems(
        itemTypes: [LABELED_EVENT, RENAMED_TITLE_EVENT, REOPENED_EVENT],
        last: $timelineLimit
      ) {
        nodes {
          __typename
          ... on LabeledEvent {
            createdAt
            actor { login }
            label { name }
          }
          ... on RenamedTitleEvent {
            createdAt
            actor { login }
          }
          ... on ReopenedEvent {
            createdAt
            actor { login }
          }
        }
      }
    }
  }
}
".

(** [isMaintainer] *)
Fixpoint isMaintainer (actor : string) (maintainers : list string) : bool :=
  match maintainers with
  | [] => false
  | m :: rest => if String.eqb actor m then true else isMaintainer actor rest
  end.

(** One round of the loop of [replayHistoryToFindState]. *)
Definition replayStep (maintainers : list string) (issueAuthor : string)
    (st : IssueState) (event : TimelineEvent) : IssueState :=
  let actor := Actor event in
  let etype := Type_ event in
  let role :=
    if String.eqb actor issueAuthor then "author"
    else if isMaintainer actor maintainers then "maintainer"
    else "other_user" in
  let lastCommentText :=
    if String.eqb etype "commented" then
      match asString (Data event) with
      | Some text => Some text
      | None => LastCommentText st
      end
    else None in
  mkIssueState role (Time event) etype lastCommentText actor.

(** [replayHistoryToFindState]; [None] is the panic of [history[0]] on an
    empty history. *)
Definition replayHistoryToFindState (history : list TimelineEvent)
    (maintainers : list string) (issueAuthor : string) : option IssueState :=
  match history with
  | [] => None
  | first :: _ =>
      Some (fold_left (replayStep maintainers issueAuthor) history
              (mkIssueState "author" (Time first) "created" None issueAuthor))
  end.

(** [errorResponse] *)
Definition errorResponse (msg : string) : gmap string any :=
  list_to_map [("status", Str "error"); ("error", Str msg)].

(** The loop of [getIssueState] that sets [isStale] (with its [break]). *)
Fixpoint hasStaleLabel (labelsList : list string) : bool :=
  match labelsList with
  | [] => false
  | l :: rest => if String.eqb l STALE_LABEL_NAME then true else hasStaleLabel rest
  end.

(** [latest := labelEvents[0]; for _, t := range labelEvents { if t.After(latest) { latest = t } }] *)
Definition latestOf (first : time_Time) (labelEvents : list time_Time) : time_Time :=
  fold_left (fun latest t => if After t latest then t else latest) labelEvents first.

(** The label names of [rawData["labels"]["nodes"]]. *)
Definition labelNames (rawData : gmap string any) : list string :=
  fold_left
    (fun labelsList n =>
       match asMap n with
       | Some node =>
           match asString (index node "name") with
           | Some name => labelsList ++ [name]
           | None => labelsList
           end
       | None => labelsList
       end)
    (nodesOf rawData "labels") [].

Section agent.
Variable rt : GoRuntime.
Variable cfg : Config.

(** [parseTime], the closure of [buildHistoryTimeline]:
    [s, _ := val.(string); t, _ := time.Parse(time.RFC3339, s); return t]. *)
Definition parseTime (val : any) : time_Time := time_Parse rt (stringOrZero val).

(** One round of the loop over the comments: the history and the last bot
    alert so far, then the node. *)
Definition commentStep (st : list TimelineEvent * option time_Time) (node : any)
    : list TimelineEvent * option time_Time :=
  let '(history, lastBotAlertTime) := st in
  match asMap node with
  | None => st
  | Some c =>
      let actor := loginOf c "author" in
      let cBody := stringOrZero (index c "body") in
      let cTime := parseTime (index c "createdAt") in
      if strings_Contains cBody BOT_ALERT_SIGNATURE then
        match lastBotAlertTime with
        | None => (history, Some cTime)
        | Some last =>
            if After cTime last then (history, Some cTime) else st
        end
      else if negb (isBot actor) then
        let actualTime :=
          match asString (index c "lastEditedAt") with
          | Some eTimeStr =>
              if negb (String.eqb eTimeStr "") then parseTime (Str eTimeStr) else cTime
          | None => cTime
          end in
        (history ++ [mkTimelineEvent "commented" actor actualTime (Str cBody)],
         lastBotAlertTime)
      else st
  end.

(** One round of the loop over the description edits. *)
Definition editStep (history : list TimelineEvent) (node : any) : list TimelineEvent :=
  match asMap node with
  | None => history
  | Some e =>
      let actor := loginOf e "editor" in
      if negb (isBot actor) then
        history ++ [mkTimelineEvent "edited_description" actor
                      (parseTime (index e "editedAt")) Nil]
      else history
  end.

(** One round of the loop over the timeline items: the history and the
    stale-label timestamps so far, then the node. *)
Definition timelineStep (st : list TimelineEvent * list time_Time) (node : any)
    : list TimelineEvent * list time_Time :=
  let '(history, labelEvents) := st in
  match asMap node with
  | None => st
  | Some t =>
      let etype := stringOrZero (index t "__typename") in
      let actor := loginOf t "actor" in
      let timeVal := parseTime (index t "createdAt") in
      if String.eqb etype "LabeledEvent" then
        let labelName :=
          match asMap (index t "label") with
          | Some lbl => stringOrZero (index lbl "name")
          | None => EmptyString
          end in
        if String.eqb labelName STALE_LABEL_NAME
        then (history, labelEvents ++ [timeVal])
        else st
      else if negb (isBot actor) then
        let prettyType :=
          if String.eqb etype "RenamedTitleEvent" then "renamed_title" else "reopened" in
        (history ++ [mkTimelineEvent prettyType actor timeVal Nil], labelEvents)
      else st
  end.

(** The events [buildHistoryTimeline] has appended to [history] when it
    reaches [sort.Slice], with the two auxiliary results. *)
Definition emitHistory (data : gmap string any)
    : list TimelineEvent * list time_Time * option time_Time :=
  let issueAuthor := loginOf data "author" in
  let createdAt := parseTime (index data "createdAt") in
  let history := [mkTimelineEvent "created" issueAuthor createdAt Nil] in
  let '(history, lastBotAlertTime) :=
    fold_left commentStep (nodesOf data "comments") (history, None) in
  let history := fold_left editStep (nodesOf data "userContentEdits") history in
  let '(history, labelEvents) :=
    fold_left timelineStep (nodesOf data "timelineItems") (history, []) in
  (history, labelEvents, lastBotAlertTime).

(** [history[i].Time.Before(history[j].Time)] *)
Definition byTime (x y : TimelineEvent) : bool := Before (Time x) (Time y).

Definition buildHistoryTimeline (data : gmap string any)
    : list TimelineEvent * list time_Time * option time_Time :=
  let '(history, labelEvents, lastBotAlertTime) := emitHistory data in
  (sort_Slice byTime (xorshift_Next rt) history, labelEvents, lastBotAlertTime).

Definition getCachedMaintainers : M (Result (list string)) :=
  cache ← gets maintainersCache;
  match cache with
  | Some maintainers => mret (Ok maintainers)
  | None =>
      let url := GitHubBaseURL cfg +:+ "/repos/" +:+ Owner cfg +:+ "/" +:+ Repo cfg
                 +:+ "/collaborators" in
      let params : gmap string any := {[ "permission" := Str "push" ]} in
      r ← GetRequest rt url (Some params);
      match r with
      | Err err => mret (Err ("maintainer verification failed: " +:+ err))
      | Ok data =>
          match asSlice data with
          | None => mret (Err "github API returned non-list data")
          | Some rawList =>
              let maintainers :=
                fold_left
                  (fun maintainers item =>
                     match asMap item with
                     | None => maintainers
                     | Some obj =>
                         match asString (index obj "login") with
                         | Some login => maintainers ++ [login]
                         | None => maintainers
                         end
                     end)
                  rawList [] in
              modify (set_maintainersCache (Some maintainers));;
              mret (Ok maintainers)
          end
      end
  end.

(** [FetchGraphQLData].  The unchecked assertions [x.(T)] and [errList[0]]
    panic when they fail. *)
Definition FetchGraphQLData (itemNumber : Z) : M (Result (gmap string any)) :=
  let variables : gmap string any :=
    list_to_map
      [("owner", Str (Owner cfg)); ("name", Str (Repo cfg));
       ("number", Int itemNumber);
       ("commentLimit", Int (GraphQLCommentLimit cfg));
       ("editLimit", Int (GraphQLEditLimit cfg));
       ("timelineLimit", Int (GraphQLTimelineLimit cfg))] in
  let payload : gmap string any :=
    list_to_map [("query", Str graphQLQuery); ("variables", Map variables)] in
  r ← PostRequest rt (GitHubBaseURL cfg +:+ "/graphql") (Map payload);
  match r with
  | Err err => mret (Err err)
  | Ok respAny =>
      match asMap respAny with
      | None => mret (Err "invalid GraphQL response format")
      | Some resp =>
          match resp !! "errors" with
          | Some errs =>
              match asSlice errs with
              | None => panic "interface conversion: errors is not []interface {}"
              | Some [] => panic "index out of range [0] with length 0"
              | Some (first :: _) =>
                  match asMap first with
                  | None => panic "interface conversion: error is not map[string]interface {}"
                  | Some firstErr =>
                      mret (Err ("GraphQL Error: " +:+ fmt_v rt (index firstErr "message")))
                  end
              end
          | None =>
              match asMap (index resp "data") with
              | None => panic "interface conversion: data is not map[string]interface {}"
              | Some data =>
                  match asMap (index data "repository") with
                  | None => panic "interface conversion: repository is not map[string]interface {}"
                  | Some repo =>
                      match index repo "issue" with
                      | Nil => mret (Err ("Issue #" +:+ pretty itemNumber +:+ " not found."))
                      | Map issue => mret (Ok issue)
                      | _ => panic "interface conversion: issue is not map[string]interface {}"
                      end
                  end
              end
          end
      end
  end.

(** The field [maintainer_alert_needed] as [getIssueState] computes it. *)
Definition maintainerAlertNeeded (state : IssueState)
    (lastBotAlertTime : option time_Time) : bool :=
  if (String.eqb (LastActionRole state) "author"
      || String.eqb (LastActionRole state) "other_user")
     && String.eqb (LastActionType state) "edited_description"
  then
    match lastBotAlertTime with
    | None => true
    | Some last => if Before last (LastActivityTime state) then true else false
    end
  else false.

(** The field [days_since_stale_label] as [getIssueState] computes it. *)
Definition daysSinceStaleLabel (now : time_Time) (isStale : bool)
    (labelEvents : list time_Time) : float :=
  match labelEvents with
  | first :: _ =>
      if isStale
      then (Hours (Sub now (latestOf first labelEvents)) / 24)%float
      else 0%float
  | [] => 0%float
  end.

(** [getIssueState]: the payload and the [error] it returns. *)
Definition getIssueState (args : IssueTargetArgs) : M (gmap string any * option error) :=
  let itemNumber := IssueNumber args in
  r ← getCachedMaintainers;
  match r with
  | Err err =>
      mret (errorResponse ("error getting cached maintainers: " +:+ err), None)
  | Ok maintainers =>
      r ← FetchGraphQLData itemNumber;
      match r with
      | Err err => mret (errorResponse ("network error: " +:+ err), None)
      | Ok rawData =>
          let issueAuthor := loginOf rawData "author" in
          let labelsList := labelNames rawData in
          let '(history, labelEvents, lastBotAlertTime) := buildHistoryTimeline rawData in
          match replayHistoryToFindState history maintainers issueAuthor with
          | None => panic "index out of range [0] with length 0"
          | Some state =>
              now ← time_Now;
              let daysSinceActivity :=
                (Hours (Sub now (LastActivityTime state)) / 24)%float in
              let isStale := hasStaleLabel labelsList in
              mret
                (list_to_map
                   [("status", Str "success");
                    ("last_action_role", Str (LastActionRole state));
                    ("last_action_type", Str (LastActionType state));
                    ("last_actor_name", Str (LastActorName state));
                    ("maintainer_alert_needed",
                      Bool (maintainerAlertNeeded state lastBotAlertTime));
                    ("is_stale", Bool isStale);
                    ("days_since_activity", Float64 daysSinceActivity);
                    ("days_since_stale_label",
                      Float64 (daysSinceStaleLabel now isStale labelEvents));
                    ("last_comment_text", StrPtr (LastCommentText state));
                    ("current_labels", Strings labelsList);
                    ("stale_threshold_days",
                      Float64 (STALE_HOURS_THRESHOLD cfg / 24)%float);
                    ("close_threshold_days",
                      Float64 (CLOSE_HOURS_AFTER_STALE_THRESHOLD cfg / 24)%float);
                    ("maintainers", Strings maintainers);
                    ("issue_author", Str issueAuthor)],
                 None)
          end
      end
  end.
End agent.

(* ===================================================================== *)
(** ** main.go: the batch loop of [main] *)
(* ===================================================================== *)

Record processSingleResult : Type := mkProcessSingleResult {
  duration : Duration;
  apiCalls : Z
}.

(** The three accumulators of the loop. *)
Record Totals : Type := mkTotals {
  totalProcessingTime : Duration;
  totalIssueAPICalls : Z;
  processedCount : Z
}.

(** [for res := range resultsChan { totalProcessingTime += res.duration;
    totalIssueAPICalls += res.apiCalls }] and [processedCount += len(chunk)]. *)
Definition accumulate (acc : Totals) (chunk : list Z) (results : list processSingleResult)
    : Totals :=
  let acc :=
    fold_left
      (fun acc res =>
         mkTotals (int_add (totalProcessingTime acc) (duration res))
                  (int_add (totalIssueAPICalls acc) (apiCalls res))
                  (processedCount acc))
      results acc in
  mkTotals (totalProcessingTime acc) (totalIssueAPICalls acc)
           (int_add (processedCount acc) (Z.of_nat (length chunk))).

Section main.
Variable cfg : Config.

(** What the body of the loop does with one chunk between its two log lines:
    one goroutine per issue running [processSingleIssue], [wg.Wait()],
    [close(resultsChan)]; the results are those read from the channel.  The
    goroutines and the decision agent they call are outside this model. *)
Variable processChunk : list Z -> M (list processSingleResult).

(** [time.Duration(SleepBetweenChunks * float64(time.Second))] *)
Definition pacingInterval : Duration :=
  int64_of_float (SleepBetweenChunks cfg * 1000000000)%float.

(** [for i := 0; i < totalCount; i += ConcurrencyLimit { ... }], from [i] on.
    [None] when [fuel] rounds were not enough; the slice expression
    [allIssues[i:end]] panics when its bounds are out of order. *)
Fixpoint main_loop (fuel : nat) (allIssues : list Z) (i : Z) (acc : Totals)
    : M (option Totals) :=
  let totalCount := Z.of_nat (length allIssues) in
  if i <? totalCount then
    match fuel with
    | O => mret None
    | S fuel' =>
        let end_ := int_add i (ConcurrencyLimit cfg) in
        let end_ := if totalCount <? end_ then totalCount else end_ in
        if (0 <=? i) && (i <=? end_) && (end_ <=? totalCount) then
          let chunk := take (Z.to_nat (end_ - i)) (drop (Z.to_nat i) allIssues) in
          results ← processChunk chunk;
          let acc := accumulate acc chunk results in
          (if end_ <? totalCount then time_Sleep pacingInterval else mret tt);;
          main_loop fuel' allIssues (int_add i (ConcurrencyLimit cfg)) acc
        else panic "slice bounds out of range"
    end
  else mret (Some acc).

(** The loop as [main] enters it. *)
Definition main_batches (allIssues : list Z) : M (option Totals) :=
  main_loop (length allIssues) allIssues 0 (mkTotals 0 0 0).
End main.

(* ===================================================================== *)
(** ** Vocabulary for the properties *)
(* ===================================================================== *)

Section vocabulary.
Variable rt : GoRuntime.

(** What one comment, one description edit or one timeline item adds to
    [history], read off the loop bodies themselves. *)
Definition commentEvents (node : any) : list TimelineEvent :=
  (commentStep rt ([], None) node).1.
Definition editEvents (node : any) : list TimelineEvent :=
  editStep rt [] node.
Definition timelineEvents (node : any) : list TimelineEvent :=
  (timelineStep rt ([], []) node).1.

(** What one timeline item adds to [labelEvents]. *)
Definition staleLabelTimes (node : any) : list time_Time :=
  (timelineStep rt ([], []) node).2.

(** The [created] event every history starts with. *)
Definition createdEvent (data : gmap string any) : TimelineEvent :=
  mkTimelineEvent "created" (loginOf data "author")
    (parseTime rt (index data "createdAt")) Nil.

(** A comment whose body matches the bot-alert signature. *)
Definition isBotAlert (node : any) : bool :=
  match asMap node with
  | Some c => strings_Contains (stringOrZero (index c "body")) BOT_ALERT_SIGNATURE
  | None => false
  end.

(** The timestamp [cTime] of a comment. *)
Definition commentTime (node : any) : time_Time :=
  match asMap node with
  | Some c => parseTime rt (index c "createdAt")
  | None => zeroTime
  end.

(** The timestamps of the comments that match the signature. *)
Definition botAlertTimes (data : gmap string any) : list time_Time :=
  commentTime <$> filter (fun node => isBotAlert node = true) (nodesOf data "comments").

(** A timeline item that is a label application. *)
Definition isLabeledEvent (node : any) : bool :=
  match asMap node with
  | Some t => String.eqb (stringOrZero (index t "__typename")) "LabeledEvent"
  | None => false
  end.

(** The label name and the timestamp of a timeline item. *)
Definition labelNameOf (node : any) : string :=
  match asMap node with
  | Some t =>
      match asMap (index t "label") with
      | Some lbl => stringOrZero (index lbl "name")
      | None => EmptyString
      end
  | None => EmptyString
  end.
Definition itemTime (node : any) : time_Time :=
  match asMap node with
  | Some t => parseTime rt (index t "createdAt")
  | None => zeroTime
  end.
End vocabulary.

(** The snapshot without its label-applied timeline items. *)
Definition withoutLabeledEvents (data : gmap string any) : gmap string any :=
  match asMap (index data "timelineItems") with
  | Some timeline =>
      match asSlice (index timeline "nodes") with
      | Some nodes =>
          <["timelineItems" :=
              Map (<["nodes" := Slice (filter (fun n => isLabeledEvent n = false) nodes)]>
                     timeline)]> data
      | None => data
      end
  | None => data
  end.

(** The batch loop spelled out: the chunks of [allIssues], cut every [c]
    issues, and the steps of a run over them. *)
Fixpoint chunksOf (fuel : nat) (c : nat) (allIssues : list Z) : list (list Z) :=
  match fuel, allIssues with
  | S fuel', _ :: _ => take c allIssues :: chunksOf fuel' c (drop c allIssues)
  | _, _ => []
  end.

Inductive BatchStep : Type :=
| RunChunk (chunk : list Z)
| Pace.

(** A pacing step after every chunk except the last. *)
Fixpoint schedule (chunks : list (list Z)) : list BatchStep :=
  match chunks with
  | [] => []
  | [chunk] => [RunChunk chunk]
  | chunk :: rest => RunChunk chunk :: Pace :: schedule rest
  end.

Definition isPace (s : BatchStep) : bool :=
  match s with Pace => true | RunChunk _ => false end.

Section run_schedule.
Variable cfg : Config.
Variable processChunk : list Z -> M (list processSingleResult).

Fixpoint runSchedule (steps : list BatchStep) (acc : Totals) : M Totals :=
  match steps with
  | [] => mret acc
  | RunChunk chunk :: rest =>
      results ← processChunk chunk;
      runSchedule rest (accumulate acc chunk results)
  | Pace :: rest =>
      time_Sleep (pacingInterval cfg);;
      runSchedule rest acc
  end.
End run_schedule.

(** A result of [httpClient.Do] after which [doRequest] tries again: a
    transport error, or a response whose status is in [retryStatusCodes]. *)
Definition transient (r : Result Response) : bool :=
  match r with
  | Ok resp => default false (retryStatusCodes !! StatusCode resp)
  | Err _ => true
  end.

(** The running maximum kept in [lastBotAlertTime]. *)
Definition keepLatest (last : option time_Time) (t : time_Time) : option time_Time :=
  match last with
  | None => Some t
  | Some l => if After t l then Some t else last
  end.

(** What a request helper leaves alone: the cache and the network script. *)
Definition quiet (w w' : World) : Prop :=
  maintainersCache w' = maintainersCache w /\ network w' = network w.

(** [k] transient results, then one that is not: [doRequest] returns that
    response after [k + 1] attempts and [k] sleeps, the first of one second
    and each of the next twice as long. *)
Fixpoint backoffs (k : nat) (backoff : Duration) : list Duration :=
  match k with
  | O => []
  | S k' => backoff :: backoffs k' (int_mul backoff backoffFactor)
  end.


(* ===================================================================== *)
(** ** A runtime and inputs for the examples *)
(* ===================================================================== *)

(** The decimal digit at position [i] of [s]. *)
Definition digitAt (s : string) (i : nat) : option Z :=
  match String.get i s with
  | Some ch =>
      let d := Z.of_nat (nat_of_ascii ch) - 48 in
      if (0 <=? d) && (d <=? 9) then Some d else None
  | None => None
  end.

Definition charAt (s : string) (i : nat) (ch : ascii) : bool :=
  match String.get i s with
  | Some ch' => Ascii.eqb ch ch'
  | None => false
  end.

Definition number2 (s : string) (i : nat) : option Z :=
  a ← digitAt s i; b ← digitAt s (i + 1); Some (10 * a + b).

Definition number4 (s : string) (i : nat) : option Z :=
  a ← number2 s i; b ← number2 s (i + 2); Some (100 * a + b).

Definition isLeap (y : Z) : bool :=
  (y mod 4 =? 0) && (negb (y mod 100 =? 0) || (y mod 400 =? 0)).

Definition daysIn (m y : Z) : Z :=
  if m =? 2 then (if isLeap y then 29 else 28)
  else if (m =? 4) || (m =? 6) || (m =? 9) || (m =? 11) then 30 else 31.

(** Days from 1970-01-01 to the given date of the Gregorian calendar. *)
Definition daysFromCivil (y m d : Z) : Z :=
  let y := if m <=? 2 then y - 1 else y in
  let era := y / 400 in
  let yoe := y - era * 400 in
  let doy := (153 * (if 2 <? m then m - 3 else m + 9) + 2) / 5 + d - 1 in
  let doe := yoe * 365 + yoe / 4 - yoe / 100 + doy in
  era * 146097 + doe - 719468.

(** [time.Parse(time.RFC3339, s)] on the timestamps the GitHub API sends,
    [YYYY-MM-DDTHH:MM:SSZ]; any other string is taken as a parse error here
    (the empty string and other non-timestamps are, in Go too). *)
Definition parseRFC3339 (s : string) : option time_Time :=
  if (String.length s =? 20)%nat
     && charAt s 4 "-" && charAt s 7 "-" && charAt s 10 "T"
     && charAt s 13 ":" && charAt s 16 ":" && charAt s 19 "Z"
  then
    y ← number4 s 0; mo ← number2 s 5; d ← number2 s 8;
    h ← number2 s 11; mi ← number2 s 14; se ← number2 s 17;
    if (1 <=? mo) && (mo <=? 12) && (1 <=? d) && (d <=? daysIn mo y)
       && (h <? 24) && (mi <? 60) && (se <? 60)
    then Some ((daysFromCivil y mo d * 86400 + h * 3600 + mi * 60 + se) * Second)
    else None
  else None.

(** A runtime for the examples: timestamps as above, URLs and requests that
    are always well formed, [%v] on the values the examples format, and a
    64-bit xorshift step (no example reaches [breakPatterns_func]). *)
Definition sampleRuntime : GoRuntime :=
  mkGoRuntime
    (fun s => default zeroTime (parseRFC3339 s))
    (fun rawURL => Ok rawURL)
    (fun u q =>
       u +:+ "?" +:+
       String.concat "&" ((fun kv => kv.1 +:+ "=" +:+ kv.2) <$> map_to_list q))
    (fun method url payload => Ok (mkRequest method url payload))
    (fun v =>
       match v with
       | Str s => s
       | Int n => pretty n
       | Bool true => "true"
       | Bool false => "false"
       | Nil => "<nil>"
       | _ => ""
       end)
    (fun r =>
       let r := Z.lxor r (Z.shiftl r 13 mod 2 ^ 64) in
       let r := Z.lxor r (Z.shiftr r 7) in
       Z.lxor r (Z.shiftl r 17 mod 2 ^ 64)).

Definition sampleConfig : Config :=
  mkConfig "https://api.github.com" "indurireddy-TF" "stale-bot"
    168 168 3 30 10 20 1.5.

(** A JSON object. *)
Definition object (fields : list (string * any)) : any := Map (list_to_map fields).

Definition user (login : string) : any := object [("login", Str login)].

(** The collaborators listing: two maintainers. *)
Definition sampleCollaborators : Response :=
  mkResponse 200 (Ok (Slice [user "alice"; user "bob"])).

(** Issue 7 as the GraphQL query returns it: opened by carol, carrying the
    stale label (applied twice), its description edited by carol afterwards. *)
Definition sampleIssueData (comments : list any) : gmap string any :=
  list_to_map
    [("author", user "carol");
     ("createdAt", Str "2024-01-01T00:00:00Z");
     ("labels", object [("nodes", Slice [object [("name", Str "bug")];
                                         object [("name", Str "stale")]])]);
     ("comments", object [("nodes", Slice comments)]);
     ("userContentEdits", object [("nodes", Slice
        [object [("editor", user "carol"); ("editedAt", Str "2024-03-01T00:00:00Z")]])]);
     ("timelineItems", object [("nodes", Slice
        [object [("__typename", Str "LabeledEvent");
                 ("createdAt", Str "2024-02-01T00:00:00Z");
                 ("actor", user "adk-bot");
                 ("label", object [("name", Str "stale")])];
         object [("__typename", Str "LabeledEvent");
                 ("createdAt", Str "2024-02-10T00:00:00Z");
                 ("actor", user "adk-bot");
                 ("label", object [("name", Str "stale")])]])])].

Definition sampleIssue (comments : list any) : Response :=
  mkResponse 200
    (Ok (object [("data", object [("repository",
           object [("issue", Map (sampleIssueData comments))])])])).

(** An earlier alert of the bot, posted after the edit. *)
Definition sampleAlert : any :=
  object [("author", user "adk-bot");
          ("body", Str "**Notification:** The author has updated the issue description. Maintainers, please review.");
          ("createdAt", Str "2024-03-02T00:00:00Z")].

(** A process at start-up on 2024-03-11: empty cache, and a network that
    answers the listing and then the query. *)
Definition sampleWorld (comments : list any) : World :=
  mkWorld 0 None
    (fun k =>
       match k with
       | O => Ok sampleCollaborators
       | S O => Ok (sampleIssue comments)
       | _ => Err "connection refused"
       end)
    [] [] (default zeroTime (parseRFC3339 "2024-03-11T00:00:00Z")).

Definition sampleArgs : IssueTargetArgs := mkIssueTargetArgs 7.

(** The process after the maintainers were listed, and after the query. *)
Definition sampleWorldListed (comments : list any) : World :=
  (getCachedMaintainers sampleRuntime sampleConfig (sampleWorld comments)).2.
Definition sampleWorldFetched (comments : list any) : World :=
  (FetchGraphQLData sampleRuntime sampleConfig 7 (sampleWorldListed comments)).2.

(** A network that answers 503 once and then 200 with a JSON body. *)
Definition flakyWorld : World :=
  mkWorld 0 None
    (fun k =>
       match k with
       | O => Ok (mkResponse 503 (Err "unexpected end of JSON input"))
       | _ => Ok (mkResponse 200 (Ok (object [("ok", Bool true)])))
       end)
    [] [] 0.

(** A process at start-up whose listing of the maintainers succeeds and whose
    query is answered by [answer]. *)
Definition refusedWorld (answer : Response) : World :=
  mkWorld 0 None
    (fun k =>
       match k with
       | O => Ok sampleCollaborators
       | _ => Ok answer
       end)
    [] [] (default zeroTime (parseRFC3339 "2024-03-11T00:00:00Z")).

(** What GitHub answers to a query it refuses: status 403 and the object of
    a REST error, with a message and without [data] and [errors]. *)
Definition forbiddenAnswer : Response :=
  mkResponse 403
    (Ok (object [("message", Str "Resource not accessible by integration");
                 ("documentation_url", Str "https://docs.github.com/graphql")])).

(** The same refusal with a body that is no object. *)
Definition forbiddenList : Response := mkResponse 403 (Ok (Slice [])).

(** A comment as the query returns it. *)
Definition comment (login body createdAt : string) : any :=
  object [("author", user login); ("body", Str body); ("createdAt", Str createdAt)].

(** A title change or a reopening as the query returns it. *)
Definition timelineItem (typename login createdAt : string) : any :=
  object [("__typename", Str typename); ("actor", user login);
          ("createdAt", Str createdAt)].

(** An issue of carol with nine comments and three timeline items, thirteen
    events with the creation.  The last two comments carry the same instant:
    the maintainer alice asks for the log and carol answers within the second. *)
Definition tieInstant : time_Time :=
  default zeroTime (parseRFC3339 "2024-01-13T10:00:00Z").

Definition tieIssueData : gmap string any :=
  list_to_map
    [("author", user "carol");
     ("createdAt", Str "2024-01-01T00:00:00Z");
     ("comments", object [("nodes", Slice
        [comment "carol" "It fails on start-up." "2024-01-02T00:00:00Z";
         comment "alice" "Which version?" "2024-01-03T00:00:00Z";
         comment "carol" "1.4.2" "2024-01-04T00:00:00Z";
         comment "dave" "Same here." "2024-01-09T00:00:00Z";
         comment "alice" "Does it fail with a clean profile?" "2024-01-10T00:00:00Z";
         comment "carol" "Yes." "2024-01-11T00:00:00Z";
         comment "dave" "Also on 1.4.3." "2024-01-12T00:00:00Z";
         comment "alice" "Please attach the log." "2024-01-13T10:00:00Z";
         comment "carol" "Log attached." "2024-01-13T10:00:00Z"])]);
     ("timelineItems", object [("nodes", Slice
        [timelineItem "RenamedTitleEvent" "carol" "2024-01-06T00:00:00Z";
         timelineItem "ReopenedEvent" "carol" "2024-01-07T00:00:00Z";
         timelineItem "RenamedTitleEvent" "alice" "2024-01-08T00:00:00Z"])])].

(** Seven issues for a batch, and chunk work that returns at once. *)
Definition sampleIssues : list Z := [101; 102; 103; 104; 105; 106; 107].
Definition idleChunk : list Z -> M (list processSingleResult) := fun _ => mret [].

(** ** Vocabulary for the correctness of [sort.Slice] *)

Section sorting_vocabulary.
Context {A : Type}.
Variable key : A -> Z.

(** The comparison of [sort.Slice] callers that order by a key. *)
Definition lessBy (x y : A) : bool := key x <? key y.

(** The key at an index (0 outside the slice). *)
Definition keyAt (data : list A) (i : nat) : Z := from_option key 0 (data !! i).

(** [data[a:b]] is in nondecreasing key order. *)
Definition sortedOn (a b : nat) (data : list A) : Prop :=
  forall i j, (a <= i)%nat -> (i <= j)%nat -> (j < b)%nat -> keyAt data i <= keyAt data j.

(** Every key of [data[a:b]] satisfies [P]. *)
Definition allOn (P : Z -> Prop) (a b : nat) (data : list A) : Prop :=
  forall k, (a <= k)%nat -> (k < b)%nat -> P (keyAt data k).

(** What [pdqsort_func] relies on when it looks at [data[a-1]]: the element
    before the range is no greater than any element of the range. *)
Definition lowerBound (a b : nat) (data : list A) : Prop :=
  (0 < a)%nat -> allOn (fun k => keyAt data (a - 1) <= k) a b data.

(** [data'] comes from [data] by swaps of elements of [data[a:b]]. *)
Inductive shuffle (a b : nat) : list A -> list A -> Prop :=
| shuffle_refl data : shuffle a b data data
| shuffle_swap data i j data' :
    (a <= i)%nat -> (i < b)%nat -> (a <= j)%nat -> (j < b)%nat ->
    shuffle a b (Swap data i j) data' -> shuffle a b data data'.

(** The elements with a given key, in order: a stable sort keeps this list
    for every key. *)
Definition withKey (t : Z) (data : list A) : list A :=
  filter (fun x => key x = t) data.

(** Insertion of [x] behind the elements that are not greater. *)
Fixpoint insertStable (x : A) (l : list A) : list A :=
  match l with
  | [] => [x]
  | y :: rest => if key x <? key y then x :: l else y :: insertStable x rest
  end.

(** The stable sort by [key]. *)
Definition stableSort (l : list A) : list A :=
  fold_left (fun sorted x => insertStable x sorted) l [].
End sorting_vocabulary.


(** The loop invariants of the parts of [pdqsort_func]. *)
Section sorting_invariants.
Local Open Scope nat_scope.
Context {A : Type}.
Variable key : A -> Z.
Implicit Types data : list A.

(** [c] is a child of [i] in the implicit binary tree. *)
Definition childOf (c i : nat) : Prop := c = 2 * i + 1 \/ c = 2 * i + 2.

(** The state of the inner loop: [data[a:hi]] is sorted apart from the
    element at [j], which is no greater than the elements after it. *)
Definition sortedBut (a j hi : nat) data : Prop :=
  (forall i k, a <= i -> i <= k -> k < hi -> i <> j -> k <> j -> (keyAt key data i <= keyAt key data k)%Z) /\
  (forall k, j < k -> k < hi -> (keyAt key data j <= keyAt key data k)%Z).

(** The state of the partitioning loops around the pivot key [p] kept at [a]. *)
Definition partitioning (a b i j : nat) (p : Z) data : Prop :=
  a + 1 <= i /\ i <= S j /\ j < b /\ b <= length data /\ keyAt key data a = p /\
  allOn key (fun k => k < p)%Z (a + 1) i data /\
  allOn key (fun k => p <= k)%Z (S j) b data.

(** The state of the loop of [partitionEqual_func] around the pivot key [p]. *)
Definition partitioningEqual (a b i j : nat) (p : Z) data : Prop :=
  a + 1 <= i /\ i <= S j /\ j < b /\ b <= length data /\ keyAt key data a = p /\
  allOn key (fun k => k <= p)%Z (a + 1) i data /\
  allOn key (fun k => p < k)%Z (S j) b data.

(** The max-heap property of the nodes from [lo] on, in the heap of size [hi]
    stored at [data[first:]], with the node [root] exempt; the children of
    [root] are then bounded by the parent of [root]. *)
Definition heapBut (root lo hi first : nat) data : Prop :=
  (forall i c, lo <= i -> i <> root -> childOf c i -> c < hi ->
     (keyAt key data (first + c) <= keyAt key data (first + i))%Z) /\
  (forall p c, lo <= p -> childOf root p -> childOf c root -> c < hi ->
     (keyAt key data (first + c) <= keyAt key data (first + p))%Z).

(** The max-heap property of the nodes from [lo] on. *)
Definition heapFrom (lo hi first : nat) data : Prop :=
  forall i c, lo <= i -> childOf c i -> c < hi ->
    (keyAt key data (first + c) <= keyAt key data (first + i))%Z.

(** The state of the second loop of [heapSort_func] when [n] elements are
    left in the heap: a heap, below a sorted tail of greater elements. *)
Definition heapAndTail (n hi first : nat) data : Prop :=
  heapFrom 0 n first data /\
  sortedOn key (first + n) (first + hi) data /\
  (forall x y, x < n -> n <= y -> y < hi ->
     (keyAt key data (first + x) <= keyAt key data (first + y))%Z).

(** What a call of [pdqsort_func] is to establish, for the calls that fit in
    [fuel]: the range is sorted, by swaps inside the range. *)
Definition pdqsortSpec (next : Z -> Z) (fuel : nat) : Prop :=
  forall data (a b limit : nat) (wb wp : bool),
    a <= b -> b <= length data -> b - a < fuel -> lowerBound key a b data ->
    sortedOn key a b (pdqsort_loop (lessBy key) next fuel data a b limit wb wp) /\
    shuffle a b data (pdqsort_loop (lessBy key) next fuel data a b limit wb wp).
End sorting_invariants.

(* ===================================================================== *)
(** ** Vocabulary for the retry loop *)
(* ===================================================================== *)


(** What [doRequest] makes of the answer of its last attempt. *)
Definition settle (answer : Result Response) : Result Response :=
  match answer with
  | Ok resp => if transient (Ok resp) then Err "request failed after retries" else Ok resp
  | Err e => Err e
  end.

(** What a call of [doRequest] in the state [w] comes to: it takes [S k]
    attempts, the first [k] answers being transient and the last one not,
    unless the attempts are used up. *)
Definition attempts (w : World) (k : nat) : Prop :=
  (k <= maxRetries)%nat /\
  (forall i, (i < k)%nat -> transient (network w (length (requests w) + i)) = true) /\
  (transient (network w (length (requests w) + k)) = true -> k = maxRetries).

(** The result of these attempts, and the state after them: [S k] copies of
    the request sent, [k] pauses made. *)
Definition answer (w : World) (k : nat) : Result Response :=
  settle (network w (length (requests w) + k)).

Definition afterAttempts (w : World) (req : Request) (k : nat) : World :=
  mkWorld (apiCallCount w) (maintainersCache w) (network w)
    (requests w ++ replicate (S k) req)
    (slept w ++ backoffs k Second)
    (clock w + foldr (fun d t => Z.max d 0 + t) 0 (backoffs k Second)).

(** A request helper in the state [w]: the counter goes up, then the
    attempts. *)
Definition afterCall (w : World) (req : Request) (k : nat) : World :=
  afterAttempts (set_apiCallCount (int_add (apiCallCount w) 1) w) req k.

(** [decodeJSON] of the response of a call that got one. *)
Definition decoded (r : Result Response) : Result any :=
  match r with
  | Ok resp => decodeJSON resp
  | Err e => Err e
  end.

(* ===================================================================== *)
(** ** agent.go: the tools that act on an issue *)
(* ===================================================================== *)


(** [ToolResult] (main.go); [Message] is empty when it is not set. *)
Record ToolResult : Type := mkToolResult {
  Status : string;
  Message : string
}.

Section tools.
Variable rt : GoRuntime.
Variable cfg : Config.

(** [math.Mod] and [fmt.Sprintf("%.1f", x)], which [formatDays] calls. *)
Variable math_Mod : float -> float -> float.
Variable fmt_f1 : float -> string.

(** [formatDays]; [fmt.Sprintf("%d", n)] is [pretty n]. *)
Definition formatDays (hours : float) : string :=
  let days := (hours / 24)%float in
  if (math_Mod days 1 =? 0)%float then pretty (int64_of_float days)
  else fmt_f1 days.

(** [fmt.Sprintf("%s/repos/%s/%s/issues/%d", GitHubBaseURL, Owner, Repo, n)],
    the prefix the tools' URLs share. *)
Definition issueEndpoint (issueNumber : Z) : string :=
  GitHubBaseURL cfg +:+ "/repos/" +:+ Owner cfg +:+ "/" +:+ Repo cfg
  +:+ "/issues/" +:+ pretty issueNumber.

(** [map[string]string{k: v}] as the JSON object it is sent as. *)
Definition stringMap (k v : string) : any := Map {[ k := Str v ]}.



(** The comment [addStaleLabelAndComment] posts. *)
Definition staleComment : string :=
  "This issue has been automatically marked as stale because it has not"
  +:+ " had recent activity for " +:+ formatDays (STALE_HOURS_THRESHOLD cfg)
  +:+ " days after a maintainer"
  +:+ " requested clarification. It will be closed if no further activity"
  +:+ " occurs within " +:+ formatDays (CLOSE_HOURS_AFTER_STALE_THRESHOLD cfg)
  +:+ " days.".


(** The comment [alertMaintainerOfEdit] posts:
    [fmt.Sprintf("%s. Maintainers, please review.", BOT_ALERT_SIGNATURE)]. *)
Definition alertComment : string :=
  BOT_ALERT_SIGNATURE +:+ ". Maintainers, please review.".

(** [alertMaintainerOfEdit] *)
Definition alertMaintainerOfEdit (args : IssueTargetArgs)
    : M (ToolResult * option error) :=
  let comment := alertComment in
  let url := issueEndpoint (IssueNumber args) +:+ "/comments" in
  r ← PostRequest rt url (stringMap "body" comment);
  match r with
  | Err err => mret (mkToolResult "failure" ("error posting alert: " +:+ err), Some err)
  | Ok _ => mret (mkToolResult "success" "", None)
  end.


End tools.

(* ===================================================================== *)
(** ** Vocabulary for the fetches of agent.go *)
(* ===================================================================== *)

(** The logins of a collaborators listing: of the entries that are objects
    with a string [login], in order. *)
Definition loginsOf (rawList : list any) : list string :=
  omap (fun item => obj ← asMap item; asString (index obj "login")) rawList.

(** The URL and the parameters of the listing, and the body of the query. *)
Definition collaboratorsURL (cfg : Config) : string :=
  GitHubBaseURL cfg +:+ "/repos/" +:+ Owner cfg +:+ "/" +:+ Repo cfg +:+ "/collaborators".

Definition collaboratorsParams : gmap string any := {[ "permission" := Str "push" ]}.

Definition graphQLPayload (cfg : Config) (itemNumber : Z) : any :=
  Map (list_to_map
         [("query", Str graphQLQuery);
          ("variables",
           Map (list_to_map
                  [("owner", Str (Owner cfg)); ("name", Str (Repo cfg));
                   ("number", Int itemNumber);
                   ("commentLimit", Int (GraphQLCommentLimit cfg));
                   ("editLimit", Int (GraphQLEditLimit cfg));
                   ("timelineLimit", Int (GraphQLTimelineLimit cfg))]))]).

(** The fourteen fields of the fact sheet of [getIssueState]. *)
Definition factSheetFields : list string :=
  ["status"; "last_action_role"; "last_action_type"; "last_actor_name";
   "maintainer_alert_needed"; "is_stale"; "days_since_activity";
   "days_since_stale_label"; "last_comment_text"; "current_labels";
   "stale_threshold_days"; "close_threshold_days"; "maintainers"; "issue_author"].

(* ===================================================================== *)
(** ** util.go: the issue search *)
(* ===================================================================== *)

(** One round of the loop over the items of a page: the issue numbers so far
    ([None] once the unchecked assertion [item.(map[string]any)] has
    panicked), then the item. *)
Definition searchItemStep (issueNumbers : option (list Z)) (item : any)
    : option (list Z) :=
  match issueNumbers with
  | None => None
  | Some numbers =>
      match asMap item with
      | None => None
      | Some m =>
          match m !! "pull_request" with
          | Some _ => Some numbers
          | None =>
              match index m "number" with
              | Float64 n => Some (numbers ++ [int64_of_float n])
              | _ => Some numbers
              end
          end
      end
  end.

Section search.
Variable rt : GoRuntime.
Variable cfg : Config.

(** [t.Format("2006-01-02T15:04:05Z")] *)
Variable time_Format : time_Time -> string.

(** The parameters of the request for one page. *)
Definition searchParams (query : string) (page : Z) : gmap string any :=
  list_to_map [("q", Str query); ("per_page", Int 100); ("page", Int page)].

(** The loop [for { ... }] of [GetOldOpenIssueNumbers], from [page] on with
    the issue numbers found so far; [None] when [fuel] pages were not
    enough. *)
Fixpoint searchLoop (fuel : nat) (query : string) (page : Z) (issueNumbers : list Z)
    : M (option (list Z)) :=
  match fuel with
  | O => mret None
  | S fuel' =>
      r ← GetRequest rt "https://api.github.com/search/issues"
            (Some (searchParams query page));
      match r with
      | Err _ => mret (Some issueNumbers)
      | Ok dataAny =>
          match asMap dataAny with
          | None => mret (Some issueNumbers)
          | Some data =>
              match asSlice (index data "items") with
              | None => mret (Some issueNumbers)
              | Some [] => mret (Some issueNumbers)
              | Some items =>
                  match fold_left searchItemStep items (Some issueNumbers) with
                  | None =>
                      panic "interface conversion: item is not map[string]interface {}"
                  | Some issueNumbers =>
                      if (length items <? 100)%nat then mret (Some issueNumbers)
                      else searchLoop fuel' query (int_add page 1) issueNumbers
                  end
              end
          end
      end
  end.

(** [GetOldOpenIssueNumbers]: the issue numbers and the [error], which is
    always nil. *)
Definition GetOldOpenIssueNumbers (fuel : nat) (owner repo : string)
    (daysOld : option float) : M (option (list Z * option error)) :=
  let days :=
    match daysOld with
    | Some d => d
    | None => (STALE_HOURS_THRESHOLD cfg / 24)%float
    end in
  now ← time_Now;
  let cutoff :=
    time_Format
      (now + int_mul (int_wrap (- int64_of_float (days * 24)%float)) Hour) in
  let query :=
    "repo:" +:+ owner +:+ "/" +:+ repo +:+ " is:issue state:open created:<" +:+ cutoff in
  r ← searchLoop fuel query 1 [];
  match r with
  | Some issueNumbers => mret (Some (issueNumbers, None))
  | None => mret None
  end.
End search.

(** The issue number an item of a search page stands for: none for a pull
    request, for an item without a numeric [number], and for an item that is
    not an object. *)
Definition itemIssue (item : any) : list Z :=
  match asMap item with
  | Some m =>
      match m !! "pull_request" with
      | Some _ => []
      | None =>
          match index m "number" with
          | Float64 n => [int64_of_float n]
          | _ => []
          end
      end
  | None => []
  end.

(** The items of a page as the loop sees them: of an answer that decodes to
    an object with a non-empty list under [items]. *)
Definition pageItems (r : Result any) : list any :=
  match r with
  | Ok (Map data) => default [] (asSlice (index data "items"))
  | _ => []
  end.

(** A page after which the search goes on: a hundred items or more, all of
    them objects. *)
Definition fullPage (r : Result any) : Prop :=
  (100 <= length (pageItems r))%nat /\ Forall (fun item => is_Some (asMap item)) (pageItems r).

(** A page that ends the search: fewer than a hundred items, all of them
    objects (none at all for a failed request and for an answer of another
    shape). *)
Definition lastPage (r : Result any) : Prop :=
  (length (pageItems r) < 100)%nat /\ Forall (fun item => is_Some (asMap item)) (pageItems r).

(** The search query for the issues created more than [days] days before
    [now]. *)
Definition searchQuery (cfg : Config) (time_Format : time_Time -> string)
    (owner repo : string) (daysOld : option float) (now : time_Time) : string :=
  let days :=
    match daysOld with
    | Some d => d
    | None => (STALE_HOURS_THRESHOLD cfg / 24)%float
    end in
  "repo:" +:+ owner +:+ "/" +:+ repo +:+ " is:issue state:open created:<"
  +:+ time_Format (now + int_mul (int_wrap (- int64_of_float (days * 24)%float)) Hour).

(** What the [i]-th request from the state [w] on is answered, decoded. *)
Definition pageAnswer (w : World) (i : nat) : Result any :=
  decoded (network w (length (requests w) + i)).

(** The state after [n] pages, from [page] on, were requested and each was
    answered at once; [reqOf page] is the request for a page. *)
Fixpoint afterPages (reqOf : Z -> Request) (w : World) (page : Z) (n : nat) : World :=
  match n with
  | O => w
  | S n' => afterPages reqOf (afterCall w (reqOf page) 0) (page + 1) n'
  end.

(* ===================================================================== *)
(** ** package strconv: [strconv.Atoi] *)
(* ===================================================================== *)

(** The value of a decimal digit. *)
Definition digitOf (c : ascii) : option Z :=
  let n := Z.of_N (N_of_ascii c) in
  if (48 <=? n) && (n <=? 57) then Some (n - 48) else None.

(** The digits of [s] read from the left onto [acc]; [None] at a character
    that is no digit. *)
Fixpoint atoiDigits (s : string) (acc : Z) : option Z :=
  match s with
  | EmptyString => Some acc
  | String c s' =>
      match digitOf c with
      | Some d => atoiDigits s' (acc * 10 + d)
      | None => None
      end
  end.

(** [strconv.Atoi(s)]: an optional sign and at least one decimal digit, the
    value within the range of [int]; otherwise the error [invalid syntax] or
    [value out of range]. *)
Definition strconv_Atoi (s : string) : Result Z :=
  let '(negative, digits) :=
    match s with
    | String c rest =>
        if Ascii.eqb c "-" then (true, rest)
        else if Ascii.eqb c "+" then (false, rest)
        else (false, s)
    | EmptyString => (false, s)
    end in
  match digits with
  | EmptyString => Err "invalid syntax"
  | _ =>
      match atoiDigits digits 0 with
      | None => Err "invalid syntax"
      | Some n =>
          let v := if negative then - n else n in
          if (minInt <=? v) && (v <=? maxInt) then Ok v else Err "value out of range"
      end
  end.

(* ===================================================================== *)
(** ** config.go: [InitConfig] and its helpers *)
(* ===================================================================== *)

Section config.
(** The environment of the process, and [strconv.ParseFloat(v, 64)]. *)
Variable env : gmap string string.
Variable strconv_ParseFloat : string -> Result float.

(** [os.Getenv(key)]: empty for a variable that is not set. *)
Definition os_Getenv (key : string) : string := default "" (env !! key).

(** [getEnv], on [os.LookupEnv]. *)
Definition getEnv (key fallback : string) : string :=
  match env !! key with
  | Some v => v
  | None => fallback
  end.

(** [getEnvInt] *)
Definition getEnvInt (key : string) (fallback : Z) : Z :=
  let v := os_Getenv key in
  if String.eqb v "" then fallback
  else
    match strconv_Atoi v with
    | Ok i => i
    | Err _ => fallback
    end.

(** [getEnvFloat] *)
Definition getEnvFloat (key : string) (fallback : float) : float :=
  let v := os_Getenv key in
  if String.eqb v "" then fallback
  else
    match strconv_ParseFloat v with
    | Ok f => f
    | Err _ => fallback
    end.

(** [InitConfig]: the token and the settings; [None] when [log.Fatal] ends
    the program.  [GitHubBaseURL] keeps the value of its declaration. *)
Definition InitConfig : option (string * Config) :=
  let GitHubToken := os_Getenv "GITHUB_TOKEN" in
  if String.eqb GitHubToken "" then None
  else
    Some (GitHubToken,
          mkConfig "https://api.github.com"
            (getEnv "OWNER" "indurireddy-TF")
            (getEnv "REPO" "stale-bot")
            (getEnvFloat "STALE_HOURS_THRESHOLD" 168)
            (getEnvFloat "CLOSE_HOURS_AFTER_STALE_THRESHOLD" 168)
            (getEnvInt "CONCURRENCY_LIMIT" 3)
            (getEnvInt "GRAPHQL_COMMENT_LIMIT" 30)
            (getEnvInt "GRAPHQL_EDIT_LIMIT" 10)
            (getEnvInt "GRAPHQL_TIMELINE_LIMIT" 20)
            (getEnvFloat "SLEEP_BETWEEN_CHUNKS" 1.5)).
End config.

(** The settings when only the token is set. *)
Definition defaultConfig : Config :=
  mkConfig "https://api.github.com" "indurireddy-TF" "stale-bot" 168 168 3 30 10 20 1.5.

(** The variables [InitConfig] reads besides the token. *)
Definition settingVariables : list string :=
  ["OWNER"; "REPO"; "STALE_HOURS_THRESHOLD"; "CLOSE_HOURS_AFTER_STALE_THRESHOLD";
   "CONCURRENCY_LIMIT"; "GRAPHQL_COMMENT_LIMIT"; "GRAPHQL_EDIT_LIMIT";
   "GRAPHQL_TIMELINE_LIMIT"; "SLEEP_BETWEEN_CHUNKS"].
(* ===================================================================== *)
(** ** main.go: the batch loop with its chunk number *)
(* ===================================================================== *)

Section main_numbered.
Variable cfg : Config.
Variable processChunk : list Z -> M (list processSingleResult).

(** [currentChunkNum := (i / ConcurrencyLimit) + 1], the number in the two
    log lines of a round; the division panics when the limit is 0. *)
Definition currentChunkNum (i : Z) : option Z :=
  if ConcurrencyLimit cfg =? 0 then None
  else Some (int_add (int_wrap (Z.quot i (ConcurrencyLimit cfg))) 1).

(** The loop of [main] statement by statement: [main_loop] and, between the
    slice expression and the work on the chunk, the chunk number. *)
Fixpoint main_loop_numbered (fuel : nat) (allIssues : list Z) (i : Z) (acc : Totals)
    : M (option Totals) :=
  let totalCount := Z.of_nat (length allIssues) in
  if i <? totalCount then
    match fuel with
    | O => mret None
    | S fuel' =>
        let end_ := int_add i (ConcurrencyLimit cfg) in
        let end_ := if totalCount <? end_ then totalCount else end_ in
        if (0 <=? i) && (i <=? end_) && (end_ <=? totalCount) then
          let chunk := take (Z.to_nat (end_ - i)) (drop (Z.to_nat i) allIssues) in
          match currentChunkNum i with
          | None => panic "integer divide by zero"
          | Some _ =>
              results ← processChunk chunk;
              let acc := accumulate acc chunk results in
              (if end_ <? totalCount then time_Sleep (pacingInterval cfg) else mret tt);;
              main_loop_numbered fuel' allIssues (int_add i (ConcurrencyLimit cfg)) acc
          end
        else panic "slice bounds out of range"
    end
  else mret (Some acc).

Definition main_batches_numbered (allIssues : list Z) : M (option Totals) :=
  main_loop_numbered (length allIssues) allIssues 0 (mkTotals 0 0 0).
End main_numbered.

(* ===================================================================== *)
(** ** Library functions and inputs for the further examples *)
(* ===================================================================== *)

(** [math.Mod(x, y)] computed exactly on the binary expansions: the
    remainder has the sign of [x]; NaN for a NaN operand, an infinite [x] or
    a zero [y]; [x] for an infinite [y]. *)
Definition sampleMod (x y : float) : float :=
  match FloatOps.Prim2SF x, FloatOps.Prim2SF y with
  | SpecFloat.S754_nan, _ | _, SpecFloat.S754_nan => PrimFloat.nan
  | SpecFloat.S754_infinity _, _ => PrimFloat.nan
  | _, SpecFloat.S754_zero _ => PrimFloat.nan
  | _, SpecFloat.S754_infinity _ => x
  | SpecFloat.S754_zero _, _ => x
  | SpecFloat.S754_finite sx mx ex, SpecFloat.S754_finite _ my ey =>
      let e0 := Z.min ex ey in
      let r := Z.rem (Z.pos mx * 2 ^ (ex - e0)) (Z.pos my * 2 ^ (ey - e0)) in
      FloatOps.SF2Prim
        (SpecFloat.binary_normalize FloatOps.prec FloatOps.emax
           (if sx then - r else r) e0 sx)
  end.

(** [fmt.Sprintf("%.1f", x)]: one decimal, the exact value rounded to the
    nearest, ties to even. *)
Definition sampleF1 (x : float) : string :=
  match FloatOps.Prim2SF x with
  | SpecFloat.S754_nan => "NaN"
  | SpecFloat.S754_infinity s => if s then "-Inf" else "+Inf"
  | SpecFloat.S754_zero s => if s then "-0.0" else "0.0"
  | SpecFloat.S754_finite s m e =>
      let tenths :=
        if 0 <=? e then Z.pos m * 10 * 2 ^ e
        else
          let d := 2 ^ (- e) in
          let q := (Z.pos m * 10) / d in
          let r := (Z.pos m * 10) mod d in
          if d <? 2 * r then q + 1
          else if 2 * r <? d then q
          else q + q mod 2 in
      (if s then "-" else "") +:+ pretty (tenths / 10) +:+ "." +:+ pretty (tenths mod 10)
  end.

(** The civil date of a day count since 1970-01-01. *)
Definition civilFromDays (z : Z) : Z * Z * Z :=
  let z := z + 719468 in
  let era := z / 146097 in
  let doe := z - era * 146097 in
  let yoe := (doe - doe / 1460 + doe / 36524 - doe / 146096) / 365 in
  let doy := doe - (365 * yoe + yoe / 4 - yoe / 100) in
  let mp := (5 * doy + 2) / 153 in
  let d := doy - (153 * mp + 2) / 5 + 1 in
  let m := if mp <? 10 then mp + 3 else mp - 9 in
  (yoe + era * 400 + (if m <=? 2 then 1 else 0), m, d).

Definition pad2 (n : Z) : string := (if n <? 10 then "0" else "") +:+ pretty n.
Definition pad4 (n : Z) : string :=
  (if n <? 10 then "000" else if n <? 100 then "00" else if n <? 1000 then "0" else "")
  +:+ pretty n.

(** [t.Format("2006-01-02T15:04:05Z")] for the years 0 to 9999. *)
Definition sampleFormat (t : time_Time) : string :=
  let secs := t / Second in
  let '(y, m, d) := civilFromDays (secs / 86400) in
  let s := secs mod 86400 in
  pad4 y +:+ "-" +:+ pad2 m +:+ "-" +:+ pad2 d +:+ "T"
  +:+ pad2 (s / 3600) +:+ ":" +:+ pad2 (s mod 3600 / 60) +:+ ":" +:+ pad2 (s mod 60) +:+ "Z".


Definition sampleCollaboratorsGet : Request :=
  mkRequest "GET"
    (url_SetQuery sampleRuntime (collaboratorsURL sampleConfig)
       (fmt_v sampleRuntime <$> collaboratorsParams)) None.
Definition sampleGraphQLPost : Request :=
  mkRequest "POST" (GitHubBaseURL sampleConfig +:+ "/graphql")
    (Some (graphQLPayload sampleConfig 7)).

(** A search answered in two pages: a hundred issues, then two issues and a
    pull request. *)
Definition issueItem (n : Z) : any :=
  object [("number", Float64 (float64_of_Z n)); ("title", Str "An issue")].
Definition pullRequestItem (n : Z) : any :=
  object [("number", Float64 (float64_of_Z n)); ("pull_request", object [])].

Definition searchPage (items : list any) : Response :=
  mkResponse 200 (Ok (object [("total_count", Float64 103); ("items", Slice items)])).

Definition searchWorld : World :=
  mkWorld 0 None
    (fun k =>
       match k with
       | O => Ok (searchPage ((fun i => issueItem (Z.of_nat i)) <$> seq 1 100))
       | S O => Ok (searchPage [issueItem 101; pullRequestItem 102; issueItem 103])
       | _ => Err "connection refused"
       end)
    [] [] (default zeroTime (parseRFC3339 "2024-03-11T00:00:00Z")).

Definition sampleSearchQuery : string :=
  searchQuery sampleConfig sampleFormat "indurireddy-TF" "stale-bot" None (clock searchWorld).

Definition sampleSearchGet (page : Z) : Request :=
  mkRequest "GET"
    (url_SetQuery sampleRuntime "https://api.github.com/search/issues"
       (fmt_v sampleRuntime <$> searchParams sampleSearchQuery page)) None.

(** A search whose second page holds a [null] item. *)
Definition brokenSearchWorld : World :=
  mkWorld 0 None
    (fun k =>
       match k with
       | O => Ok (searchPage ((fun i => issueItem (Z.of_nat i)) <$> seq 1 100))
       | _ => Ok (searchPage [issueItem 101; Nil])
       end)
    [] [] (default zeroTime (parseRFC3339 "2024-03-11T00:00:00Z")).

(** A configuration whose concurrency limit is 0. *)
Definition zeroLimitConfig : Config :=
  mkConfig "https://api.github.com" "indurireddy-TF" "stale-bot"
    168 168 0 30 10 20 1.5.

(** The fields of [sampleAlert]. *)
Definition sampleAlertFields : gmap string any :=
  list_to_map
    [("author", user "adk-bot");
     ("body", Str "**Notification:** The author has updated the issue description. Maintainers, please review.");
     ("createdAt", Str "2024-03-02T00:00:00Z")].

(** An issue of carol that carries the stale label and that nothing has
    happened to, and a process that fetches it. *)
Definition freshIssueData : gmap string any :=
  list_to_map
    [("author", user "carol");
     ("createdAt", Str "2024-01-01T00:00:00Z");
     ("labels", object [("nodes", Slice [object [("name", Str "stale")]])]);
     ("comments", object [("nodes", Slice [])]);
     ("userContentEdits", object [("nodes", Slice [])]);
     ("timelineItems", object [("nodes", Slice [])])].

Definition freshWorld : World :=
  mkWorld 0 None
    (fun k =>
       match k with
       | O => Ok sampleCollaborators
       | S O =>
           Ok (mkResponse 200
                 (Ok (object [("data", object [("repository",
                        object [("issue", Map freshIssueData)])])])))
       | _ => Err "connection refused"
       end)
    [] [] (default zeroTime (parseRFC3339 "2024-03-11T00:00:00Z")).

Definition freshWorldListed : World :=
  (getCachedMaintainers sampleRuntime sampleConfig freshWorld).2.
Definition freshWorldFetched : World :=
  (FetchGraphQLData sampleRuntime sampleConfig 7 freshWorldListed).2.

(** An environment with the token and a concurrency limit of 0. *)
Definition sampleEnv : gmap string string :=
  list_to_map [("GITHUB_TOKEN", "ghp_token"); ("CONCURRENCY_LIMIT", "0");
               ("GRAPHQL_EDIT_LIMIT", "ten"); ("OWNER", "")].
(* ===================================================================== *)
(** * Properties *)
(* ===================================================================== *)

(** ** [sort.Slice] permutes its argument *)

Section sort_permutes.
Context {A : Type}.
Variable less : A -> A -> bool.
Variable next : Z -> Z.
Implicit Types data : list A.

Lemma insert_head_perm data (j : nat) (x y : A) :
  data !! j = Some y -> y :: <[j := x]> data ≡ₚ x :: data.
Proof.
  revert j. induction data as [|z data IH]; intros [|j] Hj; simplify_eq/=.
  - apply perm_swap.
  - rewrite perm_swap. rewrite (IH j Hj). apply perm_swap.
Qed.

Lemma Swap_perm data (i j : nat) : Swap data i j ≡ₚ data.
Proof.
  unfold Swap.
  destruct (data !! i) as [x|] eqn:Hi; [|done].
  destruct (data !! j) as [y|] eqn:Hj; [|done].
  revert i j Hi Hj.
  induction data as [|z data IH]; intros [|i] [|j] Hi Hj; simplify_eq/=.
  - done.
  - by apply insert_head_perm.
  - by apply insert_head_perm.
  - f_equiv. by apply IH.
Qed.

Lemma Swap_length data (i j : nat) : length (Swap data i j) = length data.
Proof. apply Permutation_length, Swap_perm. Qed.

Local Ltac perm_step IH :=
  repeat first
    [ reflexivity
    | rewrite IH
    | rewrite Swap_perm
    | match goal with |- context [if ?c then _ else _] => destruct c end
    | match goal with |- context [let '(_, _) := ?p in _] => destruct p eqn:? end ].

Lemma insertionSort_inner_perm data (a j : nat) :
  insertionSort_inner less data a j ≡ₚ data.
Proof. revert data. induction j as [|j IH]; intros data; simpl; perm_step IH. Qed.

Lemma insertionSort_outer_perm data (a i n : nat) :
  insertionSort_outer less data a i n ≡ₚ data.
Proof.
  revert data i. induction n as [|n IH]; intros data i; simpl; [done|].
  rewrite IH. apply insertionSort_inner_perm.
Qed.

Lemma insertionSort_func_perm data (a b : nat) :
  insertionSort_func less data a b ≡ₚ data.
Proof. apply insertionSort_outer_perm. Qed.

Lemma siftDown_loop_perm (fuel : nat) data (root hi first : nat) :
  siftDown_loop less fuel data root hi first ≡ₚ data.
Proof.
  revert data root. induction fuel as [|fuel IH]; intros data root; simpl; perm_step IH.
Qed.

Lemma heapSort_build_perm data (i hi first : nat) :
  heapSort_build less data i hi first ≡ₚ data.
Proof.
  revert data. induction i as [|i IH]; intros data; simpl;
    [|rewrite IH]; apply siftDown_loop_perm.
Qed.

Lemma heapSort_pop_perm data (i first : nat) :
  heapSort_pop less data i first ≡ₚ data.
Proof.
  revert data. induction i as [|i IH]; intros data; simpl; [|rewrite IH];
    unfold siftDown_func; rewrite siftDown_loop_perm; apply Swap_perm.
Qed.

Lemma heapSort_func_perm data (a b : nat) : heapSort_func less data a b ≡ₚ data.
Proof.
  unfold heapSort_func. destruct (_ =? _)%nat; [done|].
  rewrite heapSort_pop_perm. apply heapSort_build_perm.
Qed.

Lemma breakPatterns_loop_perm (n : nat) data random (a len modulus idx i : nat) :
  breakPatterns_loop next n data random a len modulus idx i ≡ₚ data.
Proof.
  revert data random i. induction n as [|n IH]; intros data random i; simpl; perm_step IH.
Qed.

Lemma breakPatterns_func_perm data (a b : nat) :
  breakPatterns_func next data a b ≡ₚ data.
Proof.
  unfold breakPatterns_func. destruct (_ <=? _)%nat; [|done].
  apply breakPatterns_loop_perm.
Qed.

Lemma reverseRange_loop_perm (fuel : nat) data (i j : nat) :
  reverseRange_loop fuel data i j ≡ₚ data.
Proof.
  revert data i j. induction fuel as [|fuel IH]; intros data i j; simpl; perm_step IH.
Qed.

Lemma shiftLeft_perm data (j : nat) : shiftLeft less data j ≡ₚ data.
Proof. revert data. induction j as [|j IH]; intros data; simpl; perm_step IH. Qed.

Lemma shiftRight_perm (fuel : nat) data (j : nat) : shiftRight less fuel data j ≡ₚ data.
Proof.
  revert data j. induction fuel as [|fuel IH]; intros data j; simpl; perm_step IH.
Qed.

Lemma partialInsertionSort_loop_perm (steps : nat) data (a b i : nat) :
  (partialInsertionSort_loop less steps data a b i).1 ≡ₚ data.
Proof.
  revert data i. induction steps as [|steps IH]; intros data i; simpl; [done|].
  repeat match goal with |- context [if ?c then _ else _] => destruct c end;
    simpl; try done; rewrite IH;
    rewrite ?shiftRight_perm, ?shiftLeft_perm; apply Swap_perm.
Qed.

Lemma partition_loop_perm (fuel : nat) data (i j a : nat) :
  (partition_loop less fuel data i j a).1 ≡ₚ data.
Proof.
  revert data i j. induction fuel as [|fuel IH]; intros data i j; simpl; [done|].
  destruct (_ <? _)%nat; simpl; [done|]. rewrite IH. apply Swap_perm.
Qed.

Lemma partition_func_perm data (a b pivot : nat) :
  (partition_func less data a b pivot).1.1 ≡ₚ data.
Proof.
  unfold partition_func. destruct (_ <? _)%nat; simpl.
  - by rewrite !Swap_perm.
  - destruct (partition_loop _ _ _ _ _ _) as [d j] eqn:E. simpl.
    rewrite Swap_perm.
    change d with (d, j).1. rewrite <- E, partition_loop_perm.
    by rewrite !Swap_perm.
Qed.

Lemma partitionEqual_loop_perm (fuel : nat) data (i j a : nat) :
  (partitionEqual_loop less fuel data i j a).1 ≡ₚ data.
Proof.
  revert data i j. induction fuel as [|fuel IH]; intros data i j; simpl; [done|].
  destruct (_ <? _)%nat; simpl; [done|]. rewrite IH. apply Swap_perm.
Qed.

Lemma partitionEqual_func_perm data (a b pivot : nat) :
  (partitionEqual_func less data a b pivot).1 ≡ₚ data.
Proof.
  unfold partitionEqual_func. rewrite partitionEqual_loop_perm. apply Swap_perm.
Qed.

Lemma pdqsort_loop_perm (fuel : nat) data (a b limit : nat) (wb wp : bool) :
  pdqsort_loop less next fuel data a b limit wb wp ≡ₚ data.
Proof.
  revert data a b limit wb wp.
  induction fuel as [|fuel IH]; intros data a b limit wb wp; simpl; [done|].
  destruct (_ <=? _)%nat; [apply insertionSort_func_perm|].
  destruct (_ =? _)%nat; [apply heapSort_func_perm|].
  set (d1 := if negb wb then _ else _).
  assert (H1 : d1.1 ≡ₚ data).
  { subst d1. destruct (negb wb); simpl; [apply breakPatterns_func_perm|done]. }
  destruct d1 as [data1 limit1]. simpl in H1.
  destruct (choosePivot_func less data1 a b) as [pivot hint].
  set (d2 := if isDecreasing hint then _ else _).
  assert (H2 : d2.1.1 ≡ₚ data).
  { subst d2. destruct (isDecreasing hint); simpl; [|done].
    unfold reverseRange_func. by rewrite reverseRange_loop_perm. }
  destruct d2 as [[data2 pivot2] hint2]. simpl in H2.
  set (d3 := if _ && _ && _ then _ else _).
  assert (H3 : d3.1 ≡ₚ data).
  { subst d3. destruct (_ && _ && _); simpl; [|done].
    unfold partialInsertionSort_func. by rewrite partialInsertionSort_loop_perm. }
  destruct d3 as [data3 sorted]. simpl in H3.
  destruct sorted; [done|].
  destruct (_ && _).
  - pose proof (partitionEqual_func_perm data3 a b pivot2) as H4.
    destruct (partitionEqual_func less data3 a b pivot2) as [data4 mid]. simpl in H4.
    by rewrite IH, H4.
  - pose proof (partition_func_perm data3 a b pivot2) as H4.
    destruct (partition_func less data3 a b pivot2) as [[data4 mid] already].
    simpl in H4.
    destruct (_ <? _)%nat; by rewrite !IH, H4.
Qed.

Lemma sort_Slice_perm (x : list A) : sort_Slice less next x ≡ₚ x.
Proof. apply pdqsort_loop_perm. Qed.

Lemma sort_Slice_length (x : list A) : length (sort_Slice less next x) = length x.
Proof. apply Permutation_length, sort_Slice_perm. Qed.
End sort_permutes.

(** ** [sort.Slice] sorts *)

Section sort_sorts.
Local Open Scope nat_scope.
Context {A : Type}.
Variable key : A -> Z.
Variable next : Z -> Z.
Implicit Types data : list A.

Local Abbreviation less := (lessBy key).
Local Abbreviation K := (keyAt key).

Lemma Less_keyAt data (i j : nat) :
  i < length data -> j < length data ->
  Less less data i j = (K data i <? K data j)%Z.
Proof.
  intros Hi Hj. unfold Less, keyAt, lessBy.
  destruct (lookup_lt_is_Some_2 data i Hi) as [x ->].
  destruct (lookup_lt_is_Some_2 data j Hj) as [y ->]. done.
Qed.

Lemma Swap_lookup data (i j k : nat) :
  i < length data -> j < length data ->
  Swap data i j !! k
  = if decide (k = i) then data !! j else if decide (k = j) then data !! i else data !! k.
Proof.
  intros Hi Hj. unfold Swap.
  destruct (lookup_lt_is_Some_2 data i Hi) as [x Hx].
  destruct (lookup_lt_is_Some_2 data j Hj) as [y Hy]. rewrite Hx, Hy.
  destruct (decide (k = i)) as [->|Hki].
  - by rewrite list_lookup_insert_eq by (rewrite length_insert; lia).
  - rewrite list_lookup_insert_ne by done.
    destruct (decide (k = j)) as [->|Hkj].
    + by rewrite list_lookup_insert_eq by lia.
    + by rewrite list_lookup_insert_ne by done.
Qed.

Lemma keyAt_Swap data (i j k : nat) :
  i < length data -> j < length data ->
  K (Swap data i j) k
  = if decide (k = i) then K data j else if decide (k = j) then K data i else K data k.
Proof.
  intros Hi Hj. unfold keyAt. rewrite Swap_lookup by done.
  by repeat case_decide.
Qed.

Lemma Swap_outside data (i j : nat) :
  length data <= i \/ length data <= j -> Swap data i j = data.
Proof.
  intros H. unfold Swap.
  destruct (data !! i) eqn:Hi; [|done]. destruct (data !! j) eqn:Hj; [|done].
  apply lookup_lt_Some in Hi, Hj. lia.
Qed.

(** *** Shuffles *)

Lemma shuffle_one (a b : nat) data (i j : nat) :
  a <= i < b -> a <= j < b -> shuffle a b data (Swap data i j).
Proof.
  intros [? ?] [? ?]. apply (shuffle_swap a b data i j); [done..|apply shuffle_refl].
Qed.

Lemma shuffle_trans (a b : nat) data1 data2 data3 :
  shuffle a b data1 data2 -> shuffle a b data2 data3 -> shuffle a b data1 data3.
Proof.
  induction 1 as [|d i j d' ? ? ? ? _ IH]; [done|].
  intros H23. apply (shuffle_swap a b d i j); [done..|]. by apply IH.
Qed.

Lemma shuffle_mono (a b a' b' : nat) data data' :
  a' <= a -> b <= b' -> shuffle a b data data' -> shuffle a' b' data data'.
Proof.
  intros Ha Hb. induction 1 as [|d i j d' ? ? ? ? _ IH]; [apply shuffle_refl|].
  apply (shuffle_swap a' b' d i j); [lia..|done].
Qed.

Lemma shuffle_perm (a b : nat) data data' : shuffle a b data data' -> data' ≡ₚ data.
Proof.
  induction 1 as [|d i j d' ? ? ? ? _ IH]; [done|].
  by rewrite IH, Swap_perm.
Qed.

Lemma shuffle_length (a b : nat) data data' :
  shuffle a b data data' -> length data' = length data.
Proof. intros H. apply Permutation_length, (shuffle_perm _ _ _ _ H). Qed.

Lemma shuffle_outside (a b : nat) data data' (k : nat) :
  shuffle a b data data' -> k < a \/ b <= k -> data' !! k = data !! k.
Proof.
  induction 1 as [|d i j d' ? ? ? ? _ IH]; [done|]. intros Hk.
  rewrite IH by done.
  destruct (decide (i < length d /\ j < length d)) as [[? ?]|?].
  - rewrite Swap_lookup by done. repeat case_decide; try done; lia.
  - by rewrite Swap_outside by lia.
Qed.

Lemma keyAt_outside (a b : nat) data data' (k : nat) :
  shuffle a b data data' -> k < a \/ b <= k -> K data' k = K data k.
Proof. intros H Hk. unfold keyAt. by rewrite (shuffle_outside _ _ _ _ _ H Hk). Qed.

Lemma shuffle_allOn (P : Z -> Prop) (a b lo hi : nat) data data' :
  shuffle a b data data' -> lo <= a -> b <= hi ->
  allOn key P lo hi data -> allOn key P lo hi data'.
Proof.
  intros H Hlo Hhi. induction H as [|d i j d' ? ? ? ? _ IH]; [done|].
  intros Hall. apply IH. intros k Hk1 Hk2.
  destruct (decide (i < length d /\ j < length d)) as [[? ?]|?].
  - rewrite keyAt_Swap by done. repeat case_decide; apply Hall; lia.
  - rewrite Swap_outside by lia. by apply Hall.
Qed.

Lemma shuffle_lowerBound (a b a' b' : nat) data data' :
  shuffle a' b' data data' -> a <= a' -> b' <= b ->
  lowerBound key a b data -> lowerBound key a b data'.
Proof.
  intros H Ha Hb Hlow Hpos.
  rewrite (keyAt_outside _ _ _ _ _ H) by lia.
  eapply shuffle_allOn; [done|lia|done|]. by apply Hlow.
Qed.

Lemma sortedOn_outside (a b lo hi : nat) data data' :
  shuffle lo hi data data' -> (hi <= a \/ b <= lo) ->
  sortedOn key a b data -> sortedOn key a b data'.
Proof.
  intros H Hdisj Hs i j Hi Hij Hj.
  rewrite !(keyAt_outside _ _ _ _ _ H) by lia. by apply Hs.
Qed.

Lemma allOn_outside (P : Z -> Prop) (a b lo hi : nat) data data' :
  shuffle lo hi data data' -> (hi <= a \/ b <= lo) ->
  allOn key P a b data -> allOn key P a b data'.
Proof.
  intros H Hdisj Hall k Hk1 Hk2.
  rewrite (keyAt_outside _ _ _ _ _ H) by lia. by apply Hall.
Qed.

Lemma sortedOn_adjacent (a b : nat) data :
  (forall k, a < k -> k < b -> (K data (k - 1) <= K data k)%Z) -> sortedOn key a b data.
Proof.
  intros Hadj i j Hi Hij Hj. induction Hij as [|j Hij IH]; [lia|].
  etrans; [apply IH; lia|]. specialize (Hadj (S j) ltac:(lia) ltac:(lia)).
  by replace (S j - 1) with j in Hadj by lia.
Qed.
End sort_sorts.

(** *** Insertion sort *)

Section insertion_sort.
Local Open Scope nat_scope.
Context {A : Type}.
Variable key : A -> Z.
Implicit Types data : list A.

Local Abbreviation less := (lessBy key).
Local Abbreviation K := (keyAt key).

Lemma sortedBut_sorted (a j hi : nat) data :
  sortedBut key a j hi data ->
  (j <= a \/ (K data (j - 1) <= K data j)%Z) ->
  sortedOn key a hi data.
Proof.
  intros [H1 H2] Hj i k Hi Hik Hk.
  destruct (decide (i = j)) as [->|Hij].
  { destruct (decide (k = j)) as [->|?]; [lia|]. apply H2; lia. }
  destruct (decide (k = j)) as [->|Hkj]; [|by apply H1].
  destruct Hj as [?|Hj]; [lia|].
  etrans; [|exact Hj]. apply H1; lia.
Qed.

Lemma Swap_adjacent data (j : nat) (x y : A) :
  data !! j = Some y -> data !! S j = Some x ->
  Swap data (S j) j = take j data ++ x :: y :: drop (S (S j)) data.
Proof.
  intros Hy Hx. unfold Swap. rewrite Hx, Hy.
  revert j Hy Hx. induction data as [|z data IH]; intros [|j] Hy Hx; simplify_eq/=.
  - destruct data; by simplify_eq/=.
  - f_equal. by apply IH.
Qed.

Lemma withKey_Swap_adjacent data (j : nat) (t : Z) :
  S j < length data -> K data (S j) <> K data j ->
  withKey key t (Swap data (S j) j) = withKey key t data.
Proof.
  intros Hj Hne.
  destruct (lookup_lt_is_Some_2 data j ltac:(lia)) as [y Hy].
  destruct (lookup_lt_is_Some_2 data (S j) Hj) as [x Hx].
  unfold keyAt in Hne. rewrite Hx, Hy in Hne. simpl in Hne.
  rewrite (Swap_adjacent _ _ _ _ Hy Hx).
  rewrite <- (take_drop j data) at 3.
  rewrite (drop_S _ _ _ Hy), (drop_S _ _ _ Hx).
  unfold withKey. rewrite !filter_app, !filter_cons.
  repeat case_decide; try done; congruence.
Qed.

Lemma insertionSort_inner_spec (a j hi : nat) data :
  a <= j -> j < hi -> hi <= length data ->
  sortedBut key a j hi data ->
  sortedOn key a hi (insertionSort_inner less data a j) /\
  shuffle a hi data (insertionSort_inner less data a j) /\
  (forall t, withKey key t (insertionSort_inner less data a j) = withKey key t data).
Proof.
  revert data. induction j as [|j IH]; intros data Ha Hj Hhi Hinv.
  { simpl. split_and!; [|apply shuffle_refl|done].
    apply (sortedBut_sorted a 0 hi); [done|lia]. }
  simpl. destruct (Nat.ltb_spec a (S j)) as [Haj|Haj]; simpl; cycle 1.
  { split_and!; [|apply shuffle_refl|done].
    apply (sortedBut_sorted a (S j) hi); [done|lia]. }
  rewrite Less_keyAt by lia.
  destruct (Z.ltb_spec (K data (S j)) (K data j)) as [Hlt|Hge]; cycle 1.
  { split_and!; [|apply shuffle_refl|done].
    apply (sortedBut_sorted a (S j) hi); [done|].
    right. by replace (S j - 1) with j by lia. }
  destruct Hinv as [H1 H2].
  destruct (IH (Swap data (S j) j)) as (Hs & Hsh & Hst).
  - lia.
  - lia.
  - by rewrite Swap_length.
  - split.
    + intros i k Hi Hik Hk Hij Hkj.
      rewrite !keyAt_Swap by lia.
      repeat case_decide; subst; try lia; try (apply H1; lia).
    + intros k Hk1 Hk2. rewrite !keyAt_Swap by lia.
      repeat case_decide; subst; try lia. apply H2; lia.
  - split_and!; [done| |].
    + apply (shuffle_swap a hi data (S j) j); [lia..|done].
    + intros t. rewrite Hst. apply withKey_Swap_adjacent; lia.
Qed.

Lemma insertionSort_outer_spec (a i n : nat) data :
  a <= i -> i + n <= length data ->
  sortedOn key a i data ->
  sortedOn key a (i + n) (insertionSort_outer less data a i n) /\
  shuffle a (i + n) data (insertionSort_outer less data a i n) /\
  (forall t, withKey key t (insertionSort_outer less data a i n) = withKey key t data).
Proof.
  revert data i. induction n as [|n IH]; intros data i Ha Hn Hs.
  { simpl. rewrite Nat.add_0_r. split_and!; [done|apply shuffle_refl|done]. }
  simpl.
  destruct (insertionSort_inner_spec a i (S i) data) as (Hs1 & Hsh1 & Hst1); [lia..| |].
  { split; [|intros; lia]. intros j k ? ? ? ? ?. apply Hs; lia. }
  pose proof (shuffle_length _ _ _ _ Hsh1) as Hlen.
  destruct (IH (insertionSort_inner less data a i) (S i)) as (Hs2 & Hsh2 & Hst2);
    [lia|lia|done|].
  replace (i + S n) with (S i + n) by lia.
  split_and!; [done| |].
  - eapply shuffle_trans; [|done]. eapply shuffle_mono; [| |done]; lia.
  - intros t. by rewrite Hst2, Hst1.
Qed.

(** [insertionSort_func] sorts [data[a:b]], stably. *)
Lemma insertionSort_func_spec (a b : nat) data :
  b <= length data ->
  sortedOn key a b (insertionSort_func less data a b) /\
  shuffle a b data (insertionSort_func less data a b) /\
  (forall t, withKey key t (insertionSort_func less data a b) = withKey key t data).
Proof.
  intros Hb. unfold insertionSort_func.
  destruct (decide (a + 1 <= b)) as [Hab|Hab].
  - destruct (insertionSort_outer_spec a (a + 1) (b - (a + 1)) data) as (Hs & Hsh & Hst).
    + lia.
    + lia.
    + intros i j ? ? ?. assert (i = j) as -> by lia. lia.
    + replace (a + 1 + (b - (a + 1))) with b in * by lia. done.
  - replace (b - (a + 1)) with 0 by lia. simpl.
    split_and!; [|apply shuffle_refl|done]. intros i j ? ? ?. lia.
Qed.
End insertion_sort.

(** *** Partitioning *)

Section partition.
Local Open Scope nat_scope.
Context {A : Type}.
Variable key : A -> Z.
Implicit Types data : list A.

Local Abbreviation less := (lessBy key).
Local Abbreviation K := (keyAt key).

Lemma scanLess_spec (fuel : nat) data (i j a : nat) :
  j < length data -> a < length data -> S j - i <= fuel ->
  let i' := scanLess less fuel data i j a in
  i <= i' /\ (i <= S j -> i' <= S j) /\
  (forall k, i <= k -> k < i' -> (K data k < K data a)%Z) /\
  (i' <= j -> (K data a <= K data i')%Z).
Proof.
  revert i. induction fuel as [|fuel IH]; intros i Hj Ha Hfuel; simpl.
  { split_and!; [lia|lia|intros; lia|intros; lia]. }
  destruct (Nat.leb_spec i j) as [Hij|Hij]; simpl; cycle 1.
  { split_and!; [lia|lia|intros; lia|intros; lia]. }
  rewrite Less_keyAt by lia.
  destruct (Z.ltb_spec (K data i) (K data a)) as [Hlt|Hge]; cycle 1.
  { split_and!; [lia|lia|intros; lia|done]. }
  destruct (IH (S i) Hj Ha ltac:(lia)) as (H1 & H2 & H3 & H4).
  split_and!; [lia|intros; apply H2; lia| |done].
  intros k Hk1 Hk2. destruct (decide (k = i)) as [->|?]; [done|]. apply H3; lia.
Qed.

Lemma scanNotLess_spec data (i j a : nat) :
  j < length data -> a < length data -> 1 <= i ->
  let j' := scanNotLess less data i j a in
  j' <= j /\ (i <= S j -> i <= S j') /\
  (forall k, j' < k -> k <= j -> (K data a <= K data k)%Z) /\
  (i <= j' -> (K data j' < K data a)%Z).
Proof.
  induction j as [|j IH]; intros Hj Ha Hi; simpl.
  { split_and!; [lia|lia|intros; lia|intros; lia]. }
  destruct (Nat.leb_spec i (S j)) as [Hij|Hij]; simpl; cycle 1.
  { split_and!; [lia|lia|intros; lia|intros; lia]. }
  rewrite Less_keyAt by lia.
  destruct (Z.ltb_spec (K data (S j)) (K data a)) as [Hlt|Hge]; simpl.
  { split_and!; [lia|lia|intros; lia|done]. }
  destruct (IH ltac:(lia) Ha Hi) as (H1 & H2 & H3 & H4).
  split_and!; [lia|intros; apply H2; lia| |done].
  intros k Hk1 Hk2. destruct (decide (k = S j)) as [->|?]; [done|]. apply H3; lia.
Qed.

Lemma partition_loop_spec (fuel : nat) data (a b i j : nat) (p : Z) :
  partitioning key a b i j p data -> S j - i <= fuel ->
  let r := partition_loop less fuel data i j a in
  shuffle (a + 1) b data r.1 /\
  a <= r.2 /\ r.2 < b /\ K r.1 a = p /\
  allOn key (fun k => k < p)%Z (a + 1) (S r.2) r.1 /\
  allOn key (fun k => p <= k)%Z (S r.2) b r.1.
Proof.
  revert data i j. induction fuel as [|fuel IH];
    intros data i j (Hi & Hij & Hj & Hb & Hp & Hlo & Hhi) Hfuel.
  { simpl. assert (i = S j) as -> by lia.
    split_and!; [apply shuffle_refl|lia|lia|done|done|done]. }
  cbn [partition_loop].
  destruct (scanLess_spec (S j - i) data i j a) as (Hi1 & Hi2 & Hi3 & Hi4); [lia..|].
  set (i1 := scanLess less (S j - i) data i j a) in *.
  destruct (scanNotLess_spec data i1 j a) as (Hj1 & Hj2 & Hj3 & Hj4); [lia..|].
  set (j1 := scanNotLess less data i1 j a) in *.
  assert (Hlo1 : allOn key (fun k => k < p)%Z (a + 1) i1 data).
  { intros k Hk1 Hk2. destruct (decide (k < i)); [by apply Hlo|].
    rewrite <- Hp. apply Hi3; lia. }
  assert (Hhi1 : allOn key (fun k => p <= k)%Z (S j1) b data).
  { intros k Hk1 Hk2. destruct (decide (j < k)); [by apply Hhi|].
    rewrite <- Hp. apply Hj3; lia. }
  destruct (Nat.ltb_spec j1 i1) as [Hlt|Hge]; simpl.
  { assert (i1 = S j1) as Heq by lia. rewrite Heq in Hlo1.
    split_and!; [apply shuffle_refl|lia|lia|done|done|done]. }
  assert (i1 < j1).
  { destruct (decide (i1 = j1)) as [Heq|?]; [|lia].
    specialize (Hi4 ltac:(lia)). specialize (Hj4 ltac:(lia)). rewrite Heq in Hi4. lia. }
  destruct (IH (Swap data i1 j1) (S i1) (j1 - 1)) as (Hsh & H1 & H2 & H3 & H4 & H5).
  - split_and!; [lia|lia|lia|by rewrite Swap_length| | |].
    + rewrite keyAt_Swap by lia. repeat case_decide; first [lia|done].
    + intros k Hk1 Hk2. rewrite keyAt_Swap by lia.
      repeat case_decide; first [lia|apply Hlo1; lia].
    + intros k Hk1 Hk2. rewrite keyAt_Swap by lia.
      repeat case_decide; first [lia|apply Hhi1; lia].
  - lia.
  - split_and!; [|done..].
    apply (shuffle_swap (a + 1) b data i1 j1); [lia..|done].
Qed.

(** [partition_func]: the elements before the new pivot position are less
    than the pivot, those after it are not. *)
Lemma partition_func_spec data (a b pivot : nat) :
  a <= pivot -> pivot < b -> b <= length data ->
  let r := partition_func less data a b pivot in
  let mid := r.1.2 in
  shuffle a b data r.1.1 /\ a <= mid /\ mid < b /\
  allOn key (fun k => k < K r.1.1 mid)%Z a mid r.1.1 /\
  allOn key (fun k => K r.1.1 mid <= k)%Z (S mid) b r.1.1.
Proof.
  intros Ha Hp Hb. unfold partition_func.
  set (d1 := Swap data a pivot).
  assert (Hlen1 : length d1 = length data) by apply Swap_length.
  assert (Hsh1 : shuffle a b data d1) by (apply shuffle_one; lia).
  set (p := K d1 a).
  destruct (scanLess_spec (S (b - 1) - (a + 1)) d1 (a + 1) (b - 1) a)
    as (Hi1 & Hi2 & Hi3 & Hi4); [lia..|].
  set (i1 := scanLess less (S (b - 1) - (a + 1)) d1 (a + 1) (b - 1) a) in *.
  destruct (scanNotLess_spec d1 i1 (b - 1) a) as (Hj1 & Hj2 & Hj3 & Hj4); [lia..|].
  set (j1 := scanNotLess less d1 i1 (b - 1) a) in *.
  (* what the final swap of the pivot into place achieves *)
  assert (Hfinal : forall d j,
            shuffle (a + 1) b d1 d -> a <= j -> j < b -> K d a = p ->
            allOn key (fun k => k < p)%Z (a + 1) (S j) d ->
            allOn key (fun k => p <= k)%Z (S j) b d ->
            shuffle a b data (Swap d j a) /\ a <= j /\ j < b /\
            allOn key (fun k => k < K (Swap d j a) j)%Z a j (Swap d j a) /\
            allOn key (fun k => K (Swap d j a) j <= k)%Z (S j) b (Swap d j a)).
  { intros d j Hsh Hj1' Hj2' Hpa Hlo Hhi.
    pose proof (shuffle_length _ _ _ _ Hsh) as Hlen.
    assert (Hmid : K (Swap d j a) j = p).
    { rewrite keyAt_Swap by lia. repeat case_decide; try done; congruence. }
    rewrite Hmid. split_and!; [|done|done| |].
    - eapply shuffle_trans; [exact Hsh1|].
      eapply shuffle_trans; [eapply shuffle_mono; [| |exact Hsh]; lia|].
      apply shuffle_one; lia.
    - intros k Hk1 Hk2. rewrite keyAt_Swap by lia.
      repeat case_decide; first [lia|apply Hlo; lia].
    - intros k Hk1 Hk2. rewrite keyAt_Swap by lia.
      repeat case_decide; first [lia|apply Hhi; lia]. }
  destruct (Nat.ltb_spec j1 i1) as [Hlt|Hge]; cbn [fst snd].
  { apply Hfinal; [apply shuffle_refl|lia|lia|done| |].
    - intros k Hk1 Hk2. apply Hi3; lia.
    - intros k Hk1 Hk2. apply Hj3; lia. }
  assert (i1 < j1).
  { destruct (decide (i1 = j1)) as [Heq|?]; [|lia].
    specialize (Hi4 ltac:(lia)). specialize (Hj4 ltac:(lia)). rewrite Heq in Hi4. lia. }
  destruct (partition_loop_spec (b - a) (Swap d1 i1 j1) a b (S i1) (j1 - 1) p)
    as (Hsh & H1 & H2 & H3 & H4 & H5).
  - split_and!; [lia|lia|lia|rewrite Swap_length; lia| | |].
    + rewrite keyAt_Swap by lia. repeat case_decide; first [lia|done].
    + intros k Hk1 Hk2. rewrite keyAt_Swap by lia.
      repeat case_decide; first [lia|apply Hi3; lia|apply Hj4; lia].
    + intros k Hk1 Hk2. rewrite keyAt_Swap by lia.
      repeat case_decide; first [lia|apply Hj3; lia|apply Hi4; lia].
  - lia.
  - destruct (partition_loop less (b - a) (Swap d1 i1 j1) (S i1) (j1 - 1) a)
      as [d3 j2] eqn:E. cbn [fst snd] in *.
    apply Hfinal; [|done..].
    apply (shuffle_swap (a + 1) b d1 i1 j1); [lia..|done].
Qed.
End partition.

Section partition_equal.
Local Open Scope nat_scope.
Context {A : Type}.
Variable key : A -> Z.
Implicit Types data : list A.

Local Abbreviation less := (lessBy key).
Local Abbreviation K := (keyAt key).

Lemma scanNotGreater_spec (fuel : nat) data (i j a : nat) :
  j < length data -> a < length data -> S j - i <= fuel ->
  let i' := scanNotGreater less fuel data i j a in
  i <= i' /\ (i <= S j -> i' <= S j) /\
  (forall k, i <= k -> k < i' -> (K data k <= K data a)%Z) /\
  (i' <= j -> (K data a < K data i')%Z).
Proof.
  revert i. induction fuel as [|fuel IH]; intros i Hj Ha Hfuel; simpl.
  { split_and!; [lia|lia|intros; lia|intros; lia]. }
  destruct (Nat.leb_spec i j) as [Hij|Hij]; simpl; cycle 1.
  { split_and!; [lia|lia|intros; lia|intros; lia]. }
  rewrite Less_keyAt by lia.
  destruct (Z.ltb_spec (K data a) (K data i)) as [Hlt|Hge]; simpl.
  { split_and!; [lia|lia|intros; lia|done]. }
  destruct (IH (S i) Hj Ha ltac:(lia)) as (H1 & H2 & H3 & H4).
  split_and!; [lia|intros; apply H2; lia| |done].
  intros k Hk1 Hk2. destruct (decide (k = i)) as [->|?]; [done|]. apply H3; lia.
Qed.

Lemma scanGreater_spec data (i j a : nat) :
  j < length data -> a < length data -> 1 <= i ->
  let j' := scanGreater less data i j a in
  j' <= j /\ (i <= S j -> i <= S j') /\
  (forall k, j' < k -> k <= j -> (K data a < K data k)%Z) /\
  (i <= j' -> (K data j' <= K data a)%Z).
Proof.
  induction j as [|j IH]; intros Hj Ha Hi; simpl.
  { split_and!; [lia|lia|intros; lia|intros; lia]. }
  destruct (Nat.leb_spec i (S j)) as [Hij|Hij]; simpl; cycle 1.
  { split_and!; [lia|lia|intros; lia|intros; lia]. }
  rewrite Less_keyAt by lia.
  destruct (Z.ltb_spec (K data a) (K data (S j))) as [Hlt|Hge]; simpl; cycle 1.
  { split_and!; [lia|lia|intros; lia|done]. }
  destruct (IH ltac:(lia) Ha Hi) as (H1 & H2 & H3 & H4).
  split_and!; [lia|intros; apply H2; lia| |done].
  intros k Hk1 Hk2. destruct (decide (k = S j)) as [->|?]; [done|]. apply H3; lia.
Qed.

Lemma partitionEqual_loop_spec (fuel : nat) data (a b i j : nat) (p : Z) :
  partitioningEqual key a b i j p data -> S j - i <= fuel ->
  let r := partitionEqual_loop less fuel data i j a in
  shuffle (a + 1) b data r.1 /\
  a + 1 <= r.2 /\ r.2 <= b /\ K r.1 a = p /\
  allOn key (fun k => k <= p)%Z (a + 1) r.2 r.1 /\
  allOn key (fun k => p < k)%Z r.2 b r.1.
Proof.
  revert data i j. induction fuel as [|fuel IH];
    intros data i j (Hi & Hij & Hj & Hb & Hp & Hlo & Hhi) Hfuel.
  { simpl. assert (i = S j) as -> by lia.
    split_and!; [apply shuffle_refl|lia|lia|done|done|done]. }
  cbn [partitionEqual_loop].
  destruct (scanNotGreater_spec (S j - i) data i j a) as (Hi1 & Hi2 & Hi3 & Hi4); [lia..|].
  set (i1 := scanNotGreater less (S j - i) data i j a) in *.
  destruct (scanGreater_spec data i1 j a) as (Hj1 & Hj2 & Hj3 & Hj4); [lia..|].
  set (j1 := scanGreater less data i1 j a) in *.
  assert (Hlo1 : allOn key (fun k => k <= p)%Z (a + 1) i1 data).
  { intros k Hk1 Hk2. destruct (decide (k < i)); [by apply Hlo|].
    rewrite <- Hp. apply Hi3; lia. }
  assert (Hhi1 : allOn key (fun k => p < k)%Z (S j1) b data).
  { intros k Hk1 Hk2. destruct (decide (j < k)); [by apply Hhi|].
    rewrite <- Hp. apply Hj3; lia. }
  destruct (Nat.ltb_spec j1 i1) as [Hlt|Hge]; simpl.
  { assert (i1 = S j1) as Heq by lia. rewrite <- Heq in Hhi1.
    split_and!; [apply shuffle_refl|lia|lia|done|done|done]. }
  assert (i1 < j1).
  { destruct (decide (i1 = j1)) as [Heq|?]; [|lia].
    specialize (Hi4 ltac:(lia)). specialize (Hj4 ltac:(lia)). rewrite Heq in Hi4. lia. }
  destruct (IH (Swap data i1 j1) (S i1) (j1 - 1)) as (Hsh & H1 & H2 & H3 & H4 & H5).
  - split_and!; [lia|lia|lia|rewrite Swap_length; lia| | |].
    + rewrite keyAt_Swap by lia. repeat case_decide; first [lia|done].
    + intros k Hk1 Hk2. rewrite keyAt_Swap by lia.
      repeat case_decide; first [lia|apply Hlo1; lia].
    + intros k Hk1 Hk2. rewrite keyAt_Swap by lia.
      repeat case_decide; first [lia|apply Hhi1; lia].
  - lia.
  - split_and!; [|done..].
    apply (shuffle_swap (a + 1) b data i1 j1); [lia..|done].
Qed.

(** [partitionEqual_func]: the elements not greater than the pivot come
    first, the greater ones after them. *)
Lemma partitionEqual_func_spec data (a b pivot : nat) :
  a <= pivot -> pivot < b -> b <= length data ->
  let r := partitionEqual_func less data a b pivot in
  shuffle a b data r.1 /\ a + 1 <= r.2 /\ r.2 <= b /\
  allOn key (fun k => k <= K data pivot)%Z a r.2 r.1 /\
  allOn key (fun k => K data pivot < k)%Z r.2 b r.1.
Proof.
  intros Ha Hp Hb. unfold partitionEqual_func.
  set (d1 := Swap data a pivot).
  assert (Hlen1 : length d1 = length data) by apply Swap_length.
  assert (Hpa : K d1 a = K data pivot).
  { subst d1. rewrite keyAt_Swap by lia. by repeat case_decide. }
  destruct (partitionEqual_loop_spec (b - a) d1 a b (a + 1) (b - 1) (K data pivot))
    as (Hsh & H1 & H2 & H3 & H4 & H5).
  - split_and!; [lia|lia|lia|lia|done| |]; intros k ? ?; lia.
  - lia.
  - split_and!; [|done|done| |done].
    + apply (shuffle_trans a b data d1); [apply (shuffle_one a b data a pivot); lia|].
      eapply shuffle_mono; [| |exact Hsh]; lia.
    + intros k Hk1 Hk2. destruct (decide (k = a)) as [->|?]; [lia|]. apply H4; lia.
Qed.
End partition_equal.

(** *** Pivot choice and pattern breaking *)

Section pivots.
Local Open Scope nat_scope.
Context {A : Type}.
Variable key : A -> Z.
Variable next : Z -> Z.
Implicit Types data : list A.

Local Abbreviation less := (lessBy key).

Lemma median_func_choice data (x y z swaps : nat) :
  let m := (median_func less data x y z swaps).1 in m = x \/ m = y \/ m = z.
Proof.
  unfold median_func, order2_func.
  repeat (match goal with |- context [if ?c then _ else _] => destruct c end; simpl); auto.
Qed.

Lemma medianAdjacent_func_choice data (x swaps : nat) :
  let m := (medianAdjacent_func less data x swaps).1 in
  m = x - 1 \/ m = x \/ m = x + 1.
Proof. apply median_func_choice. Qed.

Lemma choosePivot_func_range data (a b : nat) :
  a < b ->
  a <= (choosePivot_func less data a b).1 /\ (choosePivot_func less data a b).1 < b.
Proof.
  intros Hab. unfold choosePivot_func.
  set (l := b - a). assert (Hl : l = b - a) by done. clearbody l.
  assert (Hq : l / 4 * 4 <= l).
  { pose proof (Nat.div_mod_eq l 4). pose proof (Nat.mod_upper_bound l 4). lia. }
  assert (Hpivot : forall j swaps : nat,
            a <= j -> j < b ->
            a <= (if swaps =? 0 then (j, increasingHint)
                  else if swaps =? maxSwaps then (j, decreasingHint)
                  else (j, unknownHint)).1 /\
            (if swaps =? 0 then (j, increasingHint)
             else if swaps =? maxSwaps then (j, decreasingHint)
             else (j, unknownHint)).1 < b).
  { intros j swaps ? ?. by repeat case_match. }
  destruct (Nat.leb_spec 8 l) as [H8|H8]; cycle 1.
  { apply Hpivot; lia. }
  destruct (Nat.leb_spec shortestNinther l) as [H50|H50]; cycle 1.
  { pose proof (median_func_choice data (a + l / 4 * 1) (a + l / 4 * 2) (a + l / 4 * 3) 0) as Hm.
    destruct (median_func less data _ _ _ 0) as [j swaps]. cbn [fst] in Hm.
    assert (1 <= l / 4) by (apply Nat.div_le_lower_bound; lia).
    apply Hpivot; lia. }
  unfold shortestNinther in H50.
  assert (12 <= l / 4) by (apply Nat.div_le_lower_bound; lia).
  pose proof (medianAdjacent_func_choice data (a + l / 4 * 1) 0) as H1.
  destruct (medianAdjacent_func less data (a + l / 4 * 1) 0) as [i s1]. cbn [fst] in H1.
  pose proof (medianAdjacent_func_choice data (a + l / 4 * 2) s1) as H2.
  destruct (medianAdjacent_func less data (a + l / 4 * 2) s1) as [j s2]. cbn [fst] in H2.
  pose proof (medianAdjacent_func_choice data (a + l / 4 * 3) s2) as H3.
  destruct (medianAdjacent_func less data (a + l / 4 * 3) s2) as [k s3]. cbn [fst] in H3.
  pose proof (median_func_choice data i j k s3) as Hm.
  destruct (median_func less data i j k s3) as [m swaps]. cbn [fst] in Hm.
  apply Hpivot; lia.
Qed.

Lemma reverseRange_loop_shuffle (fuel : nat) data (a b i j : nat) :
  a <= i -> j < b ->
  shuffle a b data (reverseRange_loop fuel data i j).
Proof.
  revert data i j. induction fuel as [|fuel IH]; intros data i j Hi Hj; simpl.
  { apply shuffle_refl. }
  destruct (Nat.ltb_spec i j); [|apply shuffle_refl].
  apply (shuffle_swap a b data i j); [lia..|]. apply IH; lia.
Qed.

Lemma reverseRange_func_shuffle data (a b : nat) :
  a < b -> shuffle a b data (reverseRange_func data a b).
Proof. intros. apply reverseRange_loop_shuffle; lia. Qed.

Lemma nextPowerOfTwo_bound (l : nat) : 0 < l -> 0 < nextPowerOfTwo l <= 2 * l.
Proof.
  intros Hl. unfold nextPowerOfTwo, bits_Len.
  destruct (Nat.eqb_spec l 0) as [?|_]; [lia|].
  rewrite Nat.pow_succ_r'. pose proof (Nat.log2_spec l Hl) as [H1 _].
  assert (2 ^ Nat.log2 l <> 0) by (apply Nat.pow_nonzero; lia). lia.
Qed.

Lemma breakPatterns_loop_shuffle (n : nat) data (random : Z)
    (a b modulus idx i : nat) :
  a < b -> 0 < modulus <= 2 * (b - a) ->
  a <= idx - 1 + i -> idx - 1 + i + n <= b ->
  shuffle a b data (breakPatterns_loop next n data random a (b - a) modulus idx i).
Proof.
  revert data random i. induction n as [|n IH]; intros data random i Hab Hm Hlo Hhi; simpl.
  { apply shuffle_refl. }
  set (other := Z.to_nat (next random `mod` Z.of_nat modulus)).
  assert (other < modulus).
  { subst other. pose proof (Z.mod_pos_bound (next random) (Z.of_nat modulus)). lia. }
  apply (shuffle_swap a b data (idx - 1 + i)
           (a + (if b - a <=? other then other - (b - a) else other))).
  - lia.
  - lia.
  - lia.
  - destruct (Nat.leb_spec (b - a) other); lia.
  - apply IH; lia.
Qed.

Lemma breakPatterns_func_shuffle data (a b : nat) :
  shuffle a b data (breakPatterns_func next data a b).
Proof.
  unfold breakPatterns_func.
  destruct (Nat.leb_spec 8 (b - a)) as [H8|_]; [|apply shuffle_refl].
  assert (2 <= (b - a) / 4) by (apply Nat.div_le_lower_bound; lia).
  assert ((b - a) / 4 * 4 <= b - a).
  { pose proof (Nat.div_mod_eq (b - a) 4). lia. }
  apply breakPatterns_loop_shuffle; [lia|apply nextPowerOfTwo_bound; lia|lia|lia].
Qed.
End pivots.

(** *** Partial insertion sort *)

Section partial_insertion.
Local Open Scope nat_scope.
Context {A : Type}.
Variable key : A -> Z.
Implicit Types data : list A.

Local Abbreviation less := (lessBy key).
Local Abbreviation K := (keyAt key).

Lemma scanSorted_spec (fuel : nat) data (i b : nat) :
  b <= length data -> 1 <= i -> b - i <= fuel ->
  let i' := scanSorted less fuel data i b in
  i <= i' /\ (i <= b -> i' <= b) /\
  (forall k, i <= k -> k < i' -> (K data (k - 1) <= K data k)%Z) /\
  (i' < b -> (K data i' < K data (i' - 1))%Z).
Proof.
  revert i. induction fuel as [|fuel IH]; intros i Hb Hi Hfuel; simpl.
  { split_and!; [lia|lia|intros; lia|intros; lia]. }
  destruct (Nat.ltb_spec i b) as [Hib|Hib]; simpl; cycle 1.
  { split_and!; [lia|lia|intros; lia|intros; lia]. }
  rewrite Less_keyAt by lia.
  destruct (Z.ltb_spec (K data i) (K data (i - 1))) as [Hlt|Hge]; simpl.
  { split_and!; [lia|lia|intros; lia|done]. }
  destruct (IH (S i) Hb ltac:(lia) ltac:(lia)) as (H1 & H2 & H3 & H4).
  split_and!; [lia|intros; apply H2; lia| |done].
  intros k Hk1 Hk2. destruct (decide (k = i)) as [->|?]; [done|]. apply H3; lia.
Qed.

Lemma lowerBound_shrink (a b hi : nat) data :
  hi <= b -> lowerBound key a b data -> lowerBound key a hi data.
Proof. intros Hhi Hlow Hpos k Hk1 Hk2. apply Hlow; lia. Qed.

Lemma shiftLeft_spec (a j hi : nat) data :
  a <= j -> j < hi -> hi <= length data ->
  sortedBut key a j hi data -> lowerBound key a hi data ->
  sortedOn key a hi (shiftLeft less data j) /\ shuffle a hi data (shiftLeft less data j).
Proof.
  revert data. induction j as [|j IH]; intros data Ha Hj Hhi Hinv Hlow.
  { simpl. split; [|apply shuffle_refl]. apply (sortedBut_sorted key a 0 hi); [done|lia]. }
  simpl. rewrite Less_keyAt by lia.
  destruct (Z.ltb_spec (K data (S j)) (K data j)) as [Hlt|Hge]; simpl; cycle 1.
  { split; [|apply shuffle_refl]. apply (sortedBut_sorted key a (S j) hi); [done|].
    right. by replace (S j - 1) with j by lia. }
  assert (a < S j) as Haj.
  { destruct (decide (a = S j)) as [->|?]; [|lia].
    specialize (Hlow ltac:(lia) (S j) ltac:(lia) ltac:(lia)). simpl in Hlow.
    replace (j - 0) with j in Hlow by lia. lia. }
  destruct Hinv as [H1 H2].
  assert (Hsh : shuffle a hi data (Swap data (S j) j)) by (apply shuffle_one; lia).
  destruct (IH (Swap data (S j) j)) as (Hs & Hsh').
  - lia.
  - lia.
  - by rewrite Swap_length.
  - split.
    + intros i k Hi Hik Hk Hij Hkj. rewrite !keyAt_Swap by lia.
      repeat case_decide; first [lia|apply H1; lia].
    + intros k Hk1 Hk2. rewrite !keyAt_Swap by lia.
      repeat case_decide; first [lia|apply H2; lia].
  - by apply (shuffle_lowerBound key a hi a hi data).
  - split; [done|]. by apply (shuffle_trans a hi data (Swap data (S j) j)).
Qed.

Lemma shiftRight_shuffle (fuel : nat) data (j : nat) :
  1 <= j ->
  shuffle (j - 1) (j + fuel) data (shiftRight less fuel data j).
Proof.
  revert data j. induction fuel as [|fuel IH]; intros data j Hj; simpl.
  { apply shuffle_refl. }
  destruct (negb _); [apply shuffle_refl|].
  apply (shuffle_swap (j - 1) (j + S fuel) data j (j - 1)); [lia..|].
  apply (shuffle_mono (S j - 1) (S j + fuel)); [lia..|]. apply IH. lia.
Qed.

Lemma partialInsertionSort_loop_spec (steps : nat) data (a b i : nat) :
  a + 1 <= i -> i <= b -> b <= length data ->
  sortedOn key a i data -> lowerBound key a b data ->
  let r := partialInsertionSort_loop less steps data a b i in
  shuffle a b data r.1 /\ (r.2 = true -> sortedOn key a b r.1).
Proof.
  revert data i. induction steps as [|steps IH]; intros data i Hai Hib Hb Hs Hlow.
  { simpl. split; [apply shuffle_refl|done]. }
  cbn [partialInsertionSort_loop].
  destruct (scanSorted_spec (b - i) data i b) as (Hi1 & Hi2 & Hi3 & Hi4); [lia..|].
  set (i1 := scanSorted less (b - i) data i b) in *.
  assert (Hs1 : sortedOn key a i1 data).
  { apply sortedOn_adjacent. intros k Hk1 Hk2.
    destruct (decide (k < i)) as [?|?]; [apply Hs; lia|apply Hi3; lia]. }
  destruct (Nat.eqb_spec i1 b) as [Heq|Hne].
  { simpl. split; [apply shuffle_refl|]. intros _. by rewrite <- Heq. }
  destruct (b - a <? shortestShifting).
  { simpl. split; [apply shuffle_refl|done]. }
  specialize (Hi2 ltac:(lia)). specialize (Hi4 ltac:(lia)).
  set (d1 := Swap data i1 (i1 - 1)).
  assert (Hsh1 : shuffle a b data d1) by (apply shuffle_one; lia).
  assert (Hlen1 : length d1 = length data) by apply Swap_length.
  assert (Hbut : sortedBut key a (i1 - 1) (i1 + 1) d1).
  { split.
    - intros x y Hx Hxy Hy Hx' Hy'. subst d1. rewrite !keyAt_Swap by lia.
      repeat case_decide; first [lia|apply Hs1; lia].
    - intros k Hk1 Hk2. subst d1. rewrite !keyAt_Swap by lia.
      repeat case_decide; lia. }
  set (d2 := if 2 <=? i1 - a then shiftLeft less d1 (i1 - 1) else d1).
  assert (Hd2 : sortedOn key a (i1 + 1) d2 /\ shuffle a b d1 d2).
  { subst d2. destruct (Nat.leb_spec 2 (i1 - a)).
    - destruct (shiftLeft_spec a (i1 - 1) (i1 + 1) d1) as [Hs2 Hsh2]; [lia..|done| |].
      + apply (lowerBound_shrink a b); [lia|].
        by apply (shuffle_lowerBound key a b a b data).
      + split; [done|]. apply (shuffle_mono a (i1 + 1)); [lia..|done].
    - split; [|apply shuffle_refl].
      apply (sortedBut_sorted key a (i1 - 1) (i1 + 1)); [done|lia]. }
  destruct Hd2 as [Hs2 Hsh2].
  set (d3 := if 2 <=? b - i1 then shiftRight less (b - (i1 + 1)) d2 (i1 + 1) else d2).
  assert (Hsh3 : shuffle i1 b d2 d3).
  { subst d3. destruct (Nat.leb_spec 2 (b - i1)); [|apply shuffle_refl].
    pose proof (shiftRight_shuffle (b - (i1 + 1)) d2 (i1 + 1) ltac:(lia)) as Hright.
    apply (shuffle_mono (i1 + 1 - 1) (i1 + 1 + (b - (i1 + 1)))); [lia..|done]. }
  assert (Hsh : shuffle a b data d3).
  { apply (shuffle_trans a b data d1); [done|].
    apply (shuffle_trans a b d1 d2); [done|].
    apply (shuffle_mono i1 b); [lia..|done]. }
  destruct (IH d3 i1) as [Hsh' Hsorted].
  - lia.
  - lia.
  - rewrite (shuffle_length _ _ _ _ Hsh). lia.
  - apply (sortedOn_outside key a i1 i1 b d2); [done|lia|].
    intros x y Hx Hxy Hy. apply Hs2; lia.
  - by apply (shuffle_lowerBound key a b a b data).
  - split; [|done]. by apply (shuffle_trans a b data d3).
Qed.

(** [partialInsertionSort_func]: when it reports success, [data[a:b]] is
    sorted. *)
Lemma partialInsertionSort_func_spec data (a b : nat) :
  a < b -> b <= length data -> lowerBound key a b data ->
  let r := partialInsertionSort_func less data a b in
  shuffle a b data r.1 /\ (r.2 = true -> sortedOn key a b r.1).
Proof.
  intros Hab Hb Hlow. apply partialInsertionSort_loop_spec; [lia..| |done].
  intros i j ? ? ?. assert (i = j) as -> by lia. lia.
Qed.
End partial_insertion.

(** *** Heap sort *)

Section heap_sort.
Local Open Scope nat_scope.
Context {A : Type}.
Variable key : A -> Z.
Implicit Types data : list A.

Local Abbreviation less := (lessBy key).
Local Abbreviation K := (keyAt key).

Lemma siftDown_loop_spec (fuel : nat) data (root lo hi first : nat) :
  first + hi <= length data -> lo <= root -> hi - root <= fuel ->
  heapBut key root lo hi first data ->
  heapFrom key lo hi first (siftDown_loop less fuel data root hi first) /\
  shuffle first (first + hi) data (siftDown_loop less fuel data root hi first).
Proof.
  revert data root. induction fuel as [|fuel IH]; intros data root Hlen Hlo Hfuel [H1 H2].
  { simpl. split; [|apply shuffle_refl]. intros i c Hi Hc Hchi.
    destruct (decide (i = root)) as [->|?]; [|by apply H1].
    unfold childOf in Hc. lia. }
  cbn [siftDown_loop].
  destruct (Nat.leb_spec hi (2 * root + 1)) as [Hleaf|Hchild].
  { split; [|apply shuffle_refl]. intros i c Hi Hc Hchi.
    destruct (decide (i = root)) as [->|?]; [|by apply H1].
    unfold childOf in Hc. lia. }
  set (child := if (2 * root + 1 + 1 <? hi)
                   && Less less data (first + (2 * root + 1)) (first + (2 * root + 1) + 1)
                then 2 * root + 1 + 1 else 2 * root + 1).
  assert (Hchoice : childOf child root /\ child < hi /\
            forall c, childOf c root -> c < hi ->
              (K data (first + c) <= K data (first + child))%Z).
  { subst child.
    destruct (Nat.ltb_spec (2 * root + 1 + 1) hi) as [Hboth|Hone]; cbn [andb].
    - rewrite Less_keyAt by lia.
      replace (first + (2 * root + 1) + 1) with (first + (2 * root + 2)) by lia.
      replace (2 * root + 1 + 1) with (2 * root + 2) by lia.
      destruct (Z.ltb_spec (K data (first + (2 * root + 1)))
                           (K data (first + (2 * root + 2)))) as [Hlt|Hge].
      + split_and!; [by right|lia|]. intros c [-> | ->] _; lia.
      + split_and!; [by left|lia|]. intros c [-> | ->] _; lia.
    - split_and!; [by left|lia|]. intros c [-> | ->] ?; lia. }
  clearbody child. destruct Hchoice as (Hc & Hchi & Hmax).
  rewrite Less_keyAt by lia.
  destruct (Z.ltb_spec (K data (first + root)) (K data (first + child))) as [Hlt|Hge];
    simpl; cycle 1.
  { split; [|apply shuffle_refl]. intros i c Hi Hci Hci'.
    destruct (decide (i = root)) as [->|?]; [|by apply H1].
    etrans; [by apply Hmax|done]. }
  assert (Hrc : root < child) by (unfold childOf in Hc; lia).
  destruct (IH (Swap data (first + root) (first + child)) child) as [Hheap Hsh].
  - by rewrite Swap_length.
  - lia.
  - lia.
  - split.
    + intros i c Hi Hne Hci Hci'. rewrite !keyAt_Swap by lia.
      destruct (decide (i = root)) as [->|Hir].
      * (* the children of the old root: [child], now smaller, and its sibling *)
        repeat case_decide; try lia.
        apply Hmax; [done|lia].
      * destruct (decide (c = root)) as [->|Hcr].
        -- (* [i] is the parent of the old root *)
           repeat case_decide; try lia.
           change (K data (first + child) <= K data (first + i))%Z.
           apply (H2 i child); [lia|done|done|done].
        -- assert (c <> child) by (unfold childOf in *; lia).
           repeat case_decide; try lia. apply H1; [lia|done|done|done].
    + intros p c Hp Hcp Hcc Hc'.
      assert (p = root) as -> by (unfold childOf in *; lia).
      rewrite !keyAt_Swap by lia.
      assert (c <> root) by (unfold childOf in *; lia).
      assert (c <> child) by (unfold childOf in *; lia).
      repeat case_decide; try lia. apply H1; [lia|lia|done|done].
  - split; [done|].
    apply (shuffle_swap first (first + hi) data (first + root) (first + child));
      [lia..|done].
Qed.

Lemma siftDown_func_spec data (lo hi first : nat) :
  first + hi <= length data ->
  heapFrom key (S lo) hi first data ->
  heapFrom key lo hi first (siftDown_func less data lo hi first) /\
  shuffle first (first + hi) data (siftDown_func less data lo hi first).
Proof.
  intros Hlen Hheap. apply siftDown_loop_spec; [done|lia|lia|]. split.
  - intros i c Hi Hne Hc Hchi. apply Hheap; [lia|done|done].
  - intros p c Hp Hcp. unfold childOf in Hcp. lia.
Qed.

Lemma heapSort_build_spec data (i hi first : nat) :
  first + hi <= length data ->
  heapFrom key (S i) hi first data ->
  heapFrom key 0 hi first (heapSort_build less data i hi first) /\
  shuffle first (first + hi) data (heapSort_build less data i hi first).
Proof.
  revert data. induction i as [|i IH]; intros data Hlen Hheap; simpl.
  { by apply siftDown_func_spec. }
  destruct (siftDown_func_spec data (S i) hi first Hlen Hheap) as [Hh Hsh].
  destruct (IH (siftDown_func less data (S i) hi first)) as [Hh' Hsh'].
  - by rewrite (shuffle_length _ _ _ _ Hsh).
  - done.
  - split; [done|]. by apply (shuffle_trans _ _ _ _ _ Hsh).
Qed.

Lemma heap_root_max data (hi first : nat) :
  heapFrom key 0 hi first data ->
  forall x, x < hi -> (K data (first + x) <= K data first)%Z.
Proof.
  intros Hheap x. induction x as [x IH] using lt_wf_ind. intros Hx.
  destruct x as [|x]; [rewrite Nat.add_0_r; lia|].
  set (p := x / 2).
  assert (Hp : childOf (S x) p).
  { unfold childOf. subst p. pose proof (Nat.div_mod_eq x 2).
    pose proof (Nat.mod_upper_bound x 2). lia. }
  assert (p <= x).
  { subst p. pose proof (Nat.div_mod_eq x 2). lia. }
  etrans; [apply (Hheap p (S x)); [lia|done|done]|]. apply IH; lia.
Qed.

Lemma heapSort_pop_spec data (i hi first : nat) :
  i < hi -> first + hi <= length data ->
  heapAndTail key (S i) hi first data ->
  sortedOn key first (first + hi) (heapSort_pop less data i first) /\
  shuffle first (first + hi) data (heapSort_pop less data i first).
Proof.
  revert data. induction i as [|i IH]; intros data Hi Hlen (Hheap & Hsorted & Hcross).
  - (* one element left: the swap and the sift change nothing of importance *)
    cbn [heapSort_pop]. unfold siftDown_func. cbn [siftDown_loop].
    rewrite Nat.add_0_r.
    assert (Swap data first first = data) as ->.
    { unfold Swap. destruct (data !! first) eqn:E; [|done].
      assert (<[first := a]> data = data) as Hid by (by apply list_insert_id).
      by rewrite !Hid. }
    split; [|apply shuffle_refl].
    intros x y Hx Hxy Hy.
    destruct (decide (x = first)) as [->|?].
    + destruct (decide (y = first)) as [->|?]; [lia|].
      specialize (Hcross 0 (y - first) ltac:(lia) ltac:(lia) ltac:(lia)).
      rewrite Nat.add_0_r in Hcross. by replace (first + (y - first)) with y in Hcross by lia.
    + apply Hsorted; lia.
  - cbn [heapSort_pop].
    set (d1 := Swap data first (first + S i)).
    assert (Hlen1 : length d1 = length data) by apply Swap_length.
    assert (Hsh1 : shuffle first (first + hi) data d1) by (apply shuffle_one; lia).
    pose proof (heap_root_max data (S (S i)) first Hheap) as Hmax.
    assert (Hk1 : forall x, K d1 (first + x)
                  = if decide (x = 0) then K data (first + S i)
                    else if decide (x = S i) then K data first
                    else K data (first + x)).
    { intros x. subst d1. rewrite keyAt_Swap by lia.
      repeat case_decide; first [lia|done|by rewrite Nat.add_0_r]. }
    destruct (siftDown_func_spec d1 0 (S i) first) as [Hheap2 Hsh2]; [lia| |].
    { intros x c Hx Hc Hci. rewrite !Hk1.
      pose proof Hc as Hc'. unfold childOf in Hc'.
      repeat case_decide; try lia. apply Hheap; [lia|done|lia]. }
    set (d2 := siftDown_func less d1 0 (S i) first) in *.
    assert (Hlen2 : length d2 = length data).
    { by rewrite (shuffle_length _ _ _ _ Hsh2). }
    (* the old root, now at [S i], bounds the heap and starts the tail *)
    assert (Hroot : K d2 (first + S i) = K data first).
    { rewrite (keyAt_outside _ _ _ _ _ _ Hsh2) by lia. rewrite Hk1.
      repeat case_decide; first [lia|done]. }
    assert (Hbelow : allOn key (fun k => k <= K data first)%Z first (first + S i) d2).
    { apply (shuffle_allOn key _ first (first + S i) first (first + S i) d1);
        [done|lia|lia|].
      intros k Hk Hk'. replace k with (first + (k - first)) by lia. rewrite Hk1.
      repeat case_decide; try lia.
      - apply Hmax. lia.
      - apply Hmax. lia. }
    assert (Htail : forall y, S i < y -> y < hi -> K d2 (first + y) = K data (first + y)).
    { intros y Hy Hy'. rewrite (keyAt_outside _ _ _ _ _ _ Hsh2) by lia. rewrite Hk1.
      repeat case_decide; first [lia|done]. }
    destruct (IH d2) as [Hs Hsh3].
    + lia.
    + lia.
    + split_and!.
      * done.
      * intros x y Hx Hxy Hy.
        destruct (decide (x = first + S i)) as [->|?].
        -- destruct (decide (y = first + S i)) as [->|?]; [lia|].
           rewrite Hroot. replace y with (first + (y - first)) by lia.
           rewrite Htail by lia.
           specialize (Hcross 0 (y - first) ltac:(lia) ltac:(lia) ltac:(lia)).
           by rewrite Nat.add_0_r in Hcross.
        -- replace x with (first + (x - first)) by lia.
           replace y with (first + (y - first)) by lia.
           rewrite !Htail by lia. apply Hsorted; lia.
      * intros x y Hx Hy Hy'.
        etrans; [apply (Hbelow (first + x)); lia|].
        destruct (decide (y = S i)) as [->|?]; [by rewrite Hroot|].
        rewrite Htail by lia.
        specialize (Hcross 0 y ltac:(lia) ltac:(lia) ltac:(lia)).
        by rewrite Nat.add_0_r in Hcross.
    + split; [done|].
      apply (shuffle_trans _ _ _ _ _ Hsh1).
      apply (shuffle_trans _ _ d1 d2); [|done].
      apply (shuffle_mono first (first + S i)); [lia..|done].
Qed.

(** [heapSort_func] sorts [data[a:b]]. *)
Lemma heapSort_func_spec data (a b : nat) :
  a <= b -> b <= length data ->
  sortedOn key a b (heapSort_func less data a b) /\
  shuffle a b data (heapSort_func less data a b).
Proof.
  intros Hab Hb. unfold heapSort_func.
  destruct (Nat.eqb_spec (b - a) 0) as [Heq|Hne].
  { split; [|apply shuffle_refl]. intros i j ? ? ?. lia. }
  destruct (heapSort_build_spec data ((b - a - 1) / 2) (b - a) a) as [Hheap Hsh]; [lia| |].
  { intros i c Hi Hc Hci. unfold childOf in Hc.
    pose proof (Nat.div_mod_eq (b - a - 1) 2).
    pose proof (Nat.mod_upper_bound (b - a - 1) 2). lia. }
  set (d1 := heapSort_build less data ((b - a - 1) / 2) (b - a) a) in *.
  destruct (heapSort_pop_spec d1 (b - a - 1) (b - a) a) as [Hs Hsh2].
  - lia.
  - rewrite (shuffle_length _ _ _ _ Hsh). lia.
  - replace (S (b - a - 1)) with (b - a) by lia. split_and!; [done| |].
    + intros i j ? ? ?. lia.
    + intros x y ? ? ?. lia.
  - replace (a + (b - a)) with b in * by lia.
    split; [done|]. by apply (shuffle_trans _ _ _ _ _ Hsh).
Qed.
End heap_sort.

(** *** The quicksort loop *)

Section pdqsort.
Local Open Scope nat_scope.
Context {A : Type}.
Variable key : A -> Z.
Variable next : Z -> Z.
Implicit Types data : list A.

Local Abbreviation less := (lessBy key).
Local Abbreviation K := (keyAt key).

Lemma sortedOn_split (a mid b : nat) data :
  sortedOn key a mid data -> sortedOn key mid b data ->
  (forall i j, a <= i -> i < mid -> mid <= j -> j < b -> (K data i <= K data j)%Z) ->
  sortedOn key a b data.
Proof.
  intros Hl Hr Hcross i j Hi Hij Hj.
  destruct (decide (j < mid)); [apply Hl; lia|].
  destruct (decide (mid <= i)); [apply Hr; lia|]. apply Hcross; lia.
Qed.

Lemma sortedOn_pivot (a mid b : nat) data :
  sortedOn key a mid data -> sortedOn key (S mid) b data ->
  allOn key (fun k => k < K data mid)%Z a mid data ->
  allOn key (fun k => K data mid <= k)%Z (S mid) b data ->
  sortedOn key a b data.
Proof.
  intros Hl Hr Hlo Hhi i j Hi Hij Hj.
  destruct (decide (j < mid)); [apply Hl; lia|].
  destruct (decide (mid < i)); [apply Hr; lia|].
  destruct (decide (i = mid)) as [->|?]; destruct (decide (j = mid)) as [->|?]; try lia.
  - apply Hhi; lia.
  - specialize (Hlo i ltac:(lia) ltac:(lia)). simpl in Hlo. lia.
  - specialize (Hlo i ltac:(lia) ltac:(lia)). specialize (Hhi j ltac:(lia) ltac:(lia)).
    simpl in *. lia.
Qed.

(** The ordinary case: partition around the pivot and sort both sides, the
    shorter one first. *)
Lemma pdqsort_partition_spec (fuel : nat) data (a b pivot limit : nat) :
  pdqsortSpec key next fuel ->
  a <= pivot -> pivot < b -> b <= length data -> b - a < S fuel ->
  lowerBound key a b data ->
  let res :=
    let '(data, mid, alreadyPartitioned) := partition_func less data a b pivot in
    let leftLen := mid - a in
    let rightLen := b - mid in
    let balanceThreshold := (b - a) / 8 in
    if leftLen <? rightLen then
      let wasBalanced := balanceThreshold <=? leftLen in
      let data := pdqsort_loop less next fuel data a mid limit true true in
      pdqsort_loop less next fuel data (mid + 1) b limit wasBalanced alreadyPartitioned
    else
      let wasBalanced := balanceThreshold <=? rightLen in
      let data := pdqsort_loop less next fuel data (mid + 1) b limit true true in
      pdqsort_loop less next fuel data a mid limit wasBalanced alreadyPartitioned in
  sortedOn key a b res /\ shuffle a b data res.
Proof.
  intros IH Hp3 Hp4 Hb Hfuel Hlow3. cbv zeta.
  pose proof (partition_func_spec key data a b pivot Hp3 Hp4 Hb) as Hpart.
  destruct (partition_func less data a b pivot) as [[d4 mid] already].
  cbn [fst snd] in Hpart. destruct Hpart as (Hsh4 & Hm1 & Hm2 & Hlo & Hhi).
  assert (Hlen4 : length d4 = length data) by apply (shuffle_length _ _ _ _ Hsh4).
  assert (Hlow4 : lowerBound key a b d4).
  { by apply (shuffle_lowerBound key a b a b data). }
  destruct (mid - a <? b - mid).
  + (* the left part first *)
    destruct (IH d4 a mid limit true true) as [Hsl Hshl];
      [lia|lia|lia|apply (lowerBound_shrink key a b); [lia|done]|].
    set (r1 := pdqsort_loop less next fuel d4 a mid limit true true) in *.
    assert (Hmidr : K r1 mid = K d4 mid).
    { by rewrite (keyAt_outside _ _ _ _ _ _ Hshl) by lia. }
    assert (Hhi1 : allOn key (fun k => K r1 mid <= k)%Z (S mid) b r1).
    { rewrite Hmidr. by apply (allOn_outside key _ (S mid) b a mid d4); [|lia|]. }
    destruct (IH r1 (mid + 1) b limit ((b - a) / 8 <=? mid - a) already) as [Hsr Hshr].
    * lia.
    * rewrite (shuffle_length _ _ _ _ Hshl). lia.
    * lia.
    * intros _ k Hk1 Hk2. replace (mid + 1 - 1) with mid by lia. apply Hhi1; lia.
    * set (r2 := pdqsort_loop less next fuel r1 (mid + 1) b limit _ already) in *.
      replace (mid + 1) with (S mid) in * by lia.
      assert (Hmid2 : K r2 mid = K d4 mid).
      { by rewrite (keyAt_outside _ _ _ _ _ _ Hshr), Hmidr by lia. }
      split.
      -- apply (sortedOn_pivot a mid b).
         ++ by apply (sortedOn_outside key a mid (S mid) b r1); [|lia|].
         ++ done.
         ++ rewrite Hmid2.
            apply (allOn_outside key _ a mid (S mid) b r1); [done|lia|].
            by apply (shuffle_allOn key _ a mid a mid d4); [|lia|lia|].
         ++ rewrite Hmid2, <- Hmidr.
            by apply (shuffle_allOn key _ (S mid) b (S mid) b r1); [|lia|lia|].
      -- apply (shuffle_trans a b data d4); [done|].
         apply (shuffle_trans a b d4 r1); [apply (shuffle_mono a mid); [lia..|done]|].
         apply (shuffle_mono (S mid) b); [lia..|done].
  + (* the right part first *)
    destruct (IH d4 (mid + 1) b limit true true) as [Hsr Hshr].
    * lia.
    * lia.
    * lia.
    * intros _ k Hk1 Hk2. replace (mid + 1 - 1) with mid by lia. apply Hhi; lia.
    * set (r1 := pdqsort_loop less next fuel d4 (mid + 1) b limit true true) in *.
      replace (mid + 1) with (S mid) in * by lia.
      assert (Hmidr : K r1 mid = K d4 mid).
      { by rewrite (keyAt_outside _ _ _ _ _ _ Hshr) by lia. }
      destruct (IH r1 a mid limit ((b - a) / 8 <=? b - mid) already) as [Hsl Hshl].
      -- lia.
      -- rewrite (shuffle_length _ _ _ _ Hshr). lia.
      -- lia.
      -- apply (lowerBound_shrink key a b); [lia|].
         apply (shuffle_lowerBound key a b (S mid) b d4); [done|lia|lia|done].
      -- set (r2 := pdqsort_loop less next fuel r1 a mid limit _ already) in *.
         assert (Hmid2 : K r2 mid = K d4 mid).
         { by rewrite (keyAt_outside _ _ _ _ _ _ Hshl), Hmidr by lia. }
         split.
         ++ apply (sortedOn_pivot a mid b).
            ** done.
            ** by apply (sortedOn_outside key (S mid) b a mid r1); [|lia|].
            ** rewrite Hmid2.
               apply (shuffle_allOn key _ a mid a mid r1); [done|lia|lia|].
               by apply (allOn_outside key _ a mid (S mid) b d4); [|lia|].
            ** rewrite Hmid2.
               apply (allOn_outside key _ (S mid) b a mid r1); [done|lia|].
               by apply (shuffle_allOn key _ (S mid) b (S mid) b d4); [|lia|lia|].
         ++ apply (shuffle_trans a b data d4); [done|].
            apply (shuffle_trans a b d4 r1);
              [apply (shuffle_mono (S mid) b); [lia..|done]|].
            apply (shuffle_mono a mid); [lia..|done].
Qed.

(** [pdqsort_func] sorts [data[a:b]] whenever the element before the range
    bounds it from below, which holds at the top and at every recursive call. *)
Lemma pdqsort_loop_spec (fuel : nat) data (a b limit : nat) (wb wp : bool) :
  a <= b -> b <= length data -> b - a < fuel -> lowerBound key a b data ->
  sortedOn key a b (pdqsort_loop less next fuel data a b limit wb wp) /\
  shuffle a b data (pdqsort_loop less next fuel data a b limit wb wp).
Proof.
  revert data a b limit wb wp.
  induction fuel as [|fuel IH]; intros data a b limit wb wp Hab Hb Hfuel Hlow; [lia|].
  cbn [pdqsort_loop].
  destruct (Nat.leb_spec (b - a) maxInsertion) as [Hsmall|Hbig].
  { destruct (insertionSort_func_spec key a b data Hb) as (? & ? & _). done. }
  destruct (limit =? 0).
  { by apply heapSort_func_spec. }
  unfold maxInsertion in Hbig.
  (* breakPatterns *)
  set (s1 := if negb wb then (breakPatterns_func next data a b, limit - 1) else (data, limit)).
  assert (Hsh1 : shuffle a b data s1.1).
  { subst s1. destruct (negb wb); [apply breakPatterns_func_shuffle|apply shuffle_refl]. }
  destruct s1 as [d1 limit1]. cbn [fst] in Hsh1.
  (* choosePivot *)
  destruct (choosePivot_func_range key d1 a b ltac:(lia)) as [Hp1 Hp2].
  destruct (choosePivot_func less d1 a b) as [pivot hint]. cbn [fst] in Hp1, Hp2.
  (* reverseRange *)
  set (s2 := if isDecreasing hint
             then (reverseRange_func d1 a b, b - 1 - (pivot - a), increasingHint)
             else (d1, pivot, hint)).
  assert (Hs2 : shuffle a b d1 s2.1.1 /\ a <= s2.1.2 /\ s2.1.2 < b).
  { subst s2. destruct (isDecreasing hint); cbn [fst snd].
    - split; [apply reverseRange_func_shuffle; lia|lia].
    - split; [apply shuffle_refl|lia]. }
  destruct s2 as [[d2 pivot2] hint2]. cbn [fst snd] in Hs2.
  destruct Hs2 as (Hsh2 & Hp3 & Hp4).
  assert (Hsh12 : shuffle a b data d2) by (by apply (shuffle_trans a b data d1)).
  (* partialInsertionSort *)
  set (s3 := if wb && wp && isIncreasing hint2
             then partialInsertionSort_func less d2 a b else (d2, false)).
  assert (Hs3 : shuffle a b d2 s3.1 /\ (s3.2 = true -> sortedOn key a b s3.1)).
  { subst s3. destruct (wb && wp && isIncreasing hint2).
    - apply partialInsertionSort_func_spec; [lia| |].
      + rewrite (shuffle_length _ _ _ _ Hsh12). lia.
      + by apply (shuffle_lowerBound key a b a b data).
    - split; [apply shuffle_refl|done]. }
  destruct s3 as [d3 sorted]. cbn [fst snd] in Hs3. destruct Hs3 as [Hsh3 Hsorted].
  assert (Hsh13 : shuffle a b data d3) by (by apply (shuffle_trans a b data d2)).
  assert (Hlen3 : length d3 = length data) by apply (shuffle_length _ _ _ _ Hsh13).
  assert (Hlow3 : lowerBound key a b d3).
  { by apply (shuffle_lowerBound key a b a b data). }
  destruct sorted; [by split; [apply Hsorted|]|].
  destruct (Nat.ltb_spec 0 a) as [Hapos|Hazero]; cbn [andb]; cycle 1.
  - (* an ordinary partition *)
    destruct (pdqsort_partition_spec fuel d3 a b pivot2 limit1) as [Hs Hsh];
      [done|done|done|lia|lia|done|].
    split; [done|]. by apply (shuffle_trans a b data d3).
  - (* [a > 0]: the pivot may equal the element before the range *)
    rewrite Less_keyAt by lia.
    destruct (Z.ltb_spec (K d3 (a - 1)) (K d3 pivot2)) as [Hless|Hequal]; cbn [negb].
    + (* as above: an ordinary partition *)
      destruct (pdqsort_partition_spec fuel d3 a b pivot2 limit1) as [Hs Hsh];
        [done|done|done|lia|lia|done|].
      split; [done|]. by apply (shuffle_trans a b data d3).
    + (* the pivot equals the lower bound: split off the equal elements *)
      pose proof (partitionEqual_func_spec key d3 a b pivot2 Hp3 Hp4 ltac:(lia)) as Hpart.
      destruct (partitionEqual_func less d3 a b pivot2) as [d4 mid].
      cbn [fst snd] in Hpart. destruct Hpart as (Hsh4 & Hm1 & Hm2 & Hlo & Hhi).
      assert (Hsh14 : shuffle a b data d4) by (by apply (shuffle_trans a b data d3)).
      assert (Hlen4 : length d4 = length data) by apply (shuffle_length _ _ _ _ Hsh14).
      assert (Hmin : allOn key (fun k => K d3 pivot2 <= k)%Z a b d4).
      { apply (shuffle_allOn key _ a b a b d3); [done|lia|lia|].
        intros k Hk1 Hk2. etrans; [exact Hequal|]. by apply Hlow3. }
      destruct (IH d4 mid b limit1 wb wp) as [Hsr Hshr].
      * lia.
      * lia.
      * lia.
      * intros _ k Hk1 Hk2.
        specialize (Hlo (mid - 1) ltac:(lia) ltac:(lia)).
        specialize (Hhi k ltac:(lia) ltac:(lia)). simpl in *. lia.
      * split.
        -- apply (sortedOn_split a mid b).
           ++ apply (sortedOn_outside key a mid mid b d4); [done|lia|].
              intros i j Hi Hij Hj.
              specialize (Hlo i ltac:(lia) ltac:(lia)).
              specialize (Hmin j ltac:(lia) ltac:(lia)). simpl in Hlo, Hmin. lia.
           ++ done.
           ++ intros i j Hi1 Hi2 Hj1 Hj2.
              rewrite (keyAt_outside key mid b d4 _ i Hshr) by lia.
              specialize (Hlo i ltac:(lia) ltac:(lia)).
              assert (Hhi' : allOn key (fun k => K d3 pivot2 < k)%Z mid b
                               (pdqsort_loop less next fuel d4 mid b limit1 wb wp)).
              { by apply (shuffle_allOn key _ mid b mid b d4); [|lia|lia|]. }
              specialize (Hhi' j ltac:(lia) ltac:(lia)). simpl in *. lia.
        -- apply (shuffle_trans a b data d4); [done|].
           apply (shuffle_mono mid b); [lia..|done].
Qed.
End pdqsort.

(** *** [sort.Slice] sorts, and is stable on short slices *)

Section sort_Slice_facts.
Context {A : Type}.
Variable key : A -> Z.
Variable next : Z -> Z.
Implicit Types l data : list A.

Local Abbreviation less := (lessBy key).
Local Abbreviation ordered := (StronglySorted (fun x y => key x <= key y)).

Lemma lowerBound_0 (b : nat) data : lowerBound key 0 b data.
Proof. intros H. lia. Qed.

Lemma sortedOn_ordered l : sortedOn key 0 (length l) l -> ordered l.
Proof.
  induction l as [|x l IH]; intros Hs; [constructor|]. constructor.
  - apply IH. intros i j Hi Hij Hj.
    apply (Hs (S i) (S j)); simpl in *; lia.
  - apply Forall_forall. intros y Hy.
    apply list_elem_of_lookup in Hy as [i Hi].
    pose proof (lookup_lt_Some _ _ _ Hi) as Hlt.
    specialize (Hs 0%nat (S i) ltac:(lia) ltac:(lia) ltac:(simpl; lia)).
    unfold keyAt in Hs. simpl in Hs. by rewrite Hi in Hs.
Qed.

Lemma sort_Slice_sortedOn data :
  sortedOn key 0 (length data) (sort_Slice less next data).
Proof.
  unfold sort_Slice, pdqsort_func.
  apply pdqsort_loop_spec; [lia|lia|lia|apply lowerBound_0].
Qed.

Lemma sort_Slice_ordered data : ordered (sort_Slice less next data).
Proof.
  apply sortedOn_ordered. rewrite sort_Slice_length. apply sort_Slice_sortedOn.
Qed.

(** Up to [maxInsertion] elements [sort.Slice] is an insertion sort. *)
Lemma sort_Slice_short data :
  (length data <= maxInsertion)%nat ->
  sort_Slice less next data = insertionSort_func less data 0 (length data).
Proof.
  intros Hlen. unfold sort_Slice, pdqsort_func. cbn [pdqsort_loop].
  rewrite Nat.sub_0_r. by destruct (Nat.leb_spec (length data) maxInsertion); [|lia].
Qed.

Lemma sort_Slice_short_withKey data (t : Z) :
  (length data <= maxInsertion)%nat ->
  withKey key t (sort_Slice less next data) = withKey key t data.
Proof.
  intros Hlen. rewrite sort_Slice_short by done.
  by destruct (insertionSort_func_spec key 0 (length data) data) as (_ & _ & ->).
Qed.

(** **** The stable sort *)

Lemma withKey_cons (t : Z) (x : A) l :
  withKey key t (x :: l) = if decide (key x = t) then x :: withKey key t l else withKey key t l.
Proof. unfold withKey. rewrite filter_cons. by destruct (decide (key x = t)). Qed.

Lemma withKey_app (t : Z) l1 l2 :
  withKey key t (l1 ++ l2) = withKey key t l1 ++ withKey key t l2.
Proof. apply filter_app. Qed.

Lemma withKey_above (t : Z) l :
  Forall (fun y => t < key y) l -> withKey key t l = [].
Proof.
  induction 1 as [|y l Hy _ IH]; [done|].
  rewrite withKey_cons, IH. destruct (decide (key y = t)); [lia|done].
Qed.

Lemma insertStable_perm (x : A) l : insertStable key x l ≡ₚ x :: l.
Proof.
  induction l as [|y l IH]; [done|]. simpl.
  destruct (key x <? key y); [done|]. rewrite IH. apply Permutation_swap.
Qed.

Lemma insertStable_ordered (x : A) l : ordered l -> ordered (insertStable key x l).
Proof.
  induction 1 as [|y l Hs IH Hy]; simpl; [by repeat constructor|].
  destruct (Z.ltb_spec (key x) (key y)) as [Hlt|Hge].
  - constructor; [by constructor|]. constructor; [lia|].
    eapply Forall_impl; [exact Hy|]. simpl. intros; lia.
  - constructor; [done|]. rewrite insertStable_perm. by constructor.
Qed.

Lemma insertStable_withKey (x : A) l (t : Z) :
  ordered l ->
  withKey key t (insertStable key x l)
  = if decide (key x = t) then withKey key t l ++ [x] else withKey key t l.
Proof.
  induction 1 as [|y l Hs IH Hy]; simpl.
  { rewrite withKey_cons. by destruct (decide (key x = t)). }
  destruct (Z.ltb_spec (key x) (key y)) as [Hlt|Hge].
  - rewrite (withKey_cons t x). destruct (decide (key x = t)) as [<-|]; [|done].
    rewrite (withKey_above (key x) (y :: l)); [done|].
    constructor; [done|]. eapply Forall_impl; [exact Hy|]. simpl. intros; lia.
  - rewrite !(withKey_cons t y), IH.
    by destruct (decide (key y = t)), (decide (key x = t)).
Qed.

Lemma stableSort_fold l (sorted : list A) :
  ordered sorted ->
  let res := fold_left (fun sorted x => insertStable key x sorted) l sorted in
  ordered res /\ res ≡ₚ sorted ++ l /\
  forall t, withKey key t res = withKey key t sorted ++ withKey key t l.
Proof.
  revert sorted. induction l as [|x l IH]; intros sorted Hs; simpl.
  { split_and!; [done|by rewrite app_nil_r|]. intros t. unfold withKey at 3.
    by rewrite filter_nil, app_nil_r. }
  destruct (IH (insertStable key x sorted)) as (H1 & H2 & H3);
    [by apply insertStable_ordered|].
  split_and!; [done| |].
  - rewrite H2, insertStable_perm. apply Permutation_middle.
  - intros t. rewrite H3, insertStable_withKey, (withKey_cons t x) by done.
    destruct (decide (key x = t)); [by rewrite <- app_assoc|done].
Qed.

Lemma stableSort_ordered l : ordered (stableSort key l).
Proof. apply (stableSort_fold l []). constructor. Qed.

Lemma stableSort_perm l : stableSort key l ≡ₚ l.
Proof. apply (stableSort_fold l []). constructor. Qed.

Lemma stableSort_withKey l (t : Z) : withKey key t (stableSort key l) = withKey key t l.
Proof. destruct (stableSort_fold l []) as (_ & _ & H); [constructor|]. apply H. Qed.

(** An ordered list is determined by its elements of each key, in order. *)
Lemma ordered_withKey_unique l1 l2 :
  ordered l1 -> ordered l2 ->
  (forall t, withKey key t l1 = withKey key t l2) -> l1 = l2.
Proof.
  intros H1. revert l2. induction H1 as [|x l1 Hs1 IH Hx]; intros l2 H2 Hkeys.
  { destruct l2 as [|y l2]; [done|]. specialize (Hkeys (key y)).
    rewrite withKey_cons in Hkeys. by destruct (decide (key y = key y)). }
  destruct H2 as [|y l2 Hs2 Hy].
  { specialize (Hkeys (key x)). rewrite withKey_cons in Hkeys.
    by destruct (decide (key x = key x)). }
  assert (Hxy : key x = key y).
  { destruct (Z.lt_trichotomy (key x) (key y)) as [Hlt|[Heq|Hgt]]; [|done|].
    - specialize (Hkeys (key x)). rewrite (withKey_cons _ x) in Hkeys.
      rewrite (withKey_above (key x) (y :: l2)) in Hkeys.
      + by destruct (decide (key x = key x)).
      + constructor; [done|]. eapply Forall_impl; [exact Hy|]. simpl. intros; lia.
    - specialize (Hkeys (key y)). rewrite (withKey_cons _ y) in Hkeys.
      rewrite (withKey_above (key y) (x :: l1)) in Hkeys.
      + by destruct (decide (key y = key y)).
      + constructor; [lia|]. eapply Forall_impl; [exact Hx|]. simpl. intros; lia. }
  assert (x = y) as ->.
  { specialize (Hkeys (key x)). rewrite !withKey_cons in Hkeys.
    destruct (decide (key x = key x)); [|done].
    destruct (decide (key y = key x)); [|congruence]. congruence. }
  f_equal. apply IH; [done|]. intros t. specialize (Hkeys t).
  rewrite !withKey_cons in Hkeys. destruct (decide (key y = t)); congruence.
Qed.

(** On slices of at most [maxInsertion] elements [sort.Slice] is the stable
    sort. *)
Lemma sort_Slice_short_stable data :
  (length data <= maxInsertion)%nat ->
  sort_Slice less next data = stableSort key data.
Proof.
  intros Hlen. apply ordered_withKey_unique.
  - apply sort_Slice_ordered.
  - apply stableSort_ordered.
  - intros t. by rewrite sort_Slice_short_withKey, stableSort_withKey.
Qed.
End sort_Slice_facts.

(** ** Strings *)

Lemma eqb_string_true (s t : string) : String.eqb s t = true <-> s = t.
Proof. apply String.eqb_eq. Qed.

Lemma eqb_string_false (s t : string) : String.eqb s t = false <-> s <> t.
Proof. apply String.eqb_neq. Qed.

(** ** The replay of a history *)

Section replay_facts.
Variable maintainers : list string.
Variable issueAuthor : string.

Lemma replay_snoc (earlier : list TimelineEvent) (final : TimelineEvent) :
  exists st,
    replayHistoryToFindState (earlier ++ [final]) maintainers issueAuthor
    = Some (replayStep maintainers issueAuthor st final).
Proof.
  unfold replayHistoryToFindState.
  destruct (earlier ++ [final]) as [|first rest] eqn:E.
  { by destruct earlier. }
  rewrite <- E, fold_left_app. simpl. eauto.
Qed.

Lemma replay_nonempty (history : list TimelineEvent) :
  history <> [] ->
  exists earlier final st,
    history = earlier ++ [final] /\
    replayHistoryToFindState history maintainers issueAuthor
    = Some (replayStep maintainers issueAuthor st final).
Proof.
  intros Hne. destruct history as [|final earlier _] using rev_ind; [done|].
  destruct (replay_snoc earlier final) as [st Hst]. eauto 6.
Qed.
End replay_facts.

(** C8.  After the replay, [last_comment_text] is the body of the final event
    when that event is a [commented] event carrying its text, and is none when
    the final event is of any other kind, whatever came earlier in the
    timeline. *)
Theorem last_comment_text_is_final_event
    (maintainers : list string) (issueAuthor : string)
    (earlier : list TimelineEvent) (final : TimelineEvent) :
  exists state,
    replayHistoryToFindState (earlier ++ [final]) maintainers issueAuthor = Some state /\
    (Type_ final = "commented" ->
       forall text, Data final = Str text -> LastCommentText state = Some text) /\
    (Type_ final <> "commented" -> LastCommentText state = None).
Proof.
  destruct (replay_snoc maintainers issueAuthor earlier final) as [st Hst].
  eexists. split; [exact Hst|]. unfold replayStep. simpl. split.
  - intros Hty text Hdata. rewrite Hty, Hdata. reflexivity.
  - intros Hty. apply eqb_string_false in Hty. by rewrite Hty.
Qed.

(** ** What [buildHistoryTimeline] emits *)

Lemma keepLatest_fold_spec (ts : list time_Time) (last : option time_Time) :
  match fold_left keepLatest ts last with
  | None => ts = [] /\ last = None
  | Some t =>
      (t ∈ ts \/ last = Some t) /\
      Forall (fun u => u <= t) ts /\
      (forall l, last = Some l -> l <= t)
  end.
Proof.
  revert last. induction ts as [|u ts IH]; intros last; simpl.
  { destruct last; [|done]. split_and!; [by right|done|]. intros l [= ->]. lia. }
  specialize (IH (keepLatest last u)).
  destruct (fold_left keepLatest ts (keepLatest last u)) as [t|].
  - destruct IH as (Hin & Hall & Hlast).
    assert (Hu : u <= t /\ (forall l, last = Some l -> l <= t)).
    { unfold keepLatest, After in Hlast. destruct last as [l|].
      - destruct (l <? u) eqn:E.
        + apply Z.ltb_lt in E. specialize (Hlast u eq_refl).
          split; [done|]. intros ? [= <-]. lia.
        + apply Z.ltb_ge in E. specialize (Hlast l eq_refl).
          split; [lia|]. by intros ? [= <-].
      - specialize (Hlast u eq_refl). split; [done|]. done. }
    destruct Hu as [Hu Hl]. split_and!; [|by constructor|done].
    destruct Hin as [Hin|Hin]; [left; by right|].
    unfold keepLatest, After in Hin. destruct last as [l|].
    + destruct (l <? u); simplify_eq; [left; by left|by right].
    + simplify_eq. left; by left.
  - destruct IH as [_ IH]. unfold keepLatest in IH. by repeat case_match.
Qed.

Lemma fold_left_cons {A B : Type} (f : A -> B -> A) (x : B) (l : list B) (a : A) :
  fold_left f (x :: l) a = fold_left f l (f a x).
Proof. reflexivity. Qed.

Section builder_facts.
Variable rt : GoRuntime.

Lemma commentStep_spec (history : list TimelineEvent) (last : option time_Time)
    (node : any) :
  commentStep rt (history, last) node
  = (history ++ commentEvents rt node,
     if isBotAlert node then keepLatest last (commentTime rt node) else last).
Proof.
  unfold commentEvents, commentStep, isBotAlert, commentTime, keepLatest.
  destruct (asMap node) as [c|]; simpl; [|by rewrite app_nil_r].
  destruct (strings_Contains _ _).
  - destruct last as [l|]; simpl; rewrite ?app_nil_r; [|done].
    by destruct (After _ l); simpl; rewrite ?app_nil_r.
  - destruct (negb _); simpl; by rewrite ?app_nil_r.
Qed.

Lemma comments_fold (nodes : list any) (history : list TimelineEvent)
    (last : option time_Time) :
  fold_left (commentStep rt) nodes (history, last)
  = (history ++ (nodes ≫= commentEvents rt),
     fold_left keepLatest
       (commentTime rt <$> filter (fun node => isBotAlert node = true) nodes) last).
Proof.
  revert history last. induction nodes as [|node nodes IH]; intros history last.
  { simpl. by rewrite app_nil_r. }
  rewrite fold_left_cons, commentStep_spec, IH, bind_cons, <- app_assoc. f_equal.
  rewrite filter_cons. destruct (isBotAlert node) eqn:E.
  - rewrite decide_True by done. done.
  - rewrite decide_False by done. done.
Qed.

Lemma editStep_spec (history : list TimelineEvent) (node : any) :
  editStep rt history node = history ++ editEvents rt node.
Proof.
  unfold editEvents, editStep.
  destruct (asMap node) as [e|]; simpl; [|by rewrite app_nil_r].
  destruct (negb _); simpl; by rewrite ?app_nil_r.
Qed.

Lemma edits_fold (nodes : list any) (history : list TimelineEvent) :
  fold_left (editStep rt) nodes history = history ++ (nodes ≫= editEvents rt).
Proof.
  revert history. induction nodes as [|node nodes IH]; intros history.
  { simpl. by rewrite app_nil_r. }
  by rewrite fold_left_cons, editStep_spec, IH, bind_cons, <- app_assoc.
Qed.

Lemma timelineStep_spec (history : list TimelineEvent) (labelEvents : list time_Time)
    (node : any) :
  timelineStep rt (history, labelEvents) node
  = (history ++ timelineEvents rt node, labelEvents ++ staleLabelTimes rt node).
Proof.
  unfold timelineEvents, staleLabelTimes, timelineStep.
  destruct (asMap node) as [t|]; simpl; [|by rewrite !app_nil_r].
  repeat (case_match; simpl); by rewrite ?app_nil_r.
Qed.

Lemma timeline_fold (nodes : list any) (history : list TimelineEvent)
    (labelEvents : list time_Time) :
  fold_left (timelineStep rt) nodes (history, labelEvents)
  = (history ++ (nodes ≫= timelineEvents rt),
     labelEvents ++ (nodes ≫= staleLabelTimes rt)).
Proof.
  revert history labelEvents.
  induction nodes as [|node nodes IH]; intros history labelEvents.
  { simpl. by rewrite !app_nil_r. }
  by rewrite fold_left_cons, timelineStep_spec, IH, !bind_cons, <- !app_assoc.
Qed.

(** The emission order: the creation, then the comments, then the
    description edits, then the timeline items, each in source order. *)
Lemma emitHistory_spec (data : gmap string any) :
  emitHistory rt data
  = (createdEvent rt data
       :: (nodesOf data "comments" ≫= commentEvents rt)
       ++ (nodesOf data "userContentEdits" ≫= editEvents rt)
       ++ (nodesOf data "timelineItems" ≫= timelineEvents rt),
     nodesOf data "timelineItems" ≫= staleLabelTimes rt,
     fold_left keepLatest (botAlertTimes rt data) None).
Proof.
  unfold emitHistory. rewrite comments_fold, edits_fold, timeline_fold.
  simpl. by rewrite <- !app_assoc.
Qed.

Lemma buildHistoryTimeline_spec (data : gmap string any) :
  buildHistoryTimeline rt data
  = (sort_Slice byTime (xorshift_Next rt) (emitHistory rt data).1.1,
     nodesOf data "timelineItems" ≫= staleLabelTimes rt,
     fold_left keepLatest (botAlertTimes rt data) None).
Proof. unfold buildHistoryTimeline. by rewrite emitHistory_spec. Qed.

Lemma buildHistoryTimeline_perm (data : gmap string any) :
  (buildHistoryTimeline rt data).1.1 ≡ₚ (emitHistory rt data).1.1.
Proof. rewrite buildHistoryTimeline_spec. apply sort_Slice_perm. Qed.

Lemma buildHistoryTimeline_nonempty (data : gmap string any) :
  (buildHistoryTimeline rt data).1.1 <> [].
Proof.
  intros E. pose proof (buildHistoryTimeline_perm data) as H.
  rewrite E, emitHistory_spec in H. simpl in H.
  by apply Permutation_nil_cons in H.
Qed.
End builder_facts.

Section builder_claims.
Variable rt : GoRuntime.

Lemma commentEvents_alert (node : any) :
  isBotAlert node = true -> commentEvents rt node = [].
Proof.
  unfold isBotAlert, commentEvents, commentStep.
  destruct (asMap node) as [c|]; [|done]. by intros ->.
Qed.

(** A [commented] event comes from a comment that does not match the
    signature, and carries that comment's body. *)
Lemma commentEvents_inv (node : any) (e : TimelineEvent) :
  e ∈ commentEvents rt node ->
  commentEvents rt node = [e] /\ isBotAlert node = false /\
  Type_ e = "commented" /\
  exists c, asMap node = Some c /\ Data e = Str (stringOrZero (index c "body")).
Proof.
  unfold isBotAlert, commentEvents, commentStep.
  destruct (asMap node) as [c|]; simpl; [|by intros ?%elem_of_nil].
  destruct (strings_Contains _ _); simpl; [by intros ?%elem_of_nil|].
  destruct (negb _); simpl; [|by intros ?%elem_of_nil].
  intros ->%list_elem_of_singleton. eauto 6.
Qed.

Lemma editEvents_inv (node : any) (e : TimelineEvent) :
  e ∈ editEvents rt node -> Type_ e = "edited_description".
Proof.
  unfold editEvents, editStep.
  destruct (asMap node) as [c|]; simpl; [|by intros ?%elem_of_nil].
  destruct (negb _); simpl; [|by intros ?%elem_of_nil].
  by intros ->%list_elem_of_singleton.
Qed.

Lemma timelineEvents_inv (node : any) (e : TimelineEvent) :
  e ∈ timelineEvents rt node ->
  isLabeledEvent node = false /\
  (Type_ e = "renamed_title" \/ Type_ e = "reopened").
Proof.
  unfold timelineEvents, timelineStep, isLabeledEvent.
  destruct (asMap node) as [c|]; simpl; [|by intros ?%elem_of_nil].
  destruct (String.eqb _ "LabeledEvent"); simpl.
  { case_match; by intros ?%elem_of_nil. }
  destruct (negb _); simpl; [|by intros ?%elem_of_nil].
  intros ->%list_elem_of_singleton. simpl. split; [done|].
  case_match; auto.
Qed.

Lemma timelineStep_labeled (node : any) :
  isLabeledEvent node = true ->
  timelineEvents rt node = [] /\
  staleLabelTimes rt node
  = if String.eqb (labelNameOf node) STALE_LABEL_NAME then [itemTime rt node] else [].
Proof.
  unfold timelineEvents, staleLabelTimes, timelineStep, isLabeledEvent, labelNameOf, itemTime.
  destruct (asMap node) as [c|]; simpl; [|done].
  intros ->. by case_match.
Qed.

Lemma staleLabelTimes_unlabeled (node : any) :
  isLabeledEvent node = false -> staleLabelTimes rt node = [].
Proof.
  unfold staleLabelTimes, timelineStep, isLabeledEvent.
  destruct (asMap node) as [c|]; simpl; [|done].
  intros ->. by case_match.
Qed.

(** The events of the emitted history, by origin. *)
Lemma emitted_event_inv (data : gmap string any) (e : TimelineEvent) :
  e ∈ (emitHistory rt data).1.1 ->
  e = createdEvent rt data \/
  (exists node, node ∈ nodesOf data "comments" /\ e ∈ commentEvents rt node) \/
  (exists node, node ∈ nodesOf data "userContentEdits" /\ e ∈ editEvents rt node) \/
  (exists node, node ∈ nodesOf data "timelineItems" /\ e ∈ timelineEvents rt node).
Proof.
  rewrite emitHistory_spec. simpl.
  rewrite elem_of_cons, !elem_of_app, !list_elem_of_bind.
  intros [->|[H|[H|H]]]; [by left|right..].
  - left. destruct H as (node & ? & ?). eauto.
  - right; left. destruct H as (node & ? & ?). eauto.
  - right; right. destruct H as (node & ? & ?). eauto.
Qed.

(** C3.  A comment whose body matches the bot-alert signature adds nothing
    to the history, whoever its author is; the commented events of the built
    timeline all come from comments that do not match; and the last bot-alert
    result is the maximum of the timestamps of the matching comments, or none
    when no comment matches. *)
Theorem bot_alert_comments_feed_only_the_dedup_time (data : gmap string any) :
  (forall node history last,
     isBotAlert node = true ->
     (commentStep rt (history, last) node).1 = history) /\
  (forall e,
     e ∈ (buildHistoryTimeline rt data).1.1 -> Type_ e = "commented" ->
     exists node c,
       node ∈ nodesOf data "comments" /\ isBotAlert node = false /\
       asMap node = Some c /\
       Data e = Str (stringOrZero (index c "body")) /\
       strings_Contains (stringOrZero (index c "body")) BOT_ALERT_SIGNATURE = false) /\
  match (buildHistoryTimeline rt data).2 with
  | None => botAlertTimes rt data = []
  | Some t =>
      t ∈ botAlertTimes rt data /\ Forall (fun u => u <= t) (botAlertTimes rt data)
  end.
Proof.
  split_and!.
  - intros node history last Hm.
    by rewrite commentStep_spec, (commentEvents_alert _ Hm), app_nil_r.
  - intros e He Hty. rewrite (buildHistoryTimeline_perm rt data) in He.
    apply emitted_event_inv in He as [->|[H|[H|H]]]; [done|..].
    + destruct H as (node & Hnode & He).
      apply commentEvents_inv in He as (_ & Hm & _ & c & Hc & Hd).
      exists node, c. split_and!; try done.
      unfold isBotAlert in Hm. by rewrite Hc in Hm.
    + destruct H as (node & _ & He). apply editEvents_inv in He. congruence.
    + destruct H as (node & _ & He).
      apply timelineEvents_inv in He as [_ [?|?]]; congruence.
  - rewrite buildHistoryTimeline_spec. simpl.
    pose proof (keepLatest_fold_spec (botAlertTimes rt data) None) as H.
    destruct (fold_left keepLatest (botAlertTimes rt data) None) as [t|].
    + destruct H as ([?|?] & ? & _); done.
    + by destruct H.
Qed.

Lemma ordered_snoc_max (earlier : list TimelineEvent) (final e : TimelineEvent) :
  StronglySorted (fun x y => Time x <= Time y) (earlier ++ [final]) ->
  e ∈ earlier ++ [final] -> Time e <= Time final.
Proof.
  induction earlier as [|x earlier IH]; simpl; intros Hs He.
  - apply list_elem_of_singleton in He as ->. lia.
  - apply StronglySorted_inv in Hs as [Hs Hx].
    apply elem_of_cons in He as [->|He]; [|by apply IH].
    rewrite Forall_forall in Hx. apply Hx. apply elem_of_app. right. by left.
Qed.

(** C2, as the code has it.  The history is emitted in the order creation,
    comments, description edits, timeline items, each in source order, and
    [sort.Slice] returns a permutation of it in nondecreasing order of
    [Time].  [sort.Slice] is not a stable sort.  When at most [maxInsertion]
    (twelve) events were emitted it is an insertion sort: the events of each
    timestamp keep their emission order, the timeline is the stable sort of
    the emitted events, and the final event, which the replay reports, is the
    last emitted one among those of the latest timestamp.  On longer
    histories events of one timestamp may change places. *)
Theorem timeline_sorted_by_time (data : gmap string any) :
  let emitted := (emitHistory rt data).1.1 in
  let timeline := (buildHistoryTimeline rt data).1.1 in
  emitted
  = createdEvent rt data
      :: (nodesOf data "comments" ≫= commentEvents rt)
      ++ (nodesOf data "userContentEdits" ≫= editEvents rt)
      ++ (nodesOf data "timelineItems" ≫= timelineEvents rt) /\
  timeline ≡ₚ emitted /\
  StronglySorted (fun x y => Time x <= Time y) timeline /\
  ((length emitted <= maxInsertion)%nat ->
     (forall t, withKey Time t timeline = withKey Time t emitted) /\
     timeline = stableSort Time emitted /\
     exists earlier final,
       timeline = earlier ++ [final] /\
       (forall e, e ∈ emitted -> Time e <= Time final) /\
       last (withKey Time (Time final) emitted) = Some final /\
       forall maintainers issueAuthor, exists st,
         replayHistoryToFindState timeline maintainers issueAuthor
         = Some (replayStep maintainers issueAuthor st final)).
Proof.
  intros emitted timeline.
  assert (Htl : timeline = sort_Slice (lessBy Time) (xorshift_Next rt) emitted).
  { subst timeline emitted. by rewrite buildHistoryTimeline_spec, emitHistory_spec. }
  assert (Hsorted : StronglySorted (fun x y => Time x <= Time y) timeline).
  { rewrite Htl. apply sort_Slice_ordered. }
  split_and!.
  - subst emitted. by rewrite emitHistory_spec.
  - apply buildHistoryTimeline_perm.
  - done.
  - intros Hlen.
    assert (Hkeys : forall t, withKey Time t timeline = withKey Time t emitted).
    { intros t. rewrite Htl. by apply sort_Slice_short_withKey. }
    split_and!; [done|rewrite Htl; by apply sort_Slice_short_stable|].
    pose proof (buildHistoryTimeline_nonempty rt data) as Hne.
    pose proof (buildHistoryTimeline_perm rt data) as Hperm.
    fold timeline in Hne, Hperm. fold emitted in Hperm.
    destruct timeline as [|final earlier _] using rev_ind; [done|].
    exists earlier, final. split_and!.
    + done.
    + intros e He. apply (ordered_snoc_max earlier); [done|].
      by rewrite Hperm.
    + rewrite <- Hkeys, withKey_app, withKey_cons.
      case_decide; [|done]. apply last_snoc.
    + intros maintainers issueAuthor. apply replay_snoc.
Qed.
End builder_claims.

(** ** Label applications *)

Lemma index_insert_eq (m : gmap string any) (k : string) (v : any) :
  index (<[k := v]> m) k = v.
Proof. unfold index. by rewrite lookup_insert_eq. Qed.

Lemma index_insert_ne (m : gmap string any) (k k' : string) (v : any) :
  k <> k' -> index (<[k := v]> m) k' = index m k'.
Proof. intros. unfold index. by rewrite lookup_insert_ne. Qed.

Lemma index_withoutLabeledEvents (data : gmap string any) (k : string) :
  k <> "timelineItems" -> index (withoutLabeledEvents data) k = index data k.
Proof.
  intros Hk. unfold withoutLabeledEvents.
  repeat case_match; try done. by apply index_insert_ne.
Qed.

Lemma nodesOf_withoutLabeledEvents (data : gmap string any) :
  nodesOf (withoutLabeledEvents data) "timelineItems"
  = filter (fun n => isLabeledEvent n = false) (nodesOf data "timelineItems").
Proof.
  unfold withoutLabeledEvents, nodesOf.
  destruct (asMap (index data "timelineItems")) as [timeline|] eqn:E1.
  - destruct (asSlice (index timeline "nodes")) as [nodes|] eqn:E2.
    + by rewrite index_insert_eq; simpl; rewrite index_insert_eq.
    + by rewrite E1, E2.
  - by rewrite E1.
Qed.

Section label_claims.
Variable rt : GoRuntime.

Lemma timelineEvents_filter (nodes : list any) :
  filter (fun n => isLabeledEvent n = false) nodes ≫= timelineEvents rt
  = nodes ≫= timelineEvents rt.
Proof.
  induction nodes as [|node nodes IH]; [done|].
  rewrite filter_cons, bind_cons. destruct (isLabeledEvent node) eqn:E.
  - rewrite decide_False by done.
    by destruct (timelineStep_labeled rt node E) as [-> _].
  - rewrite decide_True by done. by rewrite bind_cons, IH.
Qed.

Lemma staleLabelTimes_bind (nodes : list any) :
  nodes ≫= staleLabelTimes rt
  = itemTime rt <$>
      filter (fun n => isLabeledEvent n = true /\ labelNameOf n = STALE_LABEL_NAME) nodes.
Proof.
  induction nodes as [|node nodes IH]; [done|].
  rewrite filter_cons, bind_cons, IH. destruct (isLabeledEvent node) eqn:E.
  - destruct (timelineStep_labeled rt node E) as [_ ->].
    destruct (String.eqb _ _) eqn:En.
    + apply eqb_string_true in En. by rewrite decide_True.
    + apply eqb_string_false in En. rewrite decide_False; [done|]. by intros [_ ?].
  - rewrite (staleLabelTimes_unlabeled rt node E).
    rewrite decide_False; [done|]. by intros [? _].
Qed.

Lemma emitHistory_withoutLabeledEvents (data : gmap string any) :
  (emitHistory rt (withoutLabeledEvents data)).1.1 = (emitHistory rt data).1.1.
Proof.
  rewrite !emitHistory_spec. simpl.
  rewrite nodesOf_withoutLabeledEvents, timelineEvents_filter.
  unfold createdEvent, loginOf, nodesOf.
  by rewrite !index_withoutLabeledEvents.
Qed.

(** C10.  A label-applied timeline item never puts an event into the
    history, whatever the label and the actor: it adds its timestamp to the
    stale-label timestamps when the label is the stale label and nothing
    otherwise.  Hence the built timeline, and the state replayed from it, are
    those of the snapshot without its label-applied items; the recorded
    timestamps are those of the stale-label applications; and every event of
    the timeline is of one of the five activity kinds. *)
Theorem label_applications_are_not_activity (data : gmap string any) :
  (forall node history labelEvents,
     isLabeledEvent node = true ->
     timelineStep rt (history, labelEvents) node
     = (history,
        if String.eqb (labelNameOf node) STALE_LABEL_NAME
        then labelEvents ++ [itemTime rt node] else labelEvents)) /\
  (buildHistoryTimeline rt data).1.1
  = (buildHistoryTimeline rt (withoutLabeledEvents data)).1.1 /\
  (forall maintainers,
     replayHistoryToFindState (buildHistoryTimeline rt data).1.1
       maintainers (loginOf data "author")
     = replayHistoryToFindState (buildHistoryTimeline rt (withoutLabeledEvents data)).1.1
         maintainers (loginOf (withoutLabeledEvents data) "author")) /\
  (buildHistoryTimeline rt data).1.2
  = itemTime rt <$>
      filter (fun n => isLabeledEvent n = true /\ labelNameOf n = STALE_LABEL_NAME)
             (nodesOf data "timelineItems") /\
  (forall e,
     e ∈ (buildHistoryTimeline rt data).1.1 ->
     Type_ e ∈ ["created"; "commented"; "edited_description"; "renamed_title"; "reopened"]).
Proof.
  assert (Hsame : (buildHistoryTimeline rt data).1.1
                  = (buildHistoryTimeline rt (withoutLabeledEvents data)).1.1).
  { rewrite !buildHistoryTimeline_spec. simpl.
    by rewrite emitHistory_withoutLabeledEvents. }
  split_and!.
  - intros node history labelEvents Hl.
    rewrite timelineStep_spec.
    destruct (timelineStep_labeled rt node Hl) as [-> ->].
    rewrite app_nil_r. f_equal. case_match; [done|by rewrite app_nil_r].
  - exact Hsame.
  - intros maintainers. rewrite <- Hsame. f_equal.
    unfold loginOf. by rewrite index_withoutLabeledEvents.
  - rewrite buildHistoryTimeline_spec. simpl. apply staleLabelTimes_bind.
  - intros e He. rewrite (buildHistoryTimeline_perm rt data) in He.
    apply emitted_event_inv in He as [->|[H|[H|H]]].
    + simpl. set_solver.
    + destruct H as (node & _ & He).
      apply commentEvents_inv in He as (_ & _ & -> & _). set_solver.
    + destruct H as (node & _ & He). apply editEvents_inv in He as ->. set_solver.
    + destruct H as (node & _ & He).
      apply timelineEvents_inv in He as [_ [->| ->]]; set_solver.
Qed.
End label_claims.

(** ** Running effects *)

Lemma bind_returned {A B : Type} (m : M A) (k : A -> M B) (w w' : World) (a : A) :
  m w = (Returned a, w') -> (m ≫= k) w = k a w'.
Proof. unfold mbind, M_bind. by intros ->. Qed.

Lemma bind_panicked {A B : Type} (m : M A) (k : A -> M B) (w w' : World) (r : string) :
  m w = (Panicked r, w') -> (m ≫= k) w = (Panicked r, w').
Proof. unfold mbind, M_bind. by intros ->. Qed.

(** ** util.go: the request helpers *)

Lemma doRequest_loop_returns (left : nat) (req : Request) (backoff : Duration) (w : World) :
  exists r w',
    doRequest_loop left req backoff w = (Returned r, w') /\
    apiCallCount w' = apiCallCount w /\ quiet w w'.
Proof.
  revert backoff w. induction left as [|left IH]; intros backoff w; simpl.
  - unfold mbind, M_bind, httpClient_Do. simpl.
    destruct (network w (length (requests w))) as [resp|e];
      [destruct (negb _)|]; by repeat esplit.
  - unfold mbind, M_bind, httpClient_Do, time_Sleep. simpl.
    destruct (network w (length (requests w))) as [resp|e];
      [destruct (negb _); [by repeat esplit|]|];
      match goal with
      | |- context [doRequest_loop left req ?b ?w0] =>
          destruct (IH b w0) as (r & w' & Hr & Hc & Hq1 & Hq2)
      end;
      rewrite Hr; by repeat esplit.
Qed.

Lemma doRequest_loop_retries (k left : nat) (req : Request) (backoff : Duration)
    (w : World) (resp : Response) :
  (k <= left)%nat ->
  (forall i, (i < k)%nat -> transient (network w (length (requests w) + i)) = true) ->
  network w (length (requests w) + k) = Ok resp ->
  transient (Ok resp) = false ->
  doRequest_loop left req backoff w
  = (Returned (Ok resp),
     mkWorld (apiCallCount w) (maintainersCache w) (network w)
       (requests w ++ replicate (S k) req)
       (slept w ++ backoffs k backoff)
       (clock w + foldr (fun d t => Z.max d 0 + t) 0 (backoffs k backoff))).
Proof.
  revert left backoff w. induction k as [|k IH]; intros left backoff w Hk Htr Hok Hnot.
  - rewrite Nat.add_0_r in Hok. simpl in Hnot.
    destruct left; simpl; unfold mbind, M_bind, httpClient_Do; simpl;
      rewrite Hok, Hnot; simpl; by rewrite app_nil_r, Z.add_0_r.
  - destruct left as [|left]; [lia|].
    pose proof (Htr O ltac:(lia)) as H0. rewrite Nat.add_0_r in H0.
    simpl. unfold mbind at 1, M_bind at 1, httpClient_Do at 1. simpl.
    set (w1 := mkWorld _ _ _ (requests w ++ [req]) _ _).
    assert (Hstep : (time_Sleep backoff ≫= fun _ =>
                       doRequest_loop left req (int_mul backoff backoffFactor)) w1
                    = (Returned (Ok resp),
                       mkWorld (apiCallCount w) (maintainersCache w) (network w)
                         (requests w ++ replicate (S (S k)) req)
                         (slept w ++ backoffs (S k) backoff)
                         (clock w + foldr (fun d t => Z.max d 0 + t) 0
                                      (backoffs (S k) backoff)))).
    { unfold mbind, M_bind, time_Sleep. simpl.
      set (w2 := mkWorld _ _ _ _ _ _).
      rewrite (IH left (int_mul backoff backoffFactor) w2).
      - subst w2 w1. simpl. f_equal. f_equal.
        + by rewrite <- app_assoc.
        + by rewrite <- app_assoc.
        + lia.
      - lia.
      - intros i Hi. subst w2 w1. simpl. rewrite length_app. simpl.
        replace (length (requests w) + 1 + i)%nat with (length (requests w) + S i)%nat by lia.
        apply Htr. lia.
      - subst w2 w1. simpl. rewrite length_app. simpl.
        replace (length (requests w) + 1 + k)%nat with (length (requests w) + S k)%nat by lia.
        done.
      - done. }
    destruct (network w (length (requests w))) as [resp0|e]; simpl in H0.
    + rewrite H0. simpl. exact Hstep.
    + exact Hstep.
Qed.

Lemma incrementAPICallCount_run (w : World) :
  incrementAPICallCount w = (Returned tt, set_apiCallCount (int_add (apiCallCount w) 1) w).
Proof. reflexivity. Qed.

Lemma int_add_one (n : Z) : minInt <= n < maxInt -> int_add n 1 = n + 1.
Proof.
  unfold int_add, int_wrap, minInt, maxInt. intros H.
  rewrite Z.mod_small; lia.
Qed.

Section util_facts.
Variable rt : GoRuntime.

(** After the increment, every helper hands a request to [doRequest] (or
    gives up before sending anything) and turns the response into its
    result. *)
Lemma after_increment_returns (w : World) (req : Request)
    (finish : Response -> Result any) :
  exists r w',
    (r0 ← doRequest req;
     match r0 with
     | Err e => mret (Err e)
     | Ok resp => mret (finish resp)
     end) (set_apiCallCount (int_add (apiCallCount w) 1) w) = (Returned r, w') /\
    apiCallCount w' = int_add (apiCallCount w) 1 /\ quiet w w'.
Proof.
  destruct (doRequest_loop_returns maxRetries req Second
              (set_apiCallCount (int_add (apiCallCount w) 1) w))
    as (r0 & w' & Hr & Hc & Hq).
  unfold doRequest. rewrite (bind_returned _ _ _ _ _ Hr).
  destruct r0; (do 2 eexists; split; [reflexivity|]; split; [exact Hc|exact Hq]).
Qed.

Lemma GetRequest_returns (rawURL : string) (params : option (gmap string any))
    (w : World) :
  exists r w',
    GetRequest rt rawURL params w = (Returned r, w') /\
    apiCallCount w' = int_add (apiCallCount w) 1 /\ quiet w w'.
Proof.
  unfold GetRequest.
  rewrite (bind_returned _ _ _ _ _ (incrementAPICallCount_run w)).
  destruct (url_Parse rt rawURL) as [u|e]; [|by repeat esplit].
  destruct (http_NewRequest rt "GET" _ None) as [req|e]; [|by repeat esplit].
  apply after_increment_returns.
Qed.

Lemma PostRequest_returns (url : string) (payload : any) (w : World) :
  exists r w',
    PostRequest rt url payload w = (Returned r, w') /\
    apiCallCount w' = int_add (apiCallCount w) 1 /\ quiet w w'.
Proof.
  unfold PostRequest.
  rewrite (bind_returned _ _ _ _ _ (incrementAPICallCount_run w)).
  destruct (http_NewRequest rt "POST" _ _) as [req|e]; [|by repeat esplit].
  apply after_increment_returns.
Qed.




End util_facts.


(** ** agent.go: the maintainer cache *)

Section agent_facts.
Variable rt : GoRuntime.
Variable cfg : Config.

Lemma getCachedMaintainers_cached (w : World) (maintainers : list string) :
  maintainersCache w = Some maintainers ->
  getCachedMaintainers rt cfg w = (Returned (Ok maintainers), w).
Proof.
  intros H. unfold getCachedMaintainers.
  rewrite (bind_returned (gets maintainersCache) _ w w _ eq_refl). by rewrite H.
Qed.

(** A call with an empty cache: one [GetRequest], and the cache is written
    exactly when the call succeeds. *)
Lemma getCachedMaintainers_first (w : World) :
  maintainersCache w = None ->
  exists r w',
    getCachedMaintainers rt cfg w = (Returned r, w') /\
    apiCallCount w' = int_add (apiCallCount w) 1 /\
    network w' = network w /\
    match r with
    | Ok maintainers => maintainersCache w' = Some maintainers
    | Err _ => maintainersCache w' = None
    end.
Proof.
  intros H. unfold getCachedMaintainers.
  rewrite (bind_returned (gets maintainersCache) _ w w _ eq_refl), H.
  match goal with
  | |- context [GetRequest rt ?u ?p] =>
      destruct (GetRequest_returns rt u p w) as (r & w' & Hr & Hc & Hq1 & Hq2)
  end.
  rewrite (bind_returned _ _ _ _ _ Hr).
  destruct r as [data|e]; [|exists (Err ("maintainer verification failed: " +:+ e)), w';
                             split_and!; [done..|congruence]].
  destruct (asSlice data) as [rawList|];
    [|exists (Err "github API returned non-list data"), w'; split_and!; [done..|congruence]].
  eexists (Ok _), _. split_and!; [reflexivity|done..].
Qed.

Lemma getCachedMaintainers_returns (w : World) :
  exists r w',
    getCachedMaintainers rt cfg w = (Returned r, w') /\ network w' = network w.
Proof.
  destruct (maintainersCache w) as [maintainers|] eqn:E.
  - exists (Ok maintainers), w. by rewrite (getCachedMaintainers_cached _ _ E).
  - destruct (getCachedMaintainers_first w E) as (r & w' & ? & _ & ? & _). eauto.
Qed.

(** C7.  Once a call of [getCachedMaintainers] has succeeded, the list it
    returned is in the cache, and every later call returns that same list and
    leaves the whole process state as it was: no request is sent and the
    API-call counter does not move.  When the cache was empty before the
    first call, that call made exactly one [GetRequest], so two calls in a
    row issue exactly one fetch. *)
Theorem maintainers_fetched_once (w w1 : World) (maintainers : list string) :
  getCachedMaintainers rt cfg w = (Returned (Ok maintainers), w1) ->
  maintainersCache w1 = Some maintainers /\
  (forall w2,
     maintainersCache w2 = maintainersCache w1 ->
     getCachedMaintainers rt cfg w2 = (Returned (Ok maintainers), w2)) /\
  (maintainersCache w = None ->
   apiCallCount w1 = int_add (apiCallCount w) 1 /\
   (r ← getCachedMaintainers rt cfg; r' ← getCachedMaintainers rt cfg; mret (r, r')) w
   = (Returned (Ok maintainers, Ok maintainers), w1)).
Proof.
  intros Hcall.
  assert (Hcache : maintainersCache w1 = Some maintainers).
  { destruct (maintainersCache w) as [ms|] eqn:E.
    - rewrite (getCachedMaintainers_cached _ _ E) in Hcall. by simplify_eq.
    - destruct (getCachedMaintainers_first w E) as (r & w' & Hr & _ & _ & Hm).
      rewrite Hr in Hcall. by simplify_eq. }
  split_and!; [done| |].
  - intros w2 H2. apply getCachedMaintainers_cached. congruence.
  - intros E. destruct (getCachedMaintainers_first w E) as (r & w' & Hr & Hc & _ & _).
    rewrite Hr in Hcall. simplify_eq. split; [done|].
    rewrite (bind_returned _ _ _ _ _ Hr).
    by rewrite (bind_returned _ _ _ _ _ (getCachedMaintainers_cached _ _ Hcache)).
Qed.
End agent_facts.

(** ** agent.go: [getIssueState] *)

Lemma hasStaleLabel_spec (labelsList : list string) :
  hasStaleLabel labelsList = true <-> STALE_LABEL_NAME ∈ labelsList.
Proof.
  induction labelsList as [|l rest IH]; simpl.
  - split; [done|by intros ?%elem_of_nil].
  - rewrite elem_of_cons. destruct (String.eqb l STALE_LABEL_NAME) eqn:E.
    + apply eqb_string_true in E. split; [by left|done].
    + apply eqb_string_false in E. rewrite IH. split; [by right|].
      intros [?|?]; [congruence|done].
Qed.

Lemma latestOf_spec (labelEvents : list time_Time) (first : time_Time) :
  (latestOf first labelEvents = first \/ latestOf first labelEvents ∈ labelEvents) /\
  first <= latestOf first labelEvents /\
  Forall (fun t => t <= latestOf first labelEvents) labelEvents.
Proof.
  unfold latestOf. revert first.
  induction labelEvents as [|t rest IH]; intros first.
  { simpl. split_and!; [by left|lia|done]. }
  rewrite fold_left_cons.
  assert (Hstep : first <= (if After t first then t else first) /\
                  t <= (if After t first then t else first) /\
                  ((if After t first then t else first) = first \/
                   (if After t first then t else first) = t)).
  { unfold After. destruct (first <? t) eqn:E;
      [apply Z.ltb_lt in E|apply Z.ltb_ge in E]; split_and!; auto; lia. }
  destruct Hstep as (H1 & H2 & H3).
  destruct (IH (if After t first then t else first)) as (Hin & Hle & Hall).
  split_and!.
  - destruct Hin as [Hin|Hin]; [|right; by right].
    rewrite Hin. destruct H3 as [->| ->]; [by left|right; by left].
  - exact (Z.le_trans _ _ _ H1 Hle).
  - constructor; [exact (Z.le_trans _ _ _ H2 Hle)|done].
Qed.

(** The latest of a non-empty list of stale-label timestamps is its maximum. *)
Lemma latestOf_max (first : time_Time) (rest : list time_Time) :
  latestOf first (first :: rest) ∈ first :: rest /\
  Forall (fun t => t <= latestOf first (first :: rest)) (first :: rest).
Proof.
  destruct (latestOf_spec (first :: rest) first) as ([E|?] & _ & ?); [|done].
  split; [|done]. rewrite E. by left.
Qed.

Lemma Sub_exact (t u : time_Time) : minInt <= t - u <= maxInt -> Sub t u = t - u.
Proof.
  intros H. unfold Sub.
  destruct (t - u <? minInt) eqn:E1; [apply Z.ltb_lt in E1; lia|].
  destruct (maxInt <? t - u) eqn:E2; [apply Z.ltb_lt in E2; lia|done].
Qed.

Section getIssueState_facts.
Variable rt : GoRuntime.
Variable cfg : Config.

(** The fact sheet of an analysis whose two fetches succeeded: [state] is
    the replayed state, [now] the instant read once from the clock. *)
Lemma getIssueState_fetched (args : IssueTargetArgs) (w w1 w2 : World)
    (maintainers : list string) (rawData : gmap string any) :
  getCachedMaintainers rt cfg w = (Returned (Ok maintainers), w1) ->
  FetchGraphQLData rt cfg (IssueNumber args) w1 = (Returned (Ok rawData), w2) ->
  exists state payload,
    replayHistoryToFindState (buildHistoryTimeline rt rawData).1.1 maintainers
      (loginOf rawData "author") = Some state /\
    getIssueState rt cfg args w = (Returned (payload, None), w2) /\
    payload !! "status" = Some (Str "success") /\
    payload !! "maintainer_alert_needed"
    = Some (Bool (maintainerAlertNeeded state (buildHistoryTimeline rt rawData).2)) /\
    payload !! "is_stale" = Some (Bool (hasStaleLabel (labelNames rawData))) /\
    payload !! "days_since_activity"
    = Some (Float64 (Hours (Sub (clock w2) (LastActivityTime state)) / 24)%float) /\
    payload !! "days_since_stale_label"
    = Some (Float64 (daysSinceStaleLabel (clock w2) (hasStaleLabel (labelNames rawData))
                       (buildHistoryTimeline rt rawData).1.2)) /\
    payload !! "last_comment_text" = Some (StrPtr (LastCommentText state)).
Proof.
  intros Hm Hf.
  destruct (replay_nonempty maintainers (loginOf rawData "author")
              (buildHistoryTimeline rt rawData).1.1
              (buildHistoryTimeline_nonempty rt rawData))
    as (earlier & final & st & _ & Hreplay).
  unfold getIssueState.
  rewrite (bind_returned _ _ _ _ _ Hm), (bind_returned _ _ _ _ _ Hf).
  destruct (buildHistoryTimeline rt rawData) as [[history labelEvents] lastBot].
  simpl in Hreplay |- *. rewrite Hreplay.
  rewrite (bind_returned time_Now _ w2 w2 (clock w2) eq_refl).
  eexists _, _. split; [reflexivity|]. split; [reflexivity|].
  split_and!; reflexivity.
Qed.
End getIssueState_facts.

Lemma maintainerAlertNeeded_spec (state : IssueState) (last : option time_Time) :
  maintainerAlertNeeded state last = true <->
  (LastActionRole state = "author" \/ LastActionRole state = "other_user") /\
  LastActionType state = "edited_description" /\
  (last = None \/ exists t, last = Some t /\ t < LastActivityTime state).
Proof.
  unfold maintainerAlertNeeded. split.
  - intros H. destruct (_ && _) eqn:E; [|done].
    apply andb_true_iff in E as [E1 E2]. apply orb_true_iff in E1.
    rewrite !eqb_string_true in E1. apply eqb_string_true in E2.
    split_and!; [done..|]. destruct last as [t|]; [right|by left].
    destruct (Before t (LastActivityTime state)) eqn:E3; [|done].
    exists t. split; [done|]. by apply Z.ltb_lt.
  - intros (Hrole & Hty & Hlast).
    assert ((String.eqb (LastActionRole state) "author"
             || String.eqb (LastActionRole state) "other_user")
            && String.eqb (LastActionType state) "edited_description" = true) as ->.
    { apply andb_true_iff. split; [|by apply eqb_string_true].
      apply orb_true_iff. by rewrite !eqb_string_true. }
    destruct Hlast as [->|(t & -> & Hlt)]; [done|].
    unfold Before. by rewrite (proj2 (Z.ltb_lt _ _) Hlt).
Qed.

Section getIssueState_claims.
Variable rt : GoRuntime.
Variable cfg : Config.

Lemma errorResponse_shape (msg : string) :
  errorResponse msg !! "status" = Some (Str "error") /\
  errorResponse msg !! "error" = Some (Str msg) /\
  dom (errorResponse msg) = ({["status"; "error"]} : gset string).
Proof.
  split_and!; [reflexivity..|].
  unfold errorResponse. simpl. rewrite !dom_insert_L, dom_empty_L. set_solver.
Qed.

(** The three ways a call of [getIssueState] can go. *)
Lemma getIssueState_cases (args : IssueTargetArgs) (w : World) :
  (exists e w1,
     getCachedMaintainers rt cfg w = (Returned (Err e), w1) /\
     getIssueState rt cfg args w
     = (Returned (errorResponse ("error getting cached maintainers: " +:+ e), None), w1)) \/
  (exists maintainers w1 e w2,
     getCachedMaintainers rt cfg w = (Returned (Ok maintainers), w1) /\
     FetchGraphQLData rt cfg (IssueNumber args) w1 = (Returned (Err e), w2) /\
     getIssueState rt cfg args w
     = (Returned (errorResponse ("network error: " +:+ e), None), w2)) \/
  (exists maintainers w1 rawData w2 payload,
     getCachedMaintainers rt cfg w = (Returned (Ok maintainers), w1) /\
     FetchGraphQLData rt cfg (IssueNumber args) w1 = (Returned (Ok rawData), w2) /\
     getIssueState rt cfg args w = (Returned (payload, None), w2) /\
     payload !! "status" = Some (Str "success")) \/
  (exists maintainers w1 reason w2,
     getCachedMaintainers rt cfg w = (Returned (Ok maintainers), w1) /\
     FetchGraphQLData rt cfg (IssueNumber args) w1 = (Panicked reason, w2) /\
     getIssueState rt cfg args w = (Panicked reason, w2)).
Proof.
  destruct (getCachedMaintainers_returns rt cfg w) as (r & w1 & Hm & _).
  destruct r as [maintainers|e].
  - destruct (FetchGraphQLData rt cfg (IssueNumber args) w1) as [[[rawData|e]|reason] w2] eqn:Hf.
    + right; right; left.
      destruct (getIssueState_fetched rt cfg args w w1 w2 maintainers rawData Hm Hf)
        as (state & payload & _ & Hrun & Hstatus & _).
      eauto 10.
    + right; left. exists maintainers, w1, e, w2. split_and!; [done..|].
      unfold getIssueState.
      by rewrite (bind_returned _ _ _ _ _ Hm), (bind_returned _ _ _ _ _ Hf).
    + right; right; right. exists maintainers, w1, reason, w2. split_and!; [done..|].
      unfold getIssueState.
      by rewrite (bind_returned _ _ _ _ _ Hm), (bind_panicked _ _ _ _ _ Hf).
  - left. exists e, w1. split; [done|].
    unfold getIssueState. by rewrite (bind_returned _ _ _ _ _ Hm).
Qed.

(** What [getIssueState] keeps of its contract, and where it leaves it.  A
    call that returns carries a nil error and a payload of status [error] or
    [success]; an error returned by [getCachedMaintainers] or
    [FetchGraphQLData] becomes the payload [{status: error, error: reason}].
    A call that does not return has panicked in [FetchGraphQLData], and the
    panic goes on to the caller. *)
Theorem getIssueState_returns_no_error (args : IssueTargetArgs) (w : World) :
  (forall payload err w',
     getIssueState rt cfg args w = (Returned (payload, err), w') ->
     err = None /\
     (payload !! "status" = Some (Str "error") \/
      payload !! "status" = Some (Str "success"))) /\
  (forall e w1,
     getCachedMaintainers rt cfg w = (Returned (Err e), w1) ->
     getIssueState rt cfg args w
     = (Returned (errorResponse ("error getting cached maintainers: " +:+ e), None), w1)) /\
  (forall maintainers w1 e w2,
     getCachedMaintainers rt cfg w = (Returned (Ok maintainers), w1) ->
     FetchGraphQLData rt cfg (IssueNumber args) w1 = (Returned (Err e), w2) ->
     getIssueState rt cfg args w
     = (Returned (errorResponse ("network error: " +:+ e), None), w2)) /\
  (forall msg,
     errorResponse msg !! "status" = Some (Str "error") /\
     errorResponse msg !! "error" = Some (Str msg) /\
     dom (errorResponse msg) = ({["status"; "error"]} : gset string)) /\
  (forall reason w',
     getIssueState rt cfg args w = (Panicked reason, w') ->
     exists maintainers w1,
       getCachedMaintainers rt cfg w = (Returned (Ok maintainers), w1) /\
       FetchGraphQLData rt cfg (IssueNumber args) w1 = (Panicked reason, w')).
Proof.
  split_and!.
  - intros payload err w' Hrun.
    destruct (getIssueState_cases args w)
      as [(e & w1 & _ & H)|[(ms & w1 & e & w2 & _ & _ & H)
         |[(ms & w1 & rawData & w2 & p & _ & _ & H & Hs)
          |(ms & w1 & reason & w2 & _ & _ & H)]]];
      rewrite H in Hrun; simplify_eq; split; auto.
  - intros e w1 Hm. unfold getIssueState. by rewrite (bind_returned _ _ _ _ _ Hm).
  - intros maintainers w1 e w2 Hm Hf. unfold getIssueState.
    by rewrite (bind_returned _ _ _ _ _ Hm), (bind_returned _ _ _ _ _ Hf).
  - apply errorResponse_shape.
  - intros reason w' Hrun.
    destruct (getIssueState_cases args w)
      as [(e & w1 & _ & H)|[(ms & w1 & e & w2 & _ & _ & H)
         |[(ms & w1 & rawData & w2 & p & _ & _ & H & Hs)
          |(ms & w1 & r & w2 & Hm & Hf & H)]]];
      rewrite H in Hrun; simplify_eq. eauto.
Qed.

(** C1.  In the fact sheet of an analysis, [maintainer_alert_needed] is true
    exactly when the replayed last action has role [author] or [other_user],
    its kind is [edited_description], and either no bot alert was recorded
    from the comments or the recorded one is strictly before the last
    activity. *)
Theorem maintainer_alert_needed_iff (args : IssueTargetArgs) (w w1 w2 : World)
    (maintainers : list string) (rawData : gmap string any) :
  getCachedMaintainers rt cfg w = (Returned (Ok maintainers), w1) ->
  FetchGraphQLData rt cfg (IssueNumber args) w1 = (Returned (Ok rawData), w2) ->
  exists state payload needed,
    replayHistoryToFindState (buildHistoryTimeline rt rawData).1.1 maintainers
      (loginOf rawData "author") = Some state /\
    getIssueState rt cfg args w = (Returned (payload, None), w2) /\
    payload !! "maintainer_alert_needed" = Some (Bool needed) /\
    (needed = true <->
     (LastActionRole state = "author" \/ LastActionRole state = "other_user") /\
     LastActionType state = "edited_description" /\
     ((buildHistoryTimeline rt rawData).2 = None \/
      exists t, (buildHistoryTimeline rt rawData).2 = Some t /\
                t < LastActivityTime state)).
Proof.
  intros Hm Hf.
  destruct (getIssueState_fetched rt cfg args w w1 w2 maintainers rawData Hm Hf)
    as (state & payload & Hreplay & Hrun & _ & Halert & _).
  exists state, payload, (maintainerAlertNeeded state (buildHistoryTimeline rt rawData).2).
  split_and!; [done..|].
  apply maintainerAlertNeeded_spec.
Qed.
End getIssueState_claims.

Lemma daysSinceStaleLabel_spec (now : time_Time) (isStale : bool)
    (labelEvents : list time_Time) :
  ((isStale = false \/ labelEvents = []) ->
   daysSinceStaleLabel now isStale labelEvents = 0%float) /\
  (isStale = true -> labelEvents <> [] ->
   exists latest,
     latest ∈ labelEvents /\ Forall (fun t => t <= latest) labelEvents /\
     daysSinceStaleLabel now isStale labelEvents = (Hours (Sub now latest) / 24)%float).
Proof.
  unfold daysSinceStaleLabel. split.
  - intros [-> | ->]; [by destruct labelEvents|done].
  - intros -> Hne. destruct labelEvents as [|first rest]; [done|].
    destruct (latestOf_max first rest) as [Hin Hall]. eauto.
Qed.

Section stale_label_claim.
Variable rt : GoRuntime.
Variable cfg : Config.

(** C4.  In the fact sheet of an analysis, [days_since_stale_label] is 0
    when the stale label is not among the issue's current labels or when no
    stale-label timestamp was recorded; otherwise it is the time from the
    latest recorded stale-label timestamp to [now], in days, [now] being the
    one instant of the call, which [days_since_activity] uses as well.  With
    two recorded timestamps [T1 < T2] it is the time from [T2].  ([t.Sub]
    saturates at the bounds of [Duration]; within them it is the exact
    difference.) *)
Theorem days_since_stale_label_from_latest (args : IssueTargetArgs) (w w1 w2 : World)
    (maintainers : list string) (rawData : gmap string any) :
  getCachedMaintainers rt cfg w = (Returned (Ok maintainers), w1) ->
  FetchGraphQLData rt cfg (IssueNumber args) w1 = (Returned (Ok rawData), w2) ->
  exists state payload days,
    replayHistoryToFindState (buildHistoryTimeline rt rawData).1.1 maintainers
      (loginOf rawData "author") = Some state /\
    getIssueState rt cfg args w = (Returned (payload, None), w2) /\
    payload !! "days_since_stale_label" = Some (Float64 days) /\
    payload !! "days_since_activity"
    = Some (Float64 (Hours (Sub (clock w2) (LastActivityTime state)) / 24)%float) /\
    ((STALE_LABEL_NAME ∉ labelNames rawData \/
      (buildHistoryTimeline rt rawData).1.2 = []) -> days = 0%float) /\
    (STALE_LABEL_NAME ∈ labelNames rawData ->
     (buildHistoryTimeline rt rawData).1.2 <> [] ->
     exists latest,
       latest ∈ (buildHistoryTimeline rt rawData).1.2 /\
       Forall (fun t => t <= latest) (buildHistoryTimeline rt rawData).1.2 /\
       days = (Hours (Sub (clock w2) latest) / 24)%float /\
       (minInt <= clock w2 - latest <= maxInt -> Sub (clock w2) latest = clock w2 - latest)) /\
    (forall T1 T2,
       STALE_LABEL_NAME ∈ labelNames rawData ->
       (buildHistoryTimeline rt rawData).1.2 ≡ₚ [T1; T2] -> T1 < T2 ->
       days = (Hours (Sub (clock w2) T2) / 24)%float).
Proof.
  intros Hm Hf.
  destruct (getIssueState_fetched rt cfg args w w1 w2 maintainers rawData Hm Hf)
    as (state & payload & Hreplay & Hrun & _ & _ & _ & Hact & Hdays & _).
  eexists state, payload, _. split_and!; [done..| | |].
  - intros [Hno|Hnil]; apply daysSinceStaleLabel_spec; [left|by right].
    destruct (hasStaleLabel (labelNames rawData)) eqn:E; [|done].
    by apply hasStaleLabel_spec in E.
  - intros Hstale Hne. apply hasStaleLabel_spec in Hstale.
    destruct (proj2 (daysSinceStaleLabel_spec (clock w2) _ _) Hstale Hne)
      as (latest & Hin & Hall & Hd).
    exists latest. split_and!; [done..|]. apply Sub_exact.
  - intros T1 T2 Hstale Hperm Hlt. apply hasStaleLabel_spec in Hstale.
    assert (Hne : (buildHistoryTimeline rt rawData).1.2 <> []).
    { intros E. rewrite E in Hperm. by apply Permutation_nil_cons in Hperm. }
    destruct (proj2 (daysSinceStaleLabel_spec (clock w2) _ _) Hstale Hne)
      as (latest & Hin & Hall & ->).
    rewrite Hperm in Hin, Hall.
    apply Forall_cons in Hall as [_ [H2 _]%Forall_cons].
    apply elem_of_cons in Hin as [->|Hin%list_elem_of_singleton]; [lia|by subst].
Qed.
End stale_label_claim.

(** ** main.go: the batch loop *)

Section chunks.
Local Open Scope nat_scope.
Variable c : nat.
Hypothesis c_pos : 0 < c.

Lemma chunksOf_concat (fuel : nat) (l : list Z) :
  length l <= fuel -> concat (chunksOf fuel c l) = l.
Proof.
  revert l. induction fuel as [|fuel IH]; intros l Hl.
  { destruct l; [done|simpl in Hl; lia]. }
  destruct l as [|x l]; [done|].
  cbn [chunksOf concat]. rewrite IH; [apply take_drop|].
  rewrite length_drop. simpl in *. lia.
Qed.

Lemma chunksOf_lookup (fuel : nat) (l : list Z) (k : nat) (chunk : list Z) :
  length l <= fuel ->
  chunksOf fuel c l !! k = Some chunk <->
  k * c < length l /\ chunk = take c (drop (k * c) l).
Proof.
  revert l k. induction fuel as [|fuel IH]; intros l k Hl.
  { destruct l; [|simpl in Hl; lia]. simpl. split; [done|]. intros [? _]. lia. }
  destruct l as [|x l].
  { simpl. split; [done|]. intros [? _]. lia. }
  cbn [chunksOf]. destruct k as [|k].
  - simpl. split; [intros [= <-]; split; [lia|done]|by intros [_ ->]].
  - cbn [lookup list_lookup]. fold (@lookup nat (list Z) (list (list Z)) _).
    rewrite IH by (rewrite length_drop; simpl in *; lia).
    rewrite length_drop, drop_drop.
    replace (c + k * c) with (S k * c) by lia.
    split; intros [H1 H2]; (split; [simpl in *; lia|done]).
Qed.

Lemma chunksOf_length (fuel : nat) (l : list Z) :
  length l <= fuel -> length (chunksOf fuel c l) = (length l + c - 1) / c.
Proof.
  intros Hl. set (n := length (chunksOf fuel c l)).
  assert (Hin : forall k, k < n <-> k * c < length l).
  { intros k. subst n. rewrite <- lookup_lt_is_Some. split.
    - intros [chunk H]. by apply chunksOf_lookup in H as [? _].
    - intros H. eexists. by apply chunksOf_lookup. }
  assert (H1 : n * c < length l + c).
  { destruct n as [|m]; [lia|]. pose proof (proj1 (Hin m) ltac:(lia)). lia. }
  assert (H2 : length l <= n * c).
  { destruct (decide (n * c < length l)) as [H|H]; [|lia].
    apply Hin in H. lia. }
  apply Nat.div_unique with (length l + c - 1 - n * c); lia.
Qed.

Lemma chunksOf_sizes (fuel : nat) (l : list Z) (k : nat) (chunk : list Z) :
  length l <= fuel ->
  chunksOf fuel c l !! k = Some chunk ->
  (S k < length (chunksOf fuel c l) -> length chunk = c) /\
  (S k = length (chunksOf fuel c l) ->
   0 < length chunk <= c /\ length chunk = length l - k * c).
Proof.
  intros Hl Hk. pose proof Hk as Hk'.
  apply chunksOf_lookup in Hk as [Hlt ->]; [|done].
  rewrite length_take, length_drop. split.
  - intros Hnext. apply lookup_lt_is_Some in Hnext as [next Hnext].
    apply chunksOf_lookup in Hnext as [Hnext _]; [|done]. lia.
  - intros Hlast.
    assert (length l <= S k * c); [|lia].
    destruct (decide (S k * c < length l)) as [H|H]; [|lia].
    assert (is_Some (chunksOf fuel c l !! S k)) as Hs.
    { eexists. by apply chunksOf_lookup. }
    apply lookup_lt_is_Some in Hs. lia.
Qed.
End chunks.

Lemma schedule_cons (chunk next : list Z) (rest : list (list Z)) :
  schedule (chunk :: next :: rest) = RunChunk chunk :: Pace :: schedule (next :: rest).
Proof. reflexivity. Qed.

Lemma schedule_paces (chunks : list (list Z)) :
  length (filter (fun s => isPace s = true) (schedule chunks)) = (length chunks - 1)%nat.
Proof.
  induction chunks as [|chunk [|next rest] IH]; [done..|].
  rewrite schedule_cons, filter_cons, decide_False by done.
  rewrite filter_cons, decide_True by done.
  cbn [length]. rewrite IH. simpl. lia.
Qed.

Lemma int_wrap_small (z : Z) : minInt <= z <= maxInt -> int_wrap z = z.
Proof.
  unfold int_wrap, minInt, maxInt. intros H. rewrite Z.mod_small; lia.
Qed.

Lemma take_min_length {A : Type} (k : nat) (l : list A) :
  take (Nat.min k (length l)) l = take k l.
Proof.
  destruct (decide (k <= length l)%nat).
  - by rewrite Nat.min_l.
  - rewrite Nat.min_r by lia. rewrite !take_ge; [done|lia..].
Qed.

Section batch_loop.
Variable cfg : Config.
Variable processChunk : list Z -> M (list processSingleResult).
Variable c : nat.
Variable allIssues : list Z.
Hypothesis c_limit : ConcurrencyLimit cfg = Z.of_nat c.
Hypothesis c_pos : (0 < c)%nat.
Hypothesis c_int : Z.of_nat c <= maxInt.
Hypothesis n_small : Z.of_nat (length allIssues) <= 2 ^ 62.

Lemma main_loop_schedule (fuel i : nat) (acc : Totals) (w : World) :
  (i = 0 \/ c <= i)%nat ->
  (length allIssues - i <= fuel)%nat ->
  main_loop cfg processChunk fuel allIssues (Z.of_nat i) acc w
  = (t ← runSchedule cfg processChunk
           (schedule (chunksOf fuel c (drop i allIssues))) acc;
     mret (Some t)) w.
Proof.
  revert i acc w. induction fuel as [|fuel IH]; intros i acc w Hi Hfuel.
  { assert (drop i allIssues = []) as -> by (apply drop_ge; lia).
    simpl. destruct (Z.ltb_spec (Z.of_nat i) (Z.of_nat (length allIssues))); [lia|done]. }
  destruct (decide (i < length allIssues)%nat) as [Hlt|Hge]; cycle 1.
  { assert (drop i allIssues = []) as -> by (apply drop_ge; lia).
    simpl. destruct (Z.ltb_spec (Z.of_nat i) (Z.of_nat (length allIssues))); [lia|done]. }
  assert (Hadd : int_add (Z.of_nat i) (ConcurrencyLimit cfg) = Z.of_nat (i + c)).
  { rewrite c_limit. unfold int_add. rewrite int_wrap_small; [lia|].
    unfold minInt, maxInt in *. lia. }
  cbn [main_loop]. rewrite Hadd.
  destruct (Z.ltb_spec (Z.of_nat i) (Z.of_nat (length allIssues))) as [_|?]; [|lia].
  set (end_ := if Z.of_nat (length allIssues) <? Z.of_nat (i + c)
               then Z.of_nat (length allIssues) else Z.of_nat (i + c)).
  assert (Hend : end_ = Z.of_nat (Nat.min (length allIssues) (i + c))).
  { subst end_. destruct (Z.ltb_spec (Z.of_nat (length allIssues)) (Z.of_nat (i + c))); lia. }
  assert (Hbounds : (0 <=? Z.of_nat i) && (Z.of_nat i <=? end_)
                    && (end_ <=? Z.of_nat (length allIssues)) = true).
  { rewrite Hend. apply andb_true_iff; split; [apply andb_true_iff; split|];
      apply Z.leb_le; lia. }
  rewrite Hbounds.
  assert (Hchunk : take (Z.to_nat (end_ - Z.of_nat i)) (drop (Z.to_nat (Z.of_nat i)) allIssues)
                   = take c (drop i allIssues)).
  { rewrite Nat2Z.id, Hend.
    replace (Z.to_nat (Z.of_nat (Nat.min (length allIssues) (i + c)) - Z.of_nat i))
      with (Nat.min c (length (drop i allIssues))) by (rewrite length_drop; lia).
    apply take_min_length. }
  rewrite Hchunk.
  assert (Hchunks : chunksOf (S fuel) c (drop i allIssues)
                    = take c (drop i allIssues)
                        :: chunksOf fuel c (drop (i + c) allIssues)).
  { rewrite <- drop_drop. destruct (drop i allIssues) as [|x rest0] eqn:Hdrop; [|done].
    apply (f_equal length) in Hdrop. rewrite length_drop in Hdrop. simpl in Hdrop. lia. }
  rewrite Hchunks.
  set (chunk := take c (drop i allIssues)).
  set (rest := chunksOf fuel c (drop (i + c) allIssues)).
  unfold mbind at 1, M_bind at 1.
  assert (Hrun : forall steps acc0 w0,
            (t ← runSchedule cfg processChunk (RunChunk chunk :: steps) acc0;
             mret (Some t)) w0
            = match processChunk chunk w0 with
              | (Returned results, w1) =>
                  (t ← runSchedule cfg processChunk steps (accumulate acc0 chunk results);
                   mret (Some t)) w1
              | (Panicked r, w1) => (Panicked r, w1)
              end).
  { intros steps acc0 w0. cbn [runSchedule]. unfold mbind, M_bind.
    by destruct (processChunk chunk w0) as [[results|r] w1]. }
  destruct (Z.ltb_spec end_ (Z.of_nat (length allIssues))) as [Hmore|Hlast].
  - (* more chunks follow: the loop sleeps, and so does the schedule *)
    assert (exists next rest', rest = next :: rest') as (next & rest' & Hrest).
    { subst rest. destruct fuel as [|fuel']; [lia|].
      destruct (drop (i + c) allIssues) as [|y rest1] eqn:Hd.
      - apply (f_equal length) in Hd. rewrite length_drop in Hd. simpl in Hd. lia.
      - cbn [chunksOf]. eauto. }
    rewrite Hrest, schedule_cons, Hrun.
    destruct (processChunk chunk w) as [[results|r] w1]; [|done].
    rewrite <- Hrest. subst rest.
    cbn [runSchedule]. unfold mbind at 1 3, M_bind at 1 3, time_Sleep.
    rewrite IH; [done|lia|lia].
  - (* the last chunk: no sleep *)
    assert (rest = []) as ->.
    { subst rest. assert (drop (i + c) allIssues = []) as -> by (apply drop_ge; lia).
      by destruct fuel. }
    change (schedule [chunk]) with [RunChunk chunk]. rewrite Hrun.
    destruct (processChunk chunk w) as [[results|r] w1]; [|done].
    unfold mbind at 1, M_bind at 1. unfold mret at 1, M_ret at 1.
    rewrite IH; [|lia|lia].
    assert (drop (i + c) allIssues = []) as -> by (apply drop_ge; lia).
    by destruct fuel.
Qed.
End batch_loop.

Section batch_claim.
Variable cfg : Config.
Variable processChunk : list Z -> M (list processSingleResult).

(** When the work on a chunk returns and does not sleep itself, the sleeps
    of a run are its pacing steps. *)
Lemma runSchedule_sleeps (steps : list BatchStep) (acc : Totals) (w : World) :
  (forall chunk w0, exists results w0',
     processChunk chunk w0 = (Returned results, w0') /\ slept w0' = slept w0) ->
  exists totals w',
    runSchedule cfg processChunk steps acc w = (Returned totals, w') /\
    slept w'
    = slept w ++ replicate (length (filter (fun s => isPace s = true) steps))
                           (pacingInterval cfg).
Proof.
  intros Hquiet. revert acc w.
  induction steps as [|[chunk|] steps IH]; intros acc w.
  - exists acc, w. by rewrite app_nil_r.
  - destruct (Hquiet chunk w) as (results & w0 & Hrun & Hs).
    cbn [runSchedule]. rewrite (bind_returned _ _ _ _ _ Hrun).
    rewrite filter_cons, decide_False by done.
    destruct (IH (accumulate acc chunk results) w0) as (totals & w' & Hr & Hs').
    exists totals, w'. split; [done|]. by rewrite Hs', Hs.
  - cbn [runSchedule]. unfold mbind, M_bind, time_Sleep.
    rewrite filter_cons, decide_True by done.
    match goal with
    | |- context [runSchedule cfg processChunk steps acc ?w0] =>
        destruct (IH acc w0) as (totals & w' & Hr & Hs')
    end.
    exists totals, w'. split; [done|]. rewrite Hs'. simpl. by rewrite <- app_assoc.
Qed.

(** C6.  For a non-empty issue list of length [n] and a concurrency limit
    [c > 0], the batch loop runs the chunks of the list cut every [c] issues:
    there are [ceil(n/c)] of them, consecutive, each of [c] issues except a
    last one of between 1 and [c]; and it sleeps the pacing interval after
    every chunk except the last, [ceil(n/c) - 1] times. *)
Theorem batch_loop_chunks_and_pacing (allIssues : list Z) (w : World) :
  allIssues <> [] ->
  0 < ConcurrencyLimit cfg <= maxInt ->
  Z.of_nat (length allIssues) <= 2 ^ 62 ->
  let c := Z.to_nat (ConcurrencyLimit cfg) in
  let n := length allIssues in
  let chunks := chunksOf n c allIssues in
  main_batches cfg processChunk allIssues w
  = (t ← runSchedule cfg processChunk (schedule chunks) (mkTotals 0 0 0);
     mret (Some t)) w /\
  concat chunks = allIssues /\
  length chunks = ((n + c - 1) / c)%nat /\
  (forall k chunk,
     chunks !! k = Some chunk ->
     chunk = take c (drop (k * c) allIssues) /\
     (S k < length chunks -> length chunk = c)%nat /\
     (S k = length chunks -> 0 < length chunk <= c)%nat) /\
  length (filter (fun s => isPace s = true) (schedule chunks)) = (length chunks - 1)%nat /\
  ((forall chunk w0, exists results w0',
      processChunk chunk w0 = (Returned results, w0') /\ slept w0' = slept w0) ->
   exists totals w',
     main_batches cfg processChunk allIssues w = (Returned (Some totals), w') /\
     slept w' = slept w ++ replicate (length chunks - 1) (pacingInterval cfg)).
Proof.
  intros Hne Hc Hn c n chunks.
  assert (Hcpos : (0 < c)%nat) by (subst c; lia).
  assert (Hrun : main_batches cfg processChunk allIssues w
                 = (t ← runSchedule cfg processChunk (schedule chunks) (mkTotals 0 0 0);
                    mret (Some t)) w).
  { unfold main_batches.
    rewrite (main_loop_schedule cfg processChunk c allIssues) with (i := O);
      [done|subst c; lia|done|subst c; lia|done|by left|lia]. }
  split_and!.
  - exact Hrun.
  - by apply chunksOf_concat.
  - by apply chunksOf_length.
  - intros k chunk Hk.
    destruct (chunksOf_sizes c Hcpos n allIssues k chunk (le_n _) Hk) as [H1 H2].
    apply chunksOf_lookup in Hk as [_ ->]; [|done..].
    split_and!; [done|done|]. intros H. by apply H2.
  - apply schedule_paces.
  - intros Hquiet. rewrite Hrun.
    destruct (runSchedule_sleeps (schedule chunks) (mkTotals 0 0 0) w Hquiet)
      as (totals & w' & Hs & Hslept).
    exists totals, w'. rewrite (bind_returned _ _ _ _ _ Hs).
    split; [done|]. by rewrite Hslept, schedule_paces.
Qed.
End batch_claim.


(** ** The claims on concrete inputs *)

Example parseRFC3339_epoch : parseRFC3339 "1970-01-01T00:00:00Z" = Some 0.
Proof. vm_compute. reflexivity. Qed.

Example parseRFC3339_2024 :
  parseRFC3339 "2024-03-01T00:00:00Z" = Some (1709251200 * Second).
Proof. vm_compute. reflexivity. Qed.

Example parseRFC3339_zero_time :
  parseRFC3339 "0001-01-01T00:00:00Z" = Some zeroTime.
Proof. vm_compute. reflexivity. Qed.

Example pacingInterval_default : pacingInterval sampleConfig = 1500000000.
Proof. vm_compute. reflexivity. Qed.

(** The sample issue, analysed ten days after the author's silent edit: an
    alert is needed, and the stale label counts from its second application. *)
Example sample_analysis :
  match (getIssueState sampleRuntime sampleConfig sampleArgs (sampleWorld [])).1 with
  | Returned (payload, err) =>
      (err,
       payload !! "status", payload !! "last_action_role", payload !! "last_action_type",
       payload !! "maintainer_alert_needed", payload !! "is_stale",
       payload !! "days_since_activity", payload !! "days_since_stale_label",
       payload !! "maintainers")
      = (None,
         Some (Str "success"), Some (Str "author"), Some (Str "edited_description"),
         Some (Bool true), Some (Bool true),
         Some (Float64 10), Some (Float64 30),
         Some (Strings ["alice"; "bob"]))
  | Panicked _ => False
  end.
Proof. vm_compute. reflexivity. Qed.

(** The same issue when the bot has already posted its alert after the edit:
    no second alert. *)
Example sample_analysis_dedup :
  match (getIssueState sampleRuntime sampleConfig sampleArgs (sampleWorld [sampleAlert])).1 with
  | Returned (payload, err) =>
      (err, payload !! "last_action_type", payload !! "maintainer_alert_needed")
      = (None, Some (Str "edited_description"), Some (Bool false))
  | Panicked _ => False
  end.
Proof. vm_compute. reflexivity. Qed.

(** The sample issue emits two events, and its timeline keeps them in
    emission order. *)
Example sample_timeline :
  (fun e => (Type_ e, Actor e))
    <$> (buildHistoryTimeline sampleRuntime (sampleIssueData [])).1.1
  = [("created", "carol"); ("edited_description", "carol")].
Proof. vm_compute. reflexivity. Qed.

(** An issue with thirteen events whose last two comments, of the maintainer
    alice and then of the author carol, carry one timestamp.  The builder
    emits them in this order and the timeline has them in the other: it is
    not the stable sort of the emitted events, and the replay reports the
    maintainer as the last to act where emission order gives the author. *)
Lemma same_instant_comments_change_places :
  let emitted := (emitHistory sampleRuntime tieIssueData).1.1 in
  let timeline := (buildHistoryTimeline sampleRuntime tieIssueData).1.1 in
  length emitted = 13%nat /\
  Actor <$> withKey Time tieInstant emitted = ["alice"; "carol"] /\
  Actor <$> withKey Time tieInstant timeline = ["carol"; "alice"] /\
  timeline <> stableSort Time emitted /\
  LastActionRole <$> replayHistoryToFindState timeline ["alice"; "bob"] "carol"
  = Some "maintainer" /\
  LastActionRole
    <$> replayHistoryToFindState (stableSort Time emitted) ["alice"; "bob"] "carol"
  = Some "author".
Proof.
  cbv zeta. split_and!; try (vm_compute; reflexivity).
  intros E.
  apply (f_equal (fun l => Actor <$> withKey Time tieInstant l)) in E.
  vm_compute in E. discriminate E.
Qed.

Lemma sample_listing :
  getCachedMaintainers sampleRuntime sampleConfig (sampleWorld [])
  = (Returned (Ok ["alice"; "bob"]), sampleWorldListed []).
Proof. vm_compute. reflexivity. Qed.

Lemma sample_fetch :
  FetchGraphQLData sampleRuntime sampleConfig (IssueNumber sampleArgs) (sampleWorldListed [])
  = (Returned (Ok (sampleIssueData [])), sampleWorldFetched []).
Proof. vm_compute. reflexivity. Qed.

(** C5.  [getIssueState] does raise to its caller.  The maintainers being
    listed, a query that GitHub refuses with status 403 and the object
    [{message: ..., documentation_url: ...}] fails the unchecked assertion
    [resp["data"].(map[string]any)] of [FetchGraphQLData], and the analysis of
    any issue panics instead of returning an error payload, two calls being
    counted.  The assertion before it is checked: the same refusal with a body
    that is no object is returned as the payload
    [network error: invalid GraphQL response format] next to a nil error. *)
Theorem getIssueState_panics_on_a_refused_query (args : IssueTargetArgs) :
  let refused := getIssueState sampleRuntime sampleConfig args (refusedWorld forbiddenAnswer) in
  let checked := getIssueState sampleRuntime sampleConfig args (refusedWorld forbiddenList) in
  (FetchGraphQLData sampleRuntime sampleConfig (IssueNumber args)
     (getCachedMaintainers sampleRuntime sampleConfig (refusedWorld forbiddenAnswer)).2).1
  = Panicked "interface conversion: data is not map[string]interface {}" /\
  refused.1 = Panicked "interface conversion: data is not map[string]interface {}" /\
  apiCallCount refused.2 = 2 /\
  maintainersCache refused.2 = Some ["alice"; "bob"] /\
  checked.1
  = Returned (errorResponse "network error: invalid GraphQL response format", None).
Proof.
  destruct args as [n]. cbv zeta. split_and!; vm_compute; reflexivity.
Qed.

Lemma maintainer_alert_needed_witness :
  exists state payload needed,
    replayHistoryToFindState
      (buildHistoryTimeline sampleRuntime (sampleIssueData [])).1.1 ["alice"; "bob"]
      (loginOf (sampleIssueData []) "author") = Some state /\
    getIssueState sampleRuntime sampleConfig sampleArgs (sampleWorld [])
    = (Returned (payload, None), sampleWorldFetched []) /\
    payload !! "maintainer_alert_needed" = Some (Bool needed) /\
    (needed = true <->
     (LastActionRole state = "author" \/ LastActionRole state = "other_user") /\
     LastActionType state = "edited_description" /\
     ((buildHistoryTimeline sampleRuntime (sampleIssueData [])).2 = None \/
      exists t, (buildHistoryTimeline sampleRuntime (sampleIssueData [])).2 = Some t /\
                t < LastActivityTime state)).
Proof.
  exact (maintainer_alert_needed_iff sampleRuntime sampleConfig sampleArgs
           (sampleWorld []) (sampleWorldListed []) (sampleWorldFetched [])
           ["alice"; "bob"] (sampleIssueData []) sample_listing sample_fetch).
Defined.

Lemma days_since_stale_label_witness :
  exists state payload days,
    replayHistoryToFindState
      (buildHistoryTimeline sampleRuntime (sampleIssueData [])).1.1 ["alice"; "bob"]
      (loginOf (sampleIssueData []) "author") = Some state /\
    getIssueState sampleRuntime sampleConfig sampleArgs (sampleWorld [])
    = (Returned (payload, None), sampleWorldFetched []) /\
    payload !! "days_since_stale_label" = Some (Float64 days) /\
    days = (Hours (Sub (clock (sampleWorldFetched []))
                       (default zeroTime (parseRFC3339 "2024-02-10T00:00:00Z"))) / 24)%float.
Proof.
  destruct (days_since_stale_label_from_latest sampleRuntime sampleConfig sampleArgs
              (sampleWorld []) (sampleWorldListed []) (sampleWorldFetched [])
              ["alice"; "bob"] (sampleIssueData []) sample_listing sample_fetch)
    as (state & payload & days & Hreplay & Hrun & Hfield & _ & _ & _ & Htwo).
  exists state, payload, days. split; [exact Hreplay|]. split; [exact Hrun|].
  split; [exact Hfield|].
  apply (Htwo (default zeroTime (parseRFC3339 "2024-02-01T00:00:00Z"))).
  - apply hasStaleLabel_spec. vm_compute. reflexivity.
  - assert ((buildHistoryTimeline sampleRuntime (sampleIssueData [])).1.2
            = [default zeroTime (parseRFC3339 "2024-02-01T00:00:00Z");
               default zeroTime (parseRFC3339 "2024-02-10T00:00:00Z")]) as ->
      by (vm_compute; reflexivity).
    reflexivity.
  - vm_compute. reflexivity.
Defined.

Lemma maintainers_fetched_once_witness :
  maintainersCache (sampleWorldListed []) = Some ["alice"; "bob"] /\
  (forall w2,
     maintainersCache w2 = maintainersCache (sampleWorldListed []) ->
     getCachedMaintainers sampleRuntime sampleConfig w2 = (Returned (Ok ["alice"; "bob"]), w2)) /\
  (maintainersCache (sampleWorld []) = None ->
   apiCallCount (sampleWorldListed []) = int_add (apiCallCount (sampleWorld [])) 1 /\
   (r ← getCachedMaintainers sampleRuntime sampleConfig;
    r' ← getCachedMaintainers sampleRuntime sampleConfig; mret (r, r')) (sampleWorld [])
   = (Returned (Ok ["alice"; "bob"], Ok ["alice"; "bob"]), sampleWorldListed [])).
Proof.
  exact (maintainers_fetched_once sampleRuntime sampleConfig (sampleWorld [])
           (sampleWorldListed []) ["alice"; "bob"] sample_listing).
Defined.

Lemma batch_loop_witness :
  chunksOf 7 3 sampleIssues = [[101; 102; 103]; [104; 105; 106]; [107]] /\
  exists totals w',
    main_batches sampleConfig idleChunk sampleIssues flakyWorld
    = (Returned (Some totals), w') /\
    slept w' = [1500000000; 1500000000].
Proof.
  split; [reflexivity|].
  destruct (batch_loop_chunks_and_pacing sampleConfig idleChunk sampleIssues flakyWorld)
    as (_ & _ & _ & _ & _ & Hsleeps).
  - discriminate.
  - vm_compute. split; [reflexivity|discriminate].
  - vm_compute. discriminate.
  - destruct Hsleeps as (totals & w' & Hrun & Hslept).
    + intros chunk w0. exists [], w0. split; reflexivity.
    + exists totals, w'. split; [exact Hrun|]. rewrite Hslept. vm_compute. reflexivity.
Defined.


(* ===================================================================== *)
(** * Further properties of the code *)
(* ===================================================================== *)

(** ** util.go: the retry loop *)


(** Every attempt answered by a transient result: the loop uses up its
    attempts and reports the last answer. *)
Lemma doRequest_loop_exhausted (left : nat) (req : Request) (backoff : Duration)
    (w : World) :
  (forall i, (i <= left)%nat -> transient (network w (length (requests w) + i)) = true) ->
  doRequest_loop left req backoff w
  = (Returned (settle (network w (length (requests w) + left))),
     mkWorld (apiCallCount w) (maintainersCache w) (network w)
       (requests w ++ replicate (S left) req)
       (slept w ++ backoffs left backoff)
       (clock w + foldr (fun d t => Z.max d 0 + t) 0 (backoffs left backoff))).
Proof.
  revert backoff w. induction left as [|left IH]; intros backoff w Htr.
  - pose proof (Htr O ltac:(lia)) as H0. rewrite Nat.add_0_r in *.
    simpl. unfold mbind, M_bind, httpClient_Do. simpl.
    destruct (network w (length (requests w))) as [resp|e]; simpl in *.
    + rewrite H0. simpl. by rewrite app_nil_r, Z.add_0_r.
    + by rewrite app_nil_r, Z.add_0_r.
  - pose proof (Htr O ltac:(lia)) as H0. rewrite Nat.add_0_r in H0.
    simpl. unfold mbind at 1, M_bind at 1, httpClient_Do at 1. simpl.
    set (w1 := mkWorld _ _ _ (requests w ++ [req]) _ _).
    assert (Hstep : (time_Sleep backoff ≫= fun _ =>
                       doRequest_loop left req (int_mul backoff backoffFactor)) w1
                    = (Returned (settle (network w (length (requests w) + S left))),
                       mkWorld (apiCallCount w) (maintainersCache w) (network w)
                         (requests w ++ replicate (S (S left)) req)
                         (slept w ++ backoffs (S left) backoff)
                         (clock w + foldr (fun d t => Z.max d 0 + t) 0
                                      (backoffs (S left) backoff)))).
    { unfold mbind, M_bind, time_Sleep. simpl.
      set (w2 := mkWorld _ _ _ _ _ _).
      rewrite (IH (int_mul backoff backoffFactor) w2).
      - subst w2 w1. simpl. rewrite length_app. simpl.
        replace (length (requests w) + 1 + left)%nat
          with (length (requests w) + S left)%nat by lia.
        f_equal. f_equal.
        + by rewrite <- app_assoc.
        + by rewrite <- app_assoc.
        + lia.
      - intros i Hi. subst w2 w1. simpl. rewrite length_app. simpl.
        replace (length (requests w) + 1 + i)%nat
          with (length (requests w) + S i)%nat by lia.
        apply Htr. lia. }
    destruct (network w (length (requests w))) as [resp0|e]; simpl in H0.
    + rewrite H0. simpl. exact Hstep.
    + exact Hstep.
Qed.

(** The answers from [n0] on are transient up to the first one that is not,
    or all of the first [S left]. *)
Lemma first_settled (answers : nat -> Result Response) (left : nat) :
  exists k, (k <= left)%nat /\
    (forall i, (i < k)%nat -> transient (answers i) = true) /\
    (transient (answers k) = true -> k = left).
Proof.
  induction left as [|left (k & Hk & Hbefore & Hlast)].
  - exists O. split_and!; [lia|intros; lia|done].
  - destruct (transient (answers k)) eqn:Hk'.
    + specialize (Hlast eq_refl). subst k. exists (S left). split_and!; [lia| |done].
      intros i Hi. destruct (decide (i = left)) as [->|]; [done|]. apply Hbefore. lia.
    + exists k. split_and!; [lia|done|]. rewrite Hk'. done.
Qed.

(** [doRequest] in full: the attempts it makes, what it returns and the
    state it leaves. *)
Lemma doRequest_outcome (req : Request) (w : World) :
  exists k, attempts w k /\
    doRequest req w = (Returned (answer w k), afterAttempts w req k).
Proof.
  destruct (first_settled (fun i => network w (length (requests w) + i)) maxRetries)
    as (k & Hk & Hbefore & Hlast).
  exists k. split; [done|]. unfold doRequest, answer, afterAttempts.
  destruct (transient (network w (length (requests w) + k))) eqn:Htr.
  - specialize (Hlast eq_refl). subst k.
    apply doRequest_loop_exhausted. intros i Hi.
    destruct (decide (i = maxRetries)) as [->|]; [done|]. apply Hbefore. lia.
  - destruct (network w (length (requests w) + k)) as [resp|e] eqn:Hans; [|done].
    rewrite (doRequest_loop_retries k maxRetries req Second w resp); try done.
    unfold settle. by rewrite Htr.
Qed.

Lemma attempts_unique (w : World) (k k' : nat) : attempts w k -> attempts w k' -> k = k'.
Proof.
  intros (Hk & Hb & Hl) (Hk' & Hb' & Hl').
  destruct (Nat.lt_trichotomy k k') as [Hlt|[->|Hgt]]; [|done|].
  - specialize (Hb' k Hlt). specialize (Hl Hb'). lia.
  - specialize (Hb k' Hgt). specialize (Hl' Hb). lia.
Qed.



(** ** util.go: what a request helper returns, and the state it leaves *)

Section helper_outcomes.
Variable rt : GoRuntime.

Lemma attempts_counter (w : World) (n : Z) (k : nat) :
  attempts (set_apiCallCount n w) k <-> attempts w k.
Proof. done. Qed.

(** After the increment: the attempts of [doRequest], and the result read
    off the answer by [finish]. *)
Lemma after_increment_outcome (w : World) (req : Request)
    (finish : Response -> Result any) :
  exists k, attempts w k /\
    (r0 ← doRequest req;
     match r0 with
     | Err e => mret (Err e)
     | Ok resp => mret (finish resp)
     end) (set_apiCallCount (int_add (apiCallCount w) 1) w)
    = (Returned (match answer w k with Ok resp => finish resp | Err e => Err e end),
       afterCall w req k).
Proof.
  destruct (doRequest_outcome req (set_apiCallCount (int_add (apiCallCount w) 1) w))
    as (k & Hatt & Hrun).
  exists k. split; [exact Hatt|].
  rewrite (bind_returned _ _ _ _ _ Hrun).
  change (answer (set_apiCallCount (int_add (apiCallCount w) 1) w) k) with (answer w k).
  by destruct (answer w k).
Qed.

Lemma PostRequest_outcome (url : string) (payload : any) (w : World) (req : Request) :
  http_NewRequest rt "POST" url (Some payload) = Ok req ->
  exists k, attempts w k /\
    PostRequest rt url payload w = (Returned (decoded (answer w k)), afterCall w req k).
Proof.
  intros Hreq. unfold PostRequest.
  rewrite (bind_returned _ _ _ _ _ (incrementAPICallCount_run w)), Hreq.
  apply after_increment_outcome.
Qed.


Lemma GetRequest_outcome (rawURL u : string) (params : option (gmap string any))
    (w : World) (req : Request) :
  url_Parse rt rawURL = Ok u ->
  http_NewRequest rt "GET"
    (match params with
     | Some ps => url_SetQuery rt u (fmt_v rt <$> ps)
     | None => u
     end) None = Ok req ->
  exists k, attempts w k /\
    GetRequest rt rawURL params w = (Returned (decoded (answer w k)), afterCall w req k).
Proof.
  intros Hu Hreq. unfold GetRequest.
  rewrite (bind_returned _ _ _ _ _ (incrementAPICallCount_run w)), Hu, Hreq.
  apply after_increment_outcome.
Qed.

End helper_outcomes.

(** ** agent.go: the tools that act on an issue *)

Lemma afterCall_requests (w : World) (req : Request) (k : nat) :
  requests (afterCall w req k) = requests w ++ replicate (S k) req.
Proof. done. Qed.

Lemma afterCall_counter (w : World) (req : Request) (k : nat) :
  apiCallCount (afterCall w req k) = int_add (apiCallCount w) 1.
Proof. done. Qed.

Lemma decoded_Ok (r : Result Response) (v : any) :
  decoded r = Ok v <-> exists resp, r = Ok resp /\ Body resp = Ok v.
Proof.
  unfold decoded, decodeJSON. split.
  - destruct r as [resp|e]; [|done]. eauto.
  - by intros (resp & -> & ?).
Qed.

Section tool_facts.
Variable rt : GoRuntime.
Variable cfg : Config.
Variable math_Mod : float -> float -> float.
Variable fmt_f1 : float -> string.



End tool_facts.

(** ** agent.go: the replay and the history builder *)

Lemma isMaintainer_spec (actor : string) (maintainers : list string) :
  isMaintainer actor maintainers = true <-> actor ∈ maintainers.
Proof.
  induction maintainers as [|m rest IH]; simpl.
  - split; [done|by intros ?%elem_of_nil].
  - rewrite elem_of_cons. destruct (String.eqb actor m) eqn:E.
    + apply eqb_string_true in E. split; [by left|done].
    + apply eqb_string_false in E. rewrite IH. split; [by right|].
      intros [?|?]; [congruence|done].
Qed.

(** The replay reports the final event of the history: its time, its kind
    and its actor, with the role [author] when the actor is the issue author
    (also when the author is a maintainer), [maintainer] when the actor is
    another login of the maintainer list, [other_user] otherwise.  Earlier
    events have no part in these four fields.  An empty history makes the
    replay panic. *)
Theorem replay_reports_the_final_event (maintainers : list string)
    (issueAuthor : string) (earlier : list TimelineEvent) (final : TimelineEvent) :
  replayHistoryToFindState [] maintainers issueAuthor = None /\
  exists state,
    replayHistoryToFindState (earlier ++ [final]) maintainers issueAuthor = Some state /\
    LastActivityTime state = Time final /\
    LastActionType state = Type_ final /\
    LastActorName state = Actor final /\
    (Actor final = issueAuthor -> LastActionRole state = "author") /\
    (Actor final <> issueAuthor -> Actor final ∈ maintainers ->
     LastActionRole state = "maintainer") /\
    (Actor final <> issueAuthor -> Actor final ∉ maintainers ->
     LastActionRole state = "other_user").
Proof.
  split; [done|].
  destruct (replay_snoc maintainers issueAuthor earlier final) as [st Hst].
  eexists. split; [exact Hst|]. unfold replayStep. cbn.
  split_and!; try done.
  - intros ->. by rewrite String.eqb_refl.
  - intros Hne Hin. apply eqb_string_false in Hne. rewrite Hne.
    apply isMaintainer_spec in Hin. by rewrite Hin.
  - intros Hne Hnotin. apply eqb_string_false in Hne. rewrite Hne.
    destruct (isMaintainer (Actor final) maintainers) eqn:E; [|done].
    by apply isMaintainer_spec in E.
Qed.

Lemma isBot_false (actor : string) :
  isBot actor = false <->
  actor <> "" /\ strings_HasSuffix actor "[bot]" = false /\ actor <> BOT_NAME.
Proof.
  unfold isBot. rewrite !orb_false_iff, !eqb_string_false. tauto.
Qed.

Section builder_extras.
Variable rt : GoRuntime.

(** The time a comment counts for: its last edit when the comment carries a
    non-empty [lastEditedAt], its creation otherwise. *)
Lemma commentEvents_human (node : any) (c : gmap string any) :
  asMap node = Some c ->
  strings_Contains (stringOrZero (index c "body")) BOT_ALERT_SIGNATURE = false ->
  isBot (loginOf c "author") = false ->
  commentEvents rt node
  = [mkTimelineEvent "commented" (loginOf c "author")
       (match asString (index c "lastEditedAt") with
        | Some s => if String.eqb s "" then parseTime rt (index c "createdAt")
                    else parseTime rt (Str s)
        | None => parseTime rt (index c "createdAt")
        end)
       (Str (stringOrZero (index c "body")))].
Proof.
  intros Hc Hbody Hbot. unfold commentEvents, commentStep.
  rewrite Hc, Hbody, Hbot. cbn.
  destruct (asString (index c "lastEditedAt")) as [s|]; [|done].
  by destruct (String.eqb s "").
Qed.

Lemma commentEvents_actor (node : any) (e : TimelineEvent) :
  e ∈ commentEvents rt node -> isBot (Actor e) = false.
Proof.
  unfold commentEvents, commentStep.
  destruct (asMap node) as [c|]; [|by intros ?%elem_of_nil].
  destruct (strings_Contains _ _).
  { cbn. by intros ?%elem_of_nil. }
  destruct (isBot (loginOf c "author")) eqn:Hbot; cbn.
  - by intros ?%elem_of_nil.
  - by intros ->%list_elem_of_singleton.
Qed.

Lemma editEvents_actor (node : any) (e : TimelineEvent) :
  e ∈ editEvents rt node -> isBot (Actor e) = false.
Proof.
  unfold editEvents, editStep.
  destruct (asMap node) as [c|]; [|by intros ?%elem_of_nil].
  destruct (isBot (loginOf c "editor")) eqn:Hbot; cbn.
  - by intros ?%elem_of_nil.
  - by intros ->%list_elem_of_singleton.
Qed.

Lemma timelineEvents_actor (node : any) (e : TimelineEvent) :
  e ∈ timelineEvents rt node -> isBot (Actor e) = false.
Proof.
  unfold timelineEvents, timelineStep.
  destruct (asMap node) as [t|]; [|by intros ?%elem_of_nil].
  destruct (String.eqb _ "LabeledEvent").
  { destruct (String.eqb _ STALE_LABEL_NAME); cbn; by intros ?%elem_of_nil. }
  destruct (isBot (loginOf t "actor")) eqn:Hbot; cbn.
  - by intros ?%elem_of_nil.
  - by intros ->%list_elem_of_singleton.
Qed.

(** Nothing a bot did is activity: apart from the [created] event, which is
    always there and carries the issue author whoever that is, every event of
    the timeline has an actor that is not empty, does not end in [[bot]] and
    is not [BOT_NAME].  The [created] event is the only one of its kind. *)
Theorem bots_are_left_out_of_the_timeline (data : gmap string any) :
  let timeline := (buildHistoryTimeline rt data).1.1 in
  createdEvent rt data ∈ timeline /\
  (forall e, e ∈ timeline -> Type_ e = "created" -> e = createdEvent rt data) /\
  (forall e, e ∈ timeline -> Type_ e <> "created" ->
     Actor e <> "" /\ strings_HasSuffix (Actor e) "[bot]" = false /\ Actor e <> BOT_NAME).
Proof.
  intros timeline. subst timeline. split_and!.
  - rewrite (buildHistoryTimeline_perm rt data), emitHistory_spec. by left.
  - intros e He Hty. rewrite (buildHistoryTimeline_perm rt data) in He.
    apply emitted_event_inv in He as [->|[H|[H|H]]]; [done|..].
    + destruct H as (node & _ & He). apply commentEvents_inv in He as (_ & _ & ? & _).
      congruence.
    + destruct H as (node & _ & He). apply editEvents_inv in He. congruence.
    + destruct H as (node & _ & He). apply timelineEvents_inv in He as [_ [?|?]]; congruence.
  - intros e He Hty. apply isBot_false.
    rewrite (buildHistoryTimeline_perm rt data) in He.
    apply emitted_event_inv in He as [->|[H|[H|H]]]; [done|..];
      destruct H as (node & _ & He).
    + by apply commentEvents_actor in He.
    + by apply editEvents_actor in He.
    + by apply timelineEvents_actor in He.
Qed.

Lemma bind_length_le {A B : Type} (f : A -> list B) (l : list A) :
  (forall x, length (f x) <= 1)%nat -> (length (l ≫= f) <= length l)%nat.
Proof.
  intros Hf. induction l as [|x l IH]; [done|].
  cbn. rewrite length_app. specialize (Hf x). simpl. lia.
Qed.

(** Everything a human did is activity.  A comment of a human that does not
    match the bot-alert signature is in the timeline as a [commented] event
    with its body, at the time of its last edit when it has one and of its
    creation otherwise; a description edit of a human as an
    [edited_description] event; a timeline item of a human that is not a
    label application as [renamed_title] when it is a [RenamedTitleEvent]
    and as [reopened] whatever else it is.  A node adds at most one event. *)
Theorem human_activity_is_in_the_timeline (data : gmap string any) :
  let timeline := (buildHistoryTimeline rt data).1.1 in
  (forall node c,
     node ∈ nodesOf data "comments" -> asMap node = Some c ->
     strings_Contains (stringOrZero (index c "body")) BOT_ALERT_SIGNATURE = false ->
     isBot (loginOf c "author") = false ->
     mkTimelineEvent "commented" (loginOf c "author")
       (match asString (index c "lastEditedAt") with
        | Some s => if String.eqb s "" then parseTime rt (index c "createdAt")
                    else parseTime rt (Str s)
        | None => parseTime rt (index c "createdAt")
        end)
       (Str (stringOrZero (index c "body"))) ∈ timeline) /\
  (forall node e,
     node ∈ nodesOf data "userContentEdits" -> asMap node = Some e ->
     isBot (loginOf e "editor") = false ->
     mkTimelineEvent "edited_description" (loginOf e "editor")
       (parseTime rt (index e "editedAt")) Nil ∈ timeline) /\
  (forall node t,
     node ∈ nodesOf data "timelineItems" -> asMap node = Some t ->
     stringOrZero (index t "__typename") <> "LabeledEvent" ->
     isBot (loginOf t "actor") = false ->
     mkTimelineEvent
       (if String.eqb (stringOrZero (index t "__typename")) "RenamedTitleEvent"
        then "renamed_title" else "reopened")
       (loginOf t "actor") (parseTime rt (index t "createdAt")) Nil ∈ timeline) /\
  (length timeline
   <= 1 + length (nodesOf data "comments") + length (nodesOf data "userContentEdits")
      + length (nodesOf data "timelineItems"))%nat.
Proof.
  intros timeline. subst timeline. split_and!.
  - intros node c Hnode Hc Hbody Hbot.
    rewrite (buildHistoryTimeline_perm rt data), emitHistory_spec. cbn.
    right. apply elem_of_app. left. apply list_elem_of_bind. exists node.
    split; [|done]. rewrite (commentEvents_human node c Hc Hbody Hbot). by left.
  - intros node e Hnode He Hbot.
    rewrite (buildHistoryTimeline_perm rt data), emitHistory_spec. cbn.
    right. apply elem_of_app. right. apply elem_of_app. left.
    apply list_elem_of_bind. exists node. split; [|done].
    unfold editEvents, editStep. rewrite He, Hbot. by left.
  - intros node t Hnode Ht Hty Hbot.
    rewrite (buildHistoryTimeline_perm rt data), emitHistory_spec. cbn.
    right. apply elem_of_app. right. apply elem_of_app. right.
    apply list_elem_of_bind. exists node. split; [|done].
    unfold timelineEvents, timelineStep. rewrite Ht, Hbot.
    apply eqb_string_false in Hty. rewrite Hty. cbn. by left.
  - rewrite (Permutation_length (buildHistoryTimeline_perm rt data)), emitHistory_spec.
    cbn. rewrite !length_app.
    pose proof (bind_length_le (commentEvents rt) (nodesOf data "comments")) as H1.
    pose proof (bind_length_le (editEvents rt) (nodesOf data "userContentEdits")) as H2.
    pose proof (bind_length_le (timelineEvents rt) (nodesOf data "timelineItems")) as H3.
    assert (forall x, length (commentEvents rt x) <= 1)%nat as Hc.
    { intros x. unfold commentEvents, commentStep.
      destruct (asMap x) as [c|]; [|simpl; lia].
      destruct (strings_Contains _ _); [simpl; lia|].
      destruct (isBot _); simpl; lia. }
    assert (forall x, length (editEvents rt x) <= 1)%nat as He.
    { intros x. unfold editEvents, editStep.
      destruct (asMap x) as [c|]; [|simpl; lia]. destruct (isBot _); simpl; lia. }
    assert (forall x, length (timelineEvents rt x) <= 1)%nat as Ht.
    { intros x. unfold timelineEvents, timelineStep.
      destruct (asMap x) as [c|]; [|simpl; lia].
      destruct (String.eqb _ "LabeledEvent").
      { destruct (String.eqb _ STALE_LABEL_NAME); simpl; lia. }
      destruct (isBot _); simpl; lia. }
    specialize (H1 Hc). specialize (H2 He). specialize (H3 Ht). lia.
Qed.
End builder_extras.

(** ** agent.go: the builder and the replay together *)

Section activity_extras.
Variable rt : GoRuntime.

(** The last activity [getIssueState] reports is the latest one: the state
    replayed from the built timeline carries the time, the kind and the
    actor of an event of the timeline, and no event of the timeline is later
    than it. *)
Theorem last_activity_is_the_latest_event (data : gmap string any)
    (maintainers : list string) (issueAuthor : string) :
  exists state final,
    replayHistoryToFindState (buildHistoryTimeline rt data).1.1 maintainers issueAuthor
    = Some state /\
    final ∈ (buildHistoryTimeline rt data).1.1 /\
    LastActivityTime state = Time final /\
    LastActionType state = Type_ final /\
    LastActorName state = Actor final /\
    (forall e, e ∈ (buildHistoryTimeline rt data).1.1 -> Time e <= LastActivityTime state).
Proof.
  destruct (replay_nonempty maintainers issueAuthor (buildHistoryTimeline rt data).1.1
              (buildHistoryTimeline_nonempty rt data))
    as (earlier & final & st & Hhistory & Hreplay).
  exists (replayStep maintainers issueAuthor st final), final.
  split; [done|]. split; [rewrite Hhistory, elem_of_app; right; by left|].
  split_and!; try done.
  intros e He. cbn [replayStep LastActivityTime].
  apply (ordered_snoc_max earlier); [|by rewrite <- Hhistory].
  rewrite <- Hhistory, buildHistoryTimeline_spec. cbn [fst].
  apply (sort_Slice_ordered Time).
Qed.

(** The history of an issue nothing has happened to: no comment, no
    description edit, no timeline item. *)
Lemma buildHistoryTimeline_untouched (data : gmap string any) :
  nodesOf data "comments" = [] ->
  nodesOf data "userContentEdits" = [] ->
  nodesOf data "timelineItems" = [] ->
  buildHistoryTimeline rt data = ([createdEvent rt data], [], None).
Proof.
  intros Hc He Ht.
  rewrite buildHistoryTimeline_spec, emitHistory_spec. unfold botAlertTimes.
  rewrite Hc, He, Ht. reflexivity.
Qed.
End activity_extras.

Section untouched_issue.
Variable rt : GoRuntime.
Variable cfg : Config.

(** An issue without comments, description edits and timeline items is
    reported as last acted on by its author at its creation: role [author],
    kind [created], no comment text, no alert needed, and no days since a
    stale label (whatever its labels are), its age counting from
    [createdAt]. *)
Theorem untouched_issue_reports_its_creation (args : IssueTargetArgs) (w w1 w2 : World)
    (maintainers : list string) (rawData : gmap string any) :
  getCachedMaintainers rt cfg w = (Returned (Ok maintainers), w1) ->
  FetchGraphQLData rt cfg (IssueNumber args) w1 = (Returned (Ok rawData), w2) ->
  nodesOf rawData "comments" = [] ->
  nodesOf rawData "userContentEdits" = [] ->
  nodesOf rawData "timelineItems" = [] ->
  exists payload,
    getIssueState rt cfg args w = (Returned (payload, None), w2) /\
    payload !! "last_action_role" = Some (Str "author") /\
    payload !! "last_action_type" = Some (Str "created") /\
    payload !! "last_actor_name" = Some (Str (loginOf rawData "author")) /\
    payload !! "last_comment_text" = Some (StrPtr None) /\
    payload !! "maintainer_alert_needed" = Some (Bool false) /\
    payload !! "days_since_stale_label" = Some (Float64 0) /\
    payload !! "days_since_activity"
    = Some (Float64 (Hours (Sub (clock w2) (parseTime rt (index rawData "createdAt"))) / 24)%float).
Proof.
  intros Hm Hf Hc He Ht.
  unfold getIssueState.
  rewrite (bind_returned _ _ _ _ _ Hm), (bind_returned _ _ _ _ _ Hf).
  rewrite (buildHistoryTimeline_untouched rt rawData Hc He Ht).
  cbn [replayHistoryToFindState fold_left createdEvent].
  unfold replayStep. cbn [Actor Type_ Time Data].
  rewrite String.eqb_refl.
  rewrite (bind_returned time_Now _ w2 w2 (clock w2) eq_refl).
  eexists. split; [reflexivity|]. split_and!; reflexivity.
Qed.
End untouched_issue.

(** ** agent.go: the two fetches *)

Section fetch_extras.
Variable rt : GoRuntime.
Variable cfg : Config.

Lemma logins_fold (rawList : list any) (maintainers : list string) :
  fold_left
    (fun maintainers item =>
       match asMap item with
       | None => maintainers
       | Some obj =>
           match asString (index obj "login") with
           | Some login => maintainers ++ [login]
           | None => maintainers
           end
       end)
    rawList maintainers
  = maintainers ++ loginsOf rawList.
Proof.
  revert maintainers. induction rawList as [|item rawList IH]; intros maintainers.
  { by rewrite app_nil_r. }
  rewrite fold_left_cons, IH. unfold loginsOf. cbn.
  destruct (asMap item) as [obj|]; cbn; [|done].
  destruct (asString (index obj "login")) as [login|]; cbn; [|done].
  by rewrite <- app_assoc.
Qed.

(** A first call of [getCachedMaintainers] makes one counted GET of the
    collaborators listing with [permission=push].  When the helper returns a
    list, the maintainers are the logins of its entries that are objects with
    a string [login], in order, and they are cached, an empty list included.
    When the helper returns an error the call fails with
    [maintainer verification failed: ...], and when it returns anything but
    a list (the object of an API error message, say) with
    [github API returned non-list data]; in both cases the cache stays
    empty, so that the next call fetches again. *)
Theorem maintainers_listing_outcome (w : World) (u : string) (req : Request) :
  maintainersCache w = None ->
  url_Parse rt (collaboratorsURL cfg) = Ok u ->
  http_NewRequest rt "GET" (url_SetQuery rt u (fmt_v rt <$> collaboratorsParams)) None
  = Ok req ->
  exists k, attempts w k /\
    match decoded (answer w k) with
    | Ok (Slice rawList) =>
        getCachedMaintainers rt cfg w
        = (Returned (Ok (loginsOf rawList)),
           set_maintainersCache (Some (loginsOf rawList)) (afterCall w req k))
    | Ok _ =>
        getCachedMaintainers rt cfg w
        = (Returned (Err "github API returned non-list data"), afterCall w req k) /\
        maintainersCache (afterCall w req k) = None
    | Err e =>
        getCachedMaintainers rt cfg w
        = (Returned (Err ("maintainer verification failed: " +:+ e)), afterCall w req k) /\
        maintainersCache (afterCall w req k) = None
    end.
Proof.
  intros Hcache Hu Hreq.
  destruct (GetRequest_outcome rt (collaboratorsURL cfg) u (Some collaboratorsParams)
              w req Hu Hreq) as (k & Hk & Hrun).
  exists k. split; [done|].
  unfold getCachedMaintainers.
  rewrite (bind_returned (gets maintainersCache) _ w w (maintainersCache w) eq_refl).
  rewrite Hcache.
  fold (collaboratorsURL cfg). fold collaboratorsParams.
  rewrite (bind_returned _ _ _ _ _ Hrun).
  destruct (decoded (answer w k)) as [data|e]; [|done].
  destruct data; try done.
  cbn [asSlice]. rewrite (logins_fold l []). done.
Qed.
(** [FetchGraphQLData] makes one call of [PostRequest] and nothing else to
    the state, however it ends. *)
Lemma FetchGraphQLData_state (itemNumber : Z) (w : World) :
  exists r w',
    PostRequest rt (GitHubBaseURL cfg +:+ "/graphql") (graphQLPayload cfg itemNumber) w
    = (Returned r, w') /\
    (FetchGraphQLData rt cfg itemNumber w).2 = w' /\
    apiCallCount w' = int_add (apiCallCount w) 1 /\ quiet w w'.
Proof.
  destruct (PostRequest_returns rt (GitHubBaseURL cfg +:+ "/graphql")
              (graphQLPayload cfg itemNumber) w) as (r & w' & Hrun & Hcount & Hquiet).
  exists r, w'. split_and!; [done| |done..].
  unfold FetchGraphQLData. fold (graphQLPayload cfg itemNumber).
  rewrite (bind_returned _ _ _ _ _ Hrun).
  destruct r as [respAny|e]; [|done].
  destruct (asMap respAny) as [resp|]; [|done].
  destruct (resp !! "errors") as [errs|].
  - destruct (asSlice errs) as [[|first ?]|]; try done.
    by destruct (asMap first).
  - destruct (asMap (index resp "data")) as [data|]; [|done].
    destruct (asMap (index data "repository")) as [repo|]; [|done].
    by destruct (index repo "issue").
Qed.

(** [FetchGraphQLData] posts the query with its six variables to
    [GitHubBaseURL/graphql], one counted call.  It returns the issue exactly
    when the answer decodes to an object without an [errors] key whose
    [data.repository.issue] is an object.  An [errors] key wins over the
    data: the call then returns [GraphQL Error: ...] with the message of the
    first error, or panics when the value is not a non-empty list of
    objects, and never returns an issue.  An issue that is [null] or missing
    gives [Issue #N not found.]. *)
Theorem graphql_fetch_outcome (itemNumber : Z) (w : World) (req : Request) :
  http_NewRequest rt "POST" (GitHubBaseURL cfg +:+ "/graphql")
    (Some (graphQLPayload cfg itemNumber)) = Ok req ->
  exists k out, attempts w k /\
    FetchGraphQLData rt cfg itemNumber w = (out, afterCall w req k) /\
    (forall issue,
       out = Returned (Ok issue) <->
       exists resp data repo,
         decoded (answer w k) = Ok (Map resp) /\ resp !! "errors" = None /\
         resp !! "data" = Some (Map data) /\ data !! "repository" = Some (Map repo) /\
         repo !! "issue" = Some (Map issue)) /\
    (forall resp errs,
       decoded (answer w k) = Ok (Map resp) -> resp !! "errors" = Some errs ->
       match errs with
       | Slice (Map firstErr :: _) =>
           out = Returned (Err ("GraphQL Error: " +:+ fmt_v rt (index firstErr "message")))
       | _ => exists reason, out = Panicked reason
       end) /\
    (forall resp data repo,
       decoded (answer w k) = Ok (Map resp) -> resp !! "errors" = None ->
       resp !! "data" = Some (Map data) -> data !! "repository" = Some (Map repo) ->
       index repo "issue" = Nil ->
       out = Returned (Err ("Issue #" +:+ pretty itemNumber +:+ " not found."))) /\
    (forall e, decoded (answer w k) = Err e -> out = Returned (Err e)).
Proof.
  intros Hreq.
  destruct (PostRequest_outcome rt _ _ w req Hreq) as (k & Hk & Hrun).
  exists k, (FetchGraphQLData rt cfg itemNumber w).1. split; [done|].
  assert (Hout : FetchGraphQLData rt cfg itemNumber w
                 = ((FetchGraphQLData rt cfg itemNumber w).1, afterCall w req k)).
  { destruct (FetchGraphQLData_state itemNumber w) as (r & w' & Hrun' & Hw & _).
    rewrite Hrun in Hrun'. injection Hrun' as _ <-.
    rewrite <- Hw. by destruct (FetchGraphQLData rt cfg itemNumber w). }
  split; [done|].
  assert (Hfst : (FetchGraphQLData rt cfg itemNumber w).1
    = match decoded (answer w k) with
      | Err err => Returned (Err err)
      | Ok respAny =>
          match asMap respAny with
          | None => Returned (Err "invalid GraphQL response format")
          | Some resp =>
              match resp !! "errors" with
              | Some errs =>
                  match asSlice errs with
                  | None => Panicked "interface conversion: errors is not []interface {}"
                  | Some [] => Panicked "index out of range [0] with length 0"
                  | Some (first :: _) =>
                      match asMap first with
                      | None =>
                          Panicked "interface conversion: error is not map[string]interface {}"
                      | Some firstErr =>
                          Returned (Err ("GraphQL Error: "
                                         +:+ fmt_v rt (index firstErr "message")))
                      end
                  end
              | None =>
                  match asMap (index resp "data") with
                  | None => Panicked "interface conversion: data is not map[string]interface {}"
                  | Some data =>
                      match asMap (index data "repository") with
                      | None =>
                          Panicked
                            "interface conversion: repository is not map[string]interface {}"
                      | Some repo =>
                          match index repo "issue" with
                          | Nil => Returned (Err ("Issue #" +:+ pretty itemNumber
                                                  +:+ " not found."))
                          | Map issue => Returned (Ok issue)
                          | _ =>
                              Panicked
                                "interface conversion: issue is not map[string]interface {}"
                          end
                      end
                  end
              end
          end
      end).
  { unfold FetchGraphQLData. fold (graphQLPayload cfg itemNumber).
    rewrite (bind_returned _ _ _ _ _ Hrun).
    destruct (decoded (answer w k)) as [respAny|e]; [|done].
    destruct (asMap respAny) as [resp|]; [|done].
    destruct (resp !! "errors") as [errs|].
    - destruct (asSlice errs) as [[|first ?]|]; try done.
      by destruct (asMap first).
    - destruct (asMap (index resp "data")) as [data|]; [|done].
      destruct (asMap (index data "repository")) as [repo|]; [|done].
      by destruct (index repo "issue"). }
  rewrite Hfst. clear Hfst Hout Hrun.
  split_and!.
  - intros issue. split.
    + destruct (decoded (answer w k)) as [respAny|e]; [|done].
      destruct respAny as [| | | | | |resp| |]; try done. cbn [asMap].
      destruct (resp !! "errors") as [errs|] eqn:Herrs.
      { destruct (asSlice errs) as [[|first ?]|]; try done. by destruct (asMap first). }
      unfold index.
      destruct (resp !! "data") as [[| | | | | |data| |]|] eqn:Hdata; try done.
      cbn [from_option id asMap].
      destruct (data !! "repository") as [[| | | | | |repo| |]|] eqn:Hrepo; try done.
      cbn [from_option id asMap].
      destruct (repo !! "issue") as [[| | | | | |issue'| |]|] eqn:Hissue; try done.
      cbn [from_option id]. intros [= <-]. by exists resp, data, repo.
    + intros (resp & data & repo & -> & Herrs & Hdata & Hrepo & Hissue).
      cbn [asMap]. unfold index. rewrite Herrs, Hdata. cbn [from_option id asMap].
      rewrite Hrepo. cbn [from_option id asMap]. by rewrite Hissue.
  - intros resp errs -> Herrs. cbn [asMap]. rewrite Herrs.
    destruct errs as [| | | | |[|first rest]| | |]; cbn [asSlice]; eauto.
    destruct first; cbn [asMap]; eauto.
  - intros resp data repo -> Herrs Hdata Hrepo Hissue.
    cbn [asMap]. unfold index in *. rewrite Herrs, Hdata. cbn [from_option id asMap].
    rewrite Hrepo. cbn [from_option id asMap]. by rewrite Hissue.
  - by intros e ->.
Qed.
End fetch_extras.

(** ** agent.go: [getIssueState] as a whole *)

Section analysis_extras.
Variable rt : GoRuntime.
Variable cfg : Config.

(** An analysis costs one counted API call when the maintainers are cached
    and at most two when they are not: one when the listing fails, in which
    case the issue is not fetched and the cache stays empty, two otherwise.
    This holds however the call ends, a panic of [FetchGraphQLData]
    included; retries are not counted. *)
Theorem analysis_counts_one_or_two_calls (args : IssueTargetArgs) (w : World) :
  exists out w',
    getIssueState rt cfg args w = (out, w') /\
    network w' = network w /\
    match maintainersCache w with
    | Some maintainers =>
        apiCallCount w' = int_add (apiCallCount w) 1 /\
        maintainersCache w' = Some maintainers
    | None =>
        (apiCallCount w' = int_add (apiCallCount w) 1 /\
         maintainersCache w' = None /\
         exists e, out = Returned (errorResponse
                                     ("error getting cached maintainers: " +:+ e), None)) \/
        (apiCallCount w' = int_add (int_add (apiCallCount w) 1) 1 /\
         exists maintainers, maintainersCache w' = Some maintainers)
    end.
Proof.
  assert (Hfetch : forall w1 out w2,
            FetchGraphQLData rt cfg (IssueNumber args) w1 = (out, w2) ->
            apiCallCount w2 = int_add (apiCallCount w1) 1 /\
            maintainersCache w2 = maintainersCache w1 /\ network w2 = network w1).
  { intros w1 out w2 H.
    destruct (FetchGraphQLData_state rt cfg (IssueNumber args) w1)
      as (r & w' & _ & Hw & Hc & Hq1 & Hq2).
    rewrite H in Hw. simpl in Hw. by subst w'. }
  destruct (maintainersCache w) as [maintainers|] eqn:Hcache.
  - pose proof (getCachedMaintainers_cached rt cfg w maintainers Hcache) as Hm.
    destruct (getIssueState_cases rt cfg args w)
      as [(e & w1 & Hm' & _)
         |[(m & w1 & e & w2 & Hm' & Hf & Hrun)
          |[(m & w1 & rawData & w2 & payload & Hm' & Hf & Hrun & _)
           |(m & w1 & reason & w2 & Hm' & Hf & Hrun)]]];
      rewrite Hm in Hm'; try done;
      injection Hm' as <- <-;
      destruct (Hfetch _ _ _ Hf) as (Hc & Hk & Hn);
      eexists _, w2; (split; [exact Hrun|]); split_and!; congruence.
  - destruct (getCachedMaintainers_first rt cfg w Hcache) as (r & w1' & Hm & Hc1 & Hn1 & Hr).
    destruct (getIssueState_cases rt cfg args w)
      as [(e & w1 & Hm' & Hrun)
         |[(m & w1 & e & w2 & Hm' & Hf & Hrun)
          |[(m & w1 & rawData & w2 & payload & Hm' & Hf & Hrun & _)
           |(m & w1 & reason & w2 & Hm' & Hf & Hrun)]]];
      rewrite Hm in Hm'; injection Hm' as -> ->.
    + eexists _, w1. split; [exact Hrun|]. split; [done|]. left. eauto.
    + destruct (Hfetch _ _ _ Hf) as (Hc & Hk & Hn).
      eexists _, w2. split; [exact Hrun|]. split; [congruence|]. right.
      split; [congruence|]. exists m. congruence.
    + destruct (Hfetch _ _ _ Hf) as (Hc & Hk & Hn).
      eexists _, w2. split; [exact Hrun|]. split; [congruence|]. right.
      split; [congruence|]. exists m. congruence.
    + destruct (Hfetch _ _ _ Hf) as (Hc & Hk & Hn).
      eexists _, w2. split; [exact Hrun|]. split; [congruence|]. right.
      split; [congruence|]. exists m. congruence.
Qed.

Lemma labelNames_spec (rawData : gmap string any) :
  labelNames rawData
  = omap (fun n => node ← asMap n; asString (index node "name")) (nodesOf rawData "labels").
Proof.
  unfold labelNames.
  assert (forall nodes acc,
            fold_left
              (fun labelsList n =>
                 match asMap n with
                 | Some node =>
                     match asString (index node "name") with
                     | Some name => labelsList ++ [name]
                     | None => labelsList
                     end
                 | None => labelsList
                 end) nodes acc
            = acc ++ omap (fun n => node ← asMap n; asString (index node "name")) nodes) as H.
  { induction nodes as [|n nodes IH]; intros acc; [by rewrite app_nil_r|].
    rewrite fold_left_cons, IH. cbn.
    destruct (asMap n) as [node|]; cbn; [|done].
    destruct (asString (index node "name")); cbn; [|done]. by rewrite <- app_assoc. }
  apply (H _ []).
Qed.

(** The fact sheet of an analysis whose two fetches succeeded has exactly
    fourteen fields.  [current_labels] lists the names of the label nodes
    that are objects with a string [name], in order; [is_stale] is true
    exactly when the stale label is among them, whatever the timeline says;
    [issue_author] is the login of the author and the empty string when the
    issue has none; [maintainers] is the cached list; the two thresholds are
    the configured hours divided by 24. *)
Theorem fact_sheet_fields (args : IssueTargetArgs) (w w1 w2 : World)
    (maintainers : list string) (rawData : gmap string any) :
  getCachedMaintainers rt cfg w = (Returned (Ok maintainers), w1) ->
  FetchGraphQLData rt cfg (IssueNumber args) w1 = (Returned (Ok rawData), w2) ->
  exists payload,
    getIssueState rt cfg args w = (Returned (payload, None), w2) /\
    dom payload = (list_to_set factSheetFields : gset string) /\
    payload !! "current_labels"
    = Some (Strings (omap (fun n => node ← asMap n; asString (index node "name"))
                       (nodesOf rawData "labels"))) /\
    (payload !! "is_stale" = Some (Bool true) \/ payload !! "is_stale" = Some (Bool false)) /\
    (payload !! "is_stale" = Some (Bool true) <-> STALE_LABEL_NAME ∈ labelNames rawData) /\
    payload !! "issue_author" = Some (Str (loginOf rawData "author")) /\
    (rawData !! "author" = None -> payload !! "issue_author" = Some (Str "")) /\
    payload !! "maintainers" = Some (Strings maintainers) /\
    payload !! "stale_threshold_days"
    = Some (Float64 (STALE_HOURS_THRESHOLD cfg / 24)%float) /\
    payload !! "close_threshold_days"
    = Some (Float64 (CLOSE_HOURS_AFTER_STALE_THRESHOLD cfg / 24)%float).
Proof.
  intros Hm Hf.
  destruct (replay_nonempty maintainers (loginOf rawData "author")
              (buildHistoryTimeline rt rawData).1.1
              (buildHistoryTimeline_nonempty rt rawData))
    as (earlier & final & st & _ & Hreplay).
  unfold getIssueState.
  rewrite (bind_returned _ _ _ _ _ Hm), (bind_returned _ _ _ _ _ Hf).
  destruct (buildHistoryTimeline rt rawData) as [[history labelEvents] lastBot].
  simpl in Hreplay |- *. rewrite Hreplay.
  rewrite (bind_returned time_Now _ w2 w2 (clock w2) eq_refl).
  eexists. split; [reflexivity|].
  split; [by rewrite !dom_insert_L, dom_empty_L|].
  split; [by rewrite <- labelNames_spec|].
  split; [destruct (hasStaleLabel (labelNames rawData)); [by left|by right]|].
  split.
  { rewrite <- hasStaleLabel_spec.
    change (Some (Bool (hasStaleLabel (labelNames rawData))) = Some (Bool true)
            <-> hasStaleLabel (labelNames rawData) = true).
    split; [by intros [= ->]|by intros ->]. }
  split; [reflexivity|].
  split; [|by split_and!].
  intros Hauthor. unfold loginOf, index. by rewrite Hauthor.
Qed.
End analysis_extras.

(** ** agent.go: the alert and its recognition *)

Section alert_extras.
Variable rt : GoRuntime.
Variable cfg : Config.

Lemma alertComment_matches : strings_Contains alertComment BOT_ALERT_SIGNATURE = true.
Proof. vm_compute. reflexivity. Qed.

(** The alert that [alertMaintainerOfEdit] posts is the one that
    [buildHistoryTimeline] recognises.  The tool posts the comment
    [alertComment] with one counted call, and reports success exactly when
    the helper returned no error.  Once that comment is among the fetched
    comments of an issue, whoever its author is, it is no activity, and when
    nothing in the timeline is later than it the fact sheet says
    [maintainer_alert_needed: false]: the same edit is not announced twice. *)
Theorem posted_alert_is_not_repeated (args : IssueTargetArgs) (w w1 w2 : World)
    (maintainers : list string) (rawData : gmap string any)
    (node : any) (c : gmap string any) :
  getCachedMaintainers rt cfg w = (Returned (Ok maintainers), w1) ->
  FetchGraphQLData rt cfg (IssueNumber args) w1 = (Returned (Ok rawData), w2) ->
  node ∈ nodesOf rawData "comments" ->
  asMap node = Some c ->
  index c "body" = Str alertComment ->
  Forall (fun e => Time e <= parseTime rt (index c "createdAt"))
    (buildHistoryTimeline rt rawData).1.1 ->
  (exists payload,
     getIssueState rt cfg args w = (Returned (payload, None), w2) /\
     payload !! "maintainer_alert_needed" = Some (Bool false)) /\
  commentEvents rt node = [] /\
  (forall (target : IssueTargetArgs) (w0 : World) (req : Request),
     http_NewRequest rt "POST" (issueEndpoint cfg (IssueNumber target) +:+ "/comments")
       (Some (stringMap "body" alertComment)) = Ok req ->
     exists k, attempts w0 k /\
       alertMaintainerOfEdit rt cfg target w0
       = (Returned
            (match decoded (answer w0 k) with
             | Ok _ => (mkToolResult "success" "", None)
             | Err e => (mkToolResult "failure" ("error posting alert: " +:+ e), Some e)
             end),
          afterCall w0 req k)).
Proof.
  intros Hm Hf Hnode Hc Hbody Hlate.
  assert (Halert : isBotAlert node = true).
  { unfold isBotAlert. rewrite Hc, Hbody. exact alertComment_matches. }
  split_and!.
  - destruct (getIssueState_fetched rt cfg args w w1 w2 maintainers rawData Hm Hf)
      as (state & payload & Hstate & Hrun & _ & Hneeded & _).
    exists payload. split; [done|]. rewrite Hneeded. do 2 f_equal.
    destruct (replay_nonempty maintainers (loginOf rawData "author")
                (buildHistoryTimeline rt rawData).1.1
                (buildHistoryTimeline_nonempty rt rawData))
      as (earlier & final & st & Hhistory & Hreplay).
    rewrite Hreplay in Hstate. injection Hstate as <-.
    assert (Hfinal : Time final <= parseTime rt (index c "createdAt")).
    { rewrite Forall_forall in Hlate. apply Hlate. rewrite Hhistory.
      apply elem_of_app. right. by left. }
    rewrite buildHistoryTimeline_spec. cbn [snd].
    pose proof (keepLatest_fold_spec (botAlertTimes rt rawData) None) as Hlast.
    assert (Hin : parseTime rt (index c "createdAt") ∈ botAlertTimes rt rawData).
    { unfold botAlertTimes. apply list_elem_of_fmap. exists node. split.
      - unfold commentTime. by rewrite Hc.
      - by apply list_elem_of_filter. }
    destruct (fold_left keepLatest (botAlertTimes rt rawData) None) as [t|].
    + destruct Hlast as (_ & Hall & _). rewrite Forall_forall in Hall.
      specialize (Hall _ Hin).
      unfold maintainerAlertNeeded, replayStep. cbn [LastActivityTime].
      assert (Before t (Time final) = false) as ->.
      { unfold Before. apply Z.ltb_ge. exact (Z.le_trans _ _ _ Hfinal Hall). }
      by destruct (_ && _).
    + destruct Hlast as [Hnil _]. rewrite Hnil in Hin. by apply elem_of_nil in Hin.
  - by apply commentEvents_alert.
  - intros target w0 req Hreq.
    destruct (PostRequest_outcome rt _ _ w0 req Hreq) as (k & Hk & Hrun).
    exists k. split; [done|]. unfold alertMaintainerOfEdit.
    rewrite (bind_returned _ _ _ _ _ Hrun). by destruct (decoded (answer w0 k)).
Qed.
End alert_extras.

(** ** util.go: the issue search *)

Lemma searchItems_fold (items : list any) (numbers : list Z) :
  Forall (fun item => is_Some (asMap item)) items ->
  fold_left searchItemStep items (Some numbers) = Some (numbers ++ (items ≫= itemIssue)).
Proof.
  intros Hall. revert numbers.
  induction Hall as [|item items [m Hm] _ IH]; intros numbers.
  { by rewrite app_nil_r. }
  rewrite fold_left_cons. cbn [mbind list_bind]. unfold itemIssue at 1.
  cbn [searchItemStep]. rewrite Hm.
  destruct (m !! "pull_request"); [by rewrite IH|].
  destruct (index m "number"); rewrite IH; try done.
  by rewrite <- app_assoc.
Qed.

Lemma searchItems_panic (items : list any) (numbers : option (list Z)) :
  Exists (fun item => asMap item = None) items ->
  fold_left searchItemStep items numbers = None.
Proof.
  assert (Hnone : forall l, fold_left searchItemStep l None = None).
  { induction l as [|x l IH]; [done|]. by rewrite fold_left_cons. }
  intros Hex. revert numbers.
  induction Hex as [item items Hitem|item items _ IH]; intros numbers.
  - rewrite fold_left_cons. destruct numbers as [numbers|]; [|apply Hnone].
    cbn [searchItemStep]. rewrite Hitem. apply Hnone.
  - rewrite fold_left_cons. apply IH.
Qed.

Lemma bind_seq_shift {B : Type} (f : nat -> list B) (n : nat) :
  seq 1 n ≫= f = seq 0 n ≫= fun i => f (S i).
Proof.
  rewrite <- fmap_S_seq. induction (seq 0 n) as [|i l IH]; [done|].
  cbn. by rewrite <- IH.
Qed.

Lemma bind_pointwise {A B : Type} (f g : A -> list B) (l : list A) :
  (forall x, f x = g x) -> l ≫= f = l ≫= g.
Proof.
  intros Hfg. induction l as [|x l IH]; [done|].
  change ((x :: l) ≫= f) with (f x ++ (l ≫= f)).
  change ((x :: l) ≫= g) with (g x ++ (l ≫= g)). by rewrite Hfg, IH.
Qed.

Section search_extras.
Variable rt : GoRuntime.
Variable cfg : Config.
Variable time_Format : time_Time -> string.

(** One round of the loop, by what the request returned. *)
Lemma searchLoop_step (fuel : nat) (query : string) (page : Z) (numbers : list Z)
    (w w1 : World) (r : Result any) :
  GetRequest rt "https://api.github.com/search/issues" (Some (searchParams query page)) w
  = (Returned r, w1) ->
  searchLoop rt (S fuel) query page numbers w
  = match fold_left searchItemStep (pageItems r) (Some numbers) with
    | None => (Panicked "interface conversion: item is not map[string]interface {}", w1)
    | Some numbers' =>
        if (length (pageItems r) <? 100)%nat then (Returned (Some numbers'), w1)
        else searchLoop rt fuel query (int_add page 1) numbers' w1
    end.
Proof.
  intros Hrun. cbn [searchLoop]. rewrite (bind_returned _ _ _ _ _ Hrun).
  destruct r as [dataAny|e]; [|done].
  destruct dataAny as [| | | | | |data| |]; try done.
  cbn [asMap pageItems].
  destruct (asSlice (index data "items")) as [[|item items]|]; try done.
  cbn [default from_option id].
  destruct (fold_left searchItemStep (item :: items) (Some numbers)); [|done].
  by destruct (length (item :: items) <? 100)%nat.
Qed.
Variable u : string.
Variable query : string.
Variable reqOf : Z -> Request.
Hypothesis url_ok : url_Parse rt "https://api.github.com/search/issues" = Ok u.
Hypothesis request_ok : forall page,
  http_NewRequest rt "GET" (url_SetQuery rt u (fmt_v rt <$> searchParams query page)) None
  = Ok (reqOf page).

(** A request that is answered at once. *)
Lemma search_request_quiet (page : Z) (w : World) :
  transient (network w (length (requests w))) = false ->
  GetRequest rt "https://api.github.com/search/issues" (Some (searchParams query page)) w
  = (Returned (pageAnswer w 0), afterCall w (reqOf page) 0).
Proof.
  intros Hquiet.
  destruct (GetRequest_outcome rt _ u (Some (searchParams query page)) w (reqOf page)
              url_ok (request_ok page)) as (k & Hk & Hrun).
  assert (attempts w 0) as H0.
  { split_and!; [unfold maxRetries; lia|intros; lia|].
    rewrite Nat.add_0_r, Hquiet. done. }
  assert (k = 0%nat) as -> by (by apply (attempts_unique w)).
  rewrite Hrun. do 2 f_equal. unfold answer, pageAnswer, settle.
  rewrite Nat.add_0_r in *.
  destruct (network w (length (requests w))) as [resp|e]; [|done].
  by rewrite Hquiet.
Qed.

Lemma afterPages_network (w : World) (page : Z) (n : nat) :
  network (afterPages reqOf w page n) = network w.
Proof. revert w page. induction n as [|n IH]; intros w page; [done|]. cbn. by rewrite IH. Qed.

Lemma afterPages_requests (w : World) (page : Z) (n : nat) :
  requests (afterPages reqOf w page n)
  = requests w ++ ((fun i => reqOf (page + Z.of_nat i)) <$> seq 0 n).
Proof.
  revert w page. induction n as [|n IH]; intros w page.
  { by rewrite app_nil_r. }
  cbn [afterPages]. rewrite IH, afterCall_requests, <- app_assoc. f_equal.
  cbn [replicate app seq fmap list_fmap]. rewrite Z.add_0_r. f_equal.
  rewrite <- fmap_S_seq, <- list_fmap_compose. apply list_fmap_ext.
  intros _ i _. cbn. f_equal. lia.
Qed.

Lemma afterPages_slept (w : World) (page : Z) (n : nat) :
  slept (afterPages reqOf w page n) = slept w.
Proof.
  revert w page. induction n as [|n IH]; intros w page; [done|].
  cbn [afterPages]. rewrite IH. cbn. by rewrite app_nil_r.
Qed.

Lemma afterPages_counter (w : World) (page : Z) (n : nat) :
  0 <= apiCallCount w -> apiCallCount w + Z.of_nat n <= maxInt ->
  apiCallCount (afterPages reqOf w page n) = apiCallCount w + Z.of_nat n.
Proof.
  revert w page. induction n as [|n IH]; intros w page H0 Hmax.
  { cbn. lia. }
  cbn [afterPages]. rewrite IH; rewrite afterCall_counter, int_add_one;
    unfold minInt, maxInt in *; lia.
Qed.

(** [k] full pages and then a last one, each answered at once. *)
Lemma searchLoop_pages (k : nat) (fuel : nat) (w : World) (page : Z) (numbers : list Z) :
  (k < fuel)%nat -> 0 <= page -> page + Z.of_nat k < maxInt ->
  (forall i, (i <= k)%nat -> transient (network w (length (requests w) + i)) = false) ->
  (forall i, (i < k)%nat -> fullPage (pageAnswer w i)) ->
  lastPage (pageAnswer w k) ->
  searchLoop rt fuel query page numbers w
  = (Returned (Some (numbers
                     ++ (seq 0 (S k) ≫= fun i => pageItems (pageAnswer w i) ≫= itemIssue))),
     afterPages reqOf w page (S k)).
Proof.
  revert fuel w page numbers.
  induction k as [|k IH]; intros fuel w page numbers Hfuel Hpage Hmax Hquiet Hfull Hlast.
  - destruct fuel as [|fuel]; [lia|].
    pose proof (Hquiet 0%nat ltac:(lia)) as Hq. rewrite Nat.add_0_r in Hq.
    rewrite (searchLoop_step fuel query page numbers w _ _
               (search_request_quiet page w Hq)).
    destruct Hlast as [Hlen Hmaps]. rewrite (searchItems_fold _ _ Hmaps).
    destruct (Nat.ltb_spec (length (pageItems (pageAnswer w 0))) 100); [|lia].
    cbn [seq mbind list_bind]. by rewrite app_nil_r.
  - destruct fuel as [|fuel]; [lia|].
    pose proof (Hquiet 0%nat ltac:(lia)) as Hq. rewrite Nat.add_0_r in Hq.
    rewrite (searchLoop_step fuel query page numbers w _ _
               (search_request_quiet page w Hq)).
    destruct (Hfull 0%nat ltac:(lia)) as [Hlen Hmaps].
    rewrite (searchItems_fold _ _ Hmaps).
    destruct (Nat.ltb_spec (length (pageItems (pageAnswer w 0))) 100); [lia|].
    assert (Hshift : forall i,
              pageAnswer (afterCall w (reqOf page) 0) i = pageAnswer w (S i)).
    { intros i. unfold pageAnswer. rewrite afterCall_requests, length_app. cbn.
      do 2 f_equal. lia. }
    rewrite int_add_one by (unfold minInt, maxInt in *; lia).
    rewrite (IH fuel (afterCall w (reqOf page) 0) (page + 1)).
    + cbn [afterPages]. do 3 f_equal. rewrite <- app_assoc. f_equal.
      change (seq 0 (S (S k))) with (0%nat :: seq 1 (S k)).
      cbn [mbind list_bind]. f_equal.
      rewrite bind_seq_shift. apply bind_pointwise.
      intros i. by rewrite Hshift.
    + lia.
    + lia.
    + lia.
    + intros i Hi. rewrite afterCall_requests, length_app. cbn.
      replace (length (requests w) + 1 + i)%nat with (length (requests w) + S i)%nat by lia.
      apply Hquiet. lia.
    + intros i Hi. rewrite Hshift. apply Hfull. lia.
    + by rewrite Hshift.
Qed.
(** [k] full pages and then one with an item that is not an object. *)
Lemma searchLoop_panics (k : nat) (fuel : nat) (w : World) (page : Z) (numbers : list Z) :
  (k < fuel)%nat -> 0 <= page -> page + Z.of_nat k < maxInt ->
  (forall i, (i <= k)%nat -> transient (network w (length (requests w) + i)) = false) ->
  (forall i, (i < k)%nat -> fullPage (pageAnswer w i)) ->
  Exists (fun item => asMap item = None) (pageItems (pageAnswer w k)) ->
  searchLoop rt fuel query page numbers w
  = (Panicked "interface conversion: item is not map[string]interface {}",
     afterPages reqOf w page (S k)).
Proof.
  revert fuel w page numbers.
  induction k as [|k IH]; intros fuel w page numbers Hfuel Hpage Hmax Hquiet Hfull Hitem.
  - destruct fuel as [|fuel]; [lia|].
    pose proof (Hquiet 0%nat ltac:(lia)) as Hq. rewrite Nat.add_0_r in Hq.
    rewrite (searchLoop_step fuel query page numbers w _ _
               (search_request_quiet page w Hq)).
    by rewrite (searchItems_panic _ _ Hitem).
  - destruct fuel as [|fuel]; [lia|].
    pose proof (Hquiet 0%nat ltac:(lia)) as Hq. rewrite Nat.add_0_r in Hq.
    rewrite (searchLoop_step fuel query page numbers w _ _
               (search_request_quiet page w Hq)).
    destruct (Hfull 0%nat ltac:(lia)) as [Hlen Hmaps].
    rewrite (searchItems_fold _ _ Hmaps).
    destruct (Nat.ltb_spec (length (pageItems (pageAnswer w 0))) 100); [lia|].
    assert (Hshift : forall i,
              pageAnswer (afterCall w (reqOf page) 0) i = pageAnswer w (S i)).
    { intros i. unfold pageAnswer. rewrite afterCall_requests, length_app. cbn.
      do 2 f_equal. lia. }
    rewrite int_add_one by (unfold minInt, maxInt in *; lia).
    rewrite (IH fuel (afterCall w (reqOf page) 0) (page + 1)); [done|lia..| | |].
    + intros i Hi. rewrite afterCall_requests, length_app. cbn.
      replace (length (requests w) + 1 + i)%nat with (length (requests w) + S i)%nat by lia.
      apply Hquiet. lia.
    + intros i Hi. rewrite Hshift. apply Hfull. lia.
    + by rewrite Hshift.
Qed.
End search_extras.

Section search_claims.
Variable rt : GoRuntime.
Variable cfg : Config.
Variable time_Format : time_Time -> string.

Lemma GetOldOpenIssueNumbers_unfold (fuel : nat) (owner repo : string)
    (daysOld : option float) (w : World) :
  GetOldOpenIssueNumbers rt cfg time_Format fuel owner repo daysOld w
  = match searchLoop rt fuel (searchQuery cfg time_Format owner repo daysOld (clock w))
            1 [] w with
    | (Returned (Some issueNumbers), w') => (Returned (Some (issueNumbers, None)), w')
    | (Returned None, w') => (Returned None, w')
    | (Panicked reason, w') => (Panicked reason, w')
    end.
Proof.
  unfold GetOldOpenIssueNumbers.
  rewrite (bind_returned time_Now _ w w (clock w) eq_refl).
  fold (searchQuery cfg time_Format owner repo daysOld (clock w)).
  unfold mbind, M_bind.
  by destruct (searchLoop rt fuel _ 1 [] w) as [[[numbers|]|reason] w'].
Qed.

(** The search asks for the pages 1, 2, ... of a hundred results, one
    counted call each, and goes on as long as a page has a hundred items.
    When [k] such pages are followed by a page that has fewer, it returns,
    in order, the numbers of the items of all these pages that are no pull
    requests and have a numeric [number].  A page whose answer is no JSON, or
    has no list under [items], counts as an empty page: it ends the search
    with the numbers found so far, and the error returned is nil all the
    same.  (Every answer is taken to come at once, without retries, and
    every item to be an object.) *)
Theorem search_collects_the_pages (owner repo : string) (daysOld : option float)
    (w : World) (u : string) (reqOf : Z -> Request) (k fuel : nat) :
  url_Parse rt "https://api.github.com/search/issues" = Ok u ->
  (forall page,
     http_NewRequest rt "GET"
       (url_SetQuery rt u
          (fmt_v rt <$> searchParams
                          (searchQuery cfg time_Format owner repo daysOld (clock w)) page))
       None = Ok (reqOf page)) ->
  (k < fuel)%nat ->
  Z.of_nat k < 2 ^ 62 ->
  0 <= apiCallCount w < 2 ^ 62 ->
  (forall i, (i <= k)%nat -> transient (network w (length (requests w) + i)) = false) ->
  (forall i, (i < k)%nat -> fullPage (pageAnswer w i)) ->
  lastPage (pageAnswer w k) ->
  exists w',
    GetOldOpenIssueNumbers rt cfg time_Format fuel owner repo daysOld w
    = (Returned
         (Some (seq 0 (S k) ≫= (fun i => pageItems (pageAnswer w i) ≫= itemIssue), None)),
       w') /\
    requests w' = requests w ++ ((fun i => reqOf (1 + Z.of_nat i)) <$> seq 0 (S k)) /\
    apiCallCount w' = apiCallCount w + Z.of_nat (S k) /\
    slept w' = slept w.
Proof.
  intros Hu Hreq Hfuel Hk Hcount Hquiet Hfull Hlast.
  exists (afterPages reqOf w 1 (S k)).
  rewrite GetOldOpenIssueNumbers_unfold.
  rewrite (searchLoop_pages rt u _ reqOf Hu Hreq k fuel w 1 []); try done.
  - split_and!.
    + done.
    + apply afterPages_requests.
    + apply afterPages_counter; unfold maxInt; lia.
    + apply afterPages_slept.
  - unfold maxInt. lia.
Qed.

(** An item of a page that is not an object (a [null], say) makes the
    search panic, the assertion [item.(map[string]any)] being unchecked:
    when [k] full pages are followed by a page with such an item, the search
    panics after the [k + 1] counted calls, and the numbers found on the
    pages before are lost.  (Every answer is taken to come at once, without
    retries.) *)
Theorem search_panics_on_an_item_that_is_no_object (owner repo : string)
    (daysOld : option float) (w : World) (u : string) (reqOf : Z -> Request)
    (k fuel : nat) :
  url_Parse rt "https://api.github.com/search/issues" = Ok u ->
  (forall page,
     http_NewRequest rt "GET"
       (url_SetQuery rt u
          (fmt_v rt <$> searchParams
                          (searchQuery cfg time_Format owner repo daysOld (clock w)) page))
       None = Ok (reqOf page)) ->
  (k < fuel)%nat ->
  Z.of_nat k < 2 ^ 62 ->
  0 <= apiCallCount w < 2 ^ 62 ->
  (forall i, (i <= k)%nat -> transient (network w (length (requests w) + i)) = false) ->
  (forall i, (i < k)%nat -> fullPage (pageAnswer w i)) ->
  Exists (fun item => asMap item = None) (pageItems (pageAnswer w k)) ->
  exists w',
    GetOldOpenIssueNumbers rt cfg time_Format fuel owner repo daysOld w
    = (Panicked "interface conversion: item is not map[string]interface {}", w') /\
    requests w' = requests w ++ ((fun i => reqOf (1 + Z.of_nat i)) <$> seq 0 (S k)) /\
    apiCallCount w' = apiCallCount w + Z.of_nat (S k).
Proof.
  intros Hu Hreq Hfuel Hk Hcount Hquiet Hfull Hitem.
  exists (afterPages reqOf w 1 (S k)).
  rewrite GetOldOpenIssueNumbers_unfold.
  rewrite (searchLoop_panics rt u _ reqOf Hu Hreq k fuel w 1 []); try done.
  - split_and!.
    + done.
    + apply afterPages_requests.
    + apply afterPages_counter; unfold maxInt; lia.
  - unfold maxInt. lia.
Qed.
End search_claims.

(** ** config.go: reading the settings *)

Lemma digitOf_char (d : N) :
  (d < 10)%N -> digitOf (pretty_N_char d) = Some (Z.of_N d).
Proof.
  intros Hd. rewrite <- (N2Nat.id d).
  remember (N.to_nat d) as k eqn:Hk.
  assert (k < 10)%nat as Hlt by lia. clear Hk Hd.
  do 10 (destruct k as [|k]; [vm_compute; reflexivity|]). lia.
Qed.

(** Reading back the decimal digits that [pretty] writes. *)
Lemma atoiDigits_pretty_go (x : N) :
  exists p : Z, forall (s : string) (acc : Z),
    atoiDigits (pretty_N_go x s) acc = atoiDigits s (acc * p + Z.of_N x).
Proof.
  induction (N.lt_wf_0 x) as [x _ IH].
  destruct (decide (x = 0%N)) as [->|Hx].
  { exists 1. intros s acc. rewrite pretty_N_go_0. f_equal. lia. }
  destruct (IH (x `div` 10)%N) as [p Hp].
  { apply N.div_lt; lia. }
  exists (p * 10). intros s acc.
  rewrite pretty_N_go_step by lia. rewrite Hp. cbn [atoiDigits].
  rewrite digitOf_char by (apply N.mod_lt; lia).
  f_equal.
  pose proof (N.div_mod x 10 ltac:(lia)) as Hdm.
  apply (f_equal Z.of_N) in Hdm. rewrite N2Z.inj_add, N2Z.inj_mul in Hdm.
  change (Z.of_N 10) with 10 in Hdm.
  generalize dependent (Z.of_N (x `div` 10)). generalize dependent (Z.of_N (x `mod` 10)).
  intros m q _ Hdm. rewrite Hdm. ring.
Qed.

Lemma atoiDigits_pretty (x : N) : atoiDigits (pretty_N_go x "") 0 = Some (Z.of_N x).
Proof.
  destruct (atoiDigits_pretty_go x) as [p Hp]. rewrite Hp. reflexivity.
Qed.

Lemma digitOf_no_sign (c : ascii) (d : Z) :
  digitOf c = Some d -> Ascii.eqb c "-" = false /\ Ascii.eqb c "+" = false.
Proof.
  intros Hd. split.
  - destruct (Ascii.eqb_spec c "-") as [->|]; [|done]. vm_compute in Hd. discriminate.
  - destruct (Ascii.eqb_spec c "+") as [->|]; [|done]. vm_compute in Hd. discriminate.
Qed.

(** [strconv.Atoi] reads back every [int] written in decimal. *)
Lemma strconv_Atoi_pretty (n : Z) :
  minInt <= n <= maxInt -> strconv_Atoi (pretty n) = Ok n.
Proof.
  intros Hn.
  assert (Hrange : (minInt <=? n) && (n <=? maxInt) = true).
  { apply andb_true_iff. split; apply Z.leb_le; lia. }
  assert (Hpos : forall p : positive,
            exists c rest, pretty_N_go (N.pos p) "" = String c rest /\
              Ascii.eqb c "-" = false /\ Ascii.eqb c "+" = false).
  { intros p. pose proof (atoiDigits_pretty (N.pos p)) as H.
    destruct (pretty_N_go (N.pos p) "") as [|c rest]; [discriminate H|].
    exists c, rest. split; [done|]. cbn [atoiDigits] in H.
    destruct (digitOf c) as [d|] eqn:Hd; [|discriminate H].
    by apply (digitOf_no_sign c d). }
  destruct n as [|p|p].
  - vm_compute. reflexivity.
  - change (pretty (Z.pos p)) with (pretty_N_go (N.pos p) "").
    destruct (Hpos p) as (c & rest & Hs & Hminus & Hplus).
    pose proof (atoiDigits_pretty (N.pos p)) as Hdigits. rewrite Hs in Hdigits.
    unfold strconv_Atoi. rewrite Hs. cbv iota beta. rewrite Hminus, Hplus.
    cbv iota beta zeta. rewrite Hdigits. cbn [Z.of_N]. by rewrite Hrange.
  - change (pretty (Z.neg p)) with (String "-" (pretty_N_go (N.pos p) "")).
    destruct (Hpos p) as (c & rest & Hs & _).
    pose proof (atoiDigits_pretty (N.pos p)) as Hdigits. rewrite Hs in Hdigits.
    unfold strconv_Atoi. cbv iota beta. rewrite Ascii.eqb_refl, Hs.
    cbv iota beta zeta. rewrite Hdigits. cbn [Z.of_N].
    change (- Z.pos p) with (Z.neg p). by rewrite Hrange.
Qed.

Section config_extras.
Variable env : gmap string string.
Variable strconv_ParseFloat : string -> Result float.

Lemma getEnvInt_decimal (key : string) (fallback n : Z) :
  minInt <= n <= maxInt -> env !! key = Some (pretty n) -> getEnvInt env key fallback = n.
Proof.
  intros Hn Hkey. unfold getEnvInt, os_Getenv. rewrite Hkey. cbn [default from_option id].
  rewrite strconv_Atoi_pretty by done.
  destruct (String.eqb (pretty n) "") eqn:E; [|done].
  apply eqb_string_true in E. pose proof (strconv_Atoi_pretty n Hn) as H.
  rewrite E in H. discriminate H.
Qed.

Lemma getEnvInt_fallback (key : string) (fallback : Z) :
  env !! key = None \/ env !! key = Some "" -> getEnvInt env key fallback = fallback.
Proof. unfold getEnvInt, os_Getenv. by intros [-> | ->]. Qed.

Lemma getEnvFloat_fallback (key : string) (fallback : float) :
  env !! key = None -> getEnvFloat env strconv_ParseFloat key fallback = fallback.
Proof. unfold getEnvFloat, os_Getenv. by intros ->. Qed.

(** [InitConfig] ends the program exactly when [GITHUB_TOKEN] is not set or
    is empty.  Otherwise it returns the token and the settings: the defaults
    (repository indurireddy-TF/stale-bot, 168 and 168 hours, limits 3, 30, 10
    and 20, pacing 1.5 seconds) when no other variable is set; a string
    setting is the value of its variable whenever that is set, the empty
    string included; an integer setting is the number its variable holds
    when that is an [int] written in decimal, and no range is checked: a
    concurrency limit of 0 or below is taken as it is.  An integer variable
    that is unset or empty gives the default. *)
Theorem settings_come_from_the_environment :
  (InitConfig env strconv_ParseFloat = None <->
   env !! "GITHUB_TOKEN" = None \/ env !! "GITHUB_TOKEN" = Some "") /\
  (forall token cfg,
     InitConfig env strconv_ParseFloat = Some (token, cfg) ->
     env !! "GITHUB_TOKEN" = Some token /\
     GitHubBaseURL cfg = "https://api.github.com" /\
     ((forall key, key ∈ settingVariables -> env !! key = None) -> cfg = defaultConfig) /\
     (forall v, env !! "OWNER" = Some v -> Owner cfg = v) /\
     (forall v, env !! "REPO" = Some v -> Repo cfg = v) /\
     (forall n, minInt <= n <= maxInt ->
        env !! "CONCURRENCY_LIMIT" = Some (pretty n) -> ConcurrencyLimit cfg = n) /\
     (env !! "CONCURRENCY_LIMIT" = None \/ env !! "CONCURRENCY_LIMIT" = Some "" ->
      ConcurrencyLimit cfg = 3) /\
     (forall n, minInt <= n <= maxInt ->
        env !! "GRAPHQL_COMMENT_LIMIT" = Some (pretty n) -> GraphQLCommentLimit cfg = n) /\
     (forall n, minInt <= n <= maxInt ->
        env !! "GRAPHQL_EDIT_LIMIT" = Some (pretty n) -> GraphQLEditLimit cfg = n) /\
     (forall n, minInt <= n <= maxInt ->
        env !! "GRAPHQL_TIMELINE_LIMIT" = Some (pretty n) -> GraphQLTimelineLimit cfg = n)).
Proof.
  split.
  - unfold InitConfig, os_Getenv.
    destruct (env !! "GITHUB_TOKEN") as [token|] eqn:Htoken; cbn [default from_option id].
    + destruct (String.eqb token "") eqn:E.
      * apply eqb_string_true in E. subst token. split; [by right|done].
      * apply eqb_string_false in E. split; [done|]. intros [?|[= ?]]; done.
    + split; [by left|done].
  - intros token cfg. unfold InitConfig, os_Getenv.
    destruct (env !! "GITHUB_TOKEN") as [token'|] eqn:Htoken; cbn [default from_option id];
      [|done].
    destruct (String.eqb token' ""); [done|]. intros [= <- <-].
    split; [done|]. split; [done|]. split.
    { intros Hunset. unfold defaultConfig, getEnv.
      rewrite !getEnvInt_fallback, !getEnvFloat_fallback;
        try (left); try (apply Hunset; unfold settingVariables; set_solver).
      rewrite !Hunset by (unfold settingVariables; set_solver). done. }
    cbn [Owner Repo ConcurrencyLimit GraphQLCommentLimit GraphQLEditLimit
         GraphQLTimelineLimit].
    split_and!.
    + intros v Hv. unfold getEnv. by rewrite Hv.
    + intros v Hv. unfold getEnv. by rewrite Hv.
    + intros n Hn Hv. by apply getEnvInt_decimal.
    + apply getEnvInt_fallback.
    + intros n Hn Hv. by apply getEnvInt_decimal.
    + intros n Hn Hv. by apply getEnvInt_decimal.
    + intros n Hn Hv. by apply getEnvInt_decimal.
Qed.
End config_extras.

(** ** main.go: the batch loop at its bounds *)

Lemma accumulate_processed (acc : Totals) (chunk : list Z)
    (results : list processSingleResult) :
  processedCount (accumulate acc chunk results)
  = int_add (processedCount acc) (Z.of_nat (length chunk)).
Proof.
  unfold accumulate. cbn [processedCount]. f_equal.
  revert acc. induction results as [|res results IH]; intros acc; [done|].
  rewrite fold_left_cons, IH. done.
Qed.

(** With a limit other than 0 the chunk number is computed without a panic,
    and the loop is [main_loop]. *)
Lemma main_loop_numbered_agrees (cfg : Config)
    (processChunk : list Z -> M (list processSingleResult)) (allIssues : list Z) :
  ConcurrencyLimit cfg <> 0 ->
  forall fuel i acc w,
    main_loop_numbered cfg processChunk fuel allIssues i acc w
    = main_loop cfg processChunk fuel allIssues i acc w.
Proof.
  intros Hc fuel. induction fuel as [|fuel IH]; intros i acc w; [done|].
  cbn [main_loop_numbered main_loop].
  destruct (i <? Z.of_nat (length allIssues)); [|done].
  match goal with |- context [if ?b then _ else panic _] => destruct b; [|done] end.
  unfold currentChunkNum.
  destruct (Z.eqb_spec (ConcurrencyLimit cfg) 0) as [Hz|_]; [done|].
  unfold mbind, M_bind.
  match goal with |- context [processChunk ?chunk w] =>
    destruct (processChunk chunk w) as [[results|reason] w0]; [|done] end.
  match goal with |- context [if ?b then time_Sleep _ else _] => destruct b end.
  - unfold time_Sleep. apply IH.
  - apply IH.
Qed.

Section batch_extras.
Variable cfg : Config.
Variable processChunk : list Z -> M (list processSingleResult).
Hypothesis chunk_returns : forall chunk w0, exists results w0',
  processChunk chunk w0 = (Returned results, w0').

Lemma runSchedule_processed (chunks : list (list Z)) (acc : Totals) (w : World) :
  0 <= processedCount acc ->
  processedCount acc + Z.of_nat (length (concat chunks)) <= maxInt ->
  exists totals w',
    runSchedule cfg processChunk (schedule chunks) acc w = (Returned totals, w') /\
    processedCount totals = processedCount acc + Z.of_nat (length (concat chunks)).
Proof.
  revert acc w. induction chunks as [|chunk chunks IH]; intros acc w Hpos Hmax.
  { exists acc, w. cbn. split; [done|lia]. }
  assert (Hstep : forall results,
            processedCount (accumulate acc chunk results)
            = processedCount acc + Z.of_nat (length chunk)).
  { intros results. rewrite accumulate_processed. unfold int_add.
    apply int_wrap_small. cbn [concat] in Hmax. rewrite length_app in Hmax.
    unfold minInt, maxInt in *. lia. }
  destruct (chunk_returns chunk w) as (results & w0 & Hrun).
  destruct chunks as [|next rest].
  - cbn [schedule runSchedule]. rewrite (bind_returned _ _ _ _ _ Hrun).
    eexists _, _. split; [reflexivity|]. rewrite Hstep. cbn. rewrite app_nil_r. done.
  - rewrite schedule_cons. cbn [runSchedule].
    rewrite (bind_returned _ _ _ _ _ Hrun).
    unfold mbind at 1, M_bind at 1, time_Sleep at 1.
    match goal with
    | |- context [runSchedule cfg processChunk (schedule (next :: rest)) ?a ?w0] =>
        destruct (IH a w0) as (totals & w' & Hr & Hp)
    end.
    + rewrite Hstep. lia.
    + rewrite Hstep. cbn [concat] in Hmax |- *. rewrite !length_app in *. lia.
    + exists totals, w'. split; [done|]. rewrite Hp, Hstep.
      cbn [concat]. rewrite !length_app. lia.
Qed.

(** When the work on every chunk returns, the batch loop ends, and its
    count of processed issues is the length of the issue list: every issue
    was handed to a chunk once. *)
Theorem batch_loop_counts_every_issue (allIssues : list Z) (w : World) :
  allIssues <> [] ->
  0 < ConcurrencyLimit cfg <= maxInt ->
  Z.of_nat (length allIssues) <= 2 ^ 62 ->
  exists totals w',
    main_batches_numbered cfg processChunk allIssues w = (Returned (Some totals), w') /\
    processedCount totals = Z.of_nat (length allIssues).
Proof.
  intros Hne Hc Hn.
  unfold main_batches_numbered.
  rewrite main_loop_numbered_agrees by lia. fold (main_batches cfg processChunk allIssues).
  set (c := Z.to_nat (ConcurrencyLimit cfg)).
  assert (Hcpos : (0 < c)%nat) by (subst c; lia).
  assert (Hrun : main_batches cfg processChunk allIssues w
                 = (t ← runSchedule cfg processChunk
                          (schedule (chunksOf (length allIssues) c allIssues))
                          (mkTotals 0 0 0);
                    mret (Some t)) w).
  { unfold main_batches.
    rewrite (main_loop_schedule cfg processChunk c allIssues) with (i := O);
      [done|subst c; lia|done|subst c; lia|done|by left|lia]. }
  destruct (runSchedule_processed (chunksOf (length allIssues) c allIssues)
              (mkTotals 0 0 0) w) as (totals & w' & Hr & Hp).
  - done.
  - rewrite chunksOf_concat by done. cbn. unfold maxInt. lia.
  - exists totals, w'. rewrite Hrun, (bind_returned _ _ _ _ _ Hr). split; [done|].
    rewrite Hp, chunksOf_concat by done. cbn. lia.
Qed.

End batch_extras.

(** The concurrency limit is not checked, and a limit that is not positive
    makes the first round of the batch loop panic before any chunk is worked
    on: the limit 0 on the division of the chunk number, with
    [integer divide by zero], a negative limit on the slice expression
    [allIssues[i:end]], its end being negative. *)
Theorem batch_loop_needs_a_positive_limit (cfg : Config)
    (processChunk : list Z -> M (list processSingleResult)) (allIssues : list Z) :
  allIssues <> [] ->
  minInt <= ConcurrencyLimit cfg <= 0 ->
  (ConcurrencyLimit cfg = 0 ->
   forall w,
     main_batches_numbered cfg processChunk allIssues w
     = (Panicked "integer divide by zero", w)) /\
  (ConcurrencyLimit cfg < 0 ->
   forall w,
     main_batches_numbered cfg processChunk allIssues w
     = (Panicked "slice bounds out of range", w)).
Proof.
  intros Hne Hc.
  assert (Hlen : (0 <? Z.of_nat (length allIssues)) = true).
  { apply Z.ltb_lt. destruct allIssues; [done|]. cbn [length]. lia. }
  split.
  - intros Hzero w. unfold main_batches_numbered.
    remember (length allIssues) as fuel eqn:Hfuel.
    destruct fuel as [|fuel]; [by destruct allIssues|].
    cbn [main_loop_numbered]. rewrite <- Hfuel, Hlen.
    unfold currentChunkNum. rewrite Hzero.
    change (int_add 0 0) with 0.
    assert ((Z.of_nat (S fuel) <? 0) = false) as -> by (apply Z.ltb_ge; lia).
    assert ((0 <=? 0) && (0 <=? 0) && (0 <=? Z.of_nat (S fuel)) = true) as ->.
    { rewrite !andb_true_iff, !Z.leb_le. lia. }
    done.
  - intros Hneg w. unfold main_batches_numbered.
    remember (length allIssues) as fuel eqn:Hfuel.
    destruct fuel as [|fuel]; [by destruct allIssues|].
    cbn [main_loop_numbered]. rewrite <- Hfuel, Hlen.
    assert (int_add 0 (ConcurrencyLimit cfg) = ConcurrencyLimit cfg) as ->.
    { unfold int_add. apply int_wrap_small. unfold minInt, maxInt in *. lia. }
    assert ((Z.of_nat (S fuel) <? ConcurrencyLimit cfg) = false) as ->.
    { apply Z.ltb_ge. lia. }
    assert ((0 <=? ConcurrencyLimit cfg) = false) as -> by (apply Z.leb_gt; lia).
    done.
Qed.

(** ** The further properties on concrete inputs *)

Example sampleFormat_2024 :
  sampleFormat (default zeroTime (parseRFC3339 "2024-02-29T23:59:58Z"))
  = "2024-02-29T23:59:58Z".
Proof. vm_compute. reflexivity. Qed.

(** Seven days before 2024-03-11, the cut-off of the default search. *)
Example sampleSearchQuery_text :
  sampleSearchQuery
  = "repo:indurireddy-TF/stale-bot is:issue state:open created:<2024-03-04T00:00:00Z".
Proof. vm_compute. reflexivity. Qed.

Example formatDays_samples :
  formatDays sampleMod sampleF1 168 = "7" /\
  formatDays sampleMod sampleF1 12 = "0.5" /\
  formatDays sampleMod sampleF1 36 = "1.5" /\
  formatDays sampleMod sampleF1 1 = "0.0".
Proof. vm_compute. repeat split; reflexivity. Qed.

Example staleComment_text :
  staleComment sampleConfig sampleMod sampleF1
  = "This issue has been automatically marked as stale because it has not had recent activity for 7 days after a maintainer requested clarification. It will be closed if no further activity occurs within 7 days.".
Proof. vm_compute. reflexivity. Qed.

(** The sample search finds the 102 issues of its two pages with two
    requests. *)
Example sample_search :
  match (GetOldOpenIssueNumbers sampleRuntime sampleConfig sampleFormat 5
           "indurireddy-TF" "stale-bot" None searchWorld) with
  | (Returned (Some (numbers, err)), w') =>
      (numbers, err, apiCallCount w', length (requests w'))
      = ((Z.of_nat <$> seq 1 101) ++ [103], None, 2, 2%nat)
  | _ => False
  end.
Proof. vm_compute. reflexivity. Qed.

(** What [strconv.Atoi] accepts. *)
Example strconv_Atoi_samples :
  strconv_Atoi "42" = Ok 42 /\ strconv_Atoi "-7" = Ok (-7) /\ strconv_Atoi "+5" = Ok 5 /\
  strconv_Atoi "007" = Ok 7 /\
  strconv_Atoi "9223372036854775807" = Ok maxInt /\
  strconv_Atoi "9223372036854775808" = Err "value out of range" /\
  strconv_Atoi "" = Err "invalid syntax" /\ strconv_Atoi "-" = Err "invalid syntax" /\
  strconv_Atoi " 5" = Err "invalid syntax" /\ strconv_Atoi "1_000" = Err "invalid syntax".
Proof. vm_compute. repeat split; reflexivity. Qed.

(** A limit of 0 is taken as it is, a malformed limit gives the default, and
    an owner set to the empty string stays empty. *)
Example sample_settings :
  match InitConfig sampleEnv (fun _ => Err "invalid syntax") with
  | Some (token, cfg) =>
      (token, Owner cfg, Repo cfg, ConcurrencyLimit cfg, GraphQLEditLimit cfg,
       GraphQLCommentLimit cfg)
      = ("ghp_token", "", "stale-bot", 0, 10, 30)
  | None => False
  end.
Proof. vm_compute. reflexivity. Qed.

(** The fact sheet of an issue nothing has happened to, seventy days after
    its creation. *)
Example fresh_analysis :
  match (getIssueState sampleRuntime sampleConfig sampleArgs freshWorld).1 with
  | Returned (payload, err) =>
      (err, payload !! "last_action_role", payload !! "last_action_type",
       payload !! "is_stale", payload !! "days_since_activity",
       payload !! "days_since_stale_label", payload !! "maintainer_alert_needed")
      = (None, Some (Str "author"), Some (Str "created"), Some (Bool true),
         Some (Float64 70), Some (Float64 0), Some (Bool false))
  | Panicked _ => False
  end.
Proof. vm_compute. reflexivity. Qed.

(** The inputs of the theorems above, on the samples. *)

Lemma sample_listing_alert :
  getCachedMaintainers sampleRuntime sampleConfig (sampleWorld [sampleAlert])
  = (Returned (Ok ["alice"; "bob"]), sampleWorldListed [sampleAlert]).
Proof. vm_compute. reflexivity. Qed.

Lemma sample_fetch_alert :
  FetchGraphQLData sampleRuntime sampleConfig (IssueNumber sampleArgs)
    (sampleWorldListed [sampleAlert])
  = (Returned (Ok (sampleIssueData [sampleAlert])), sampleWorldFetched [sampleAlert]).
Proof. vm_compute. reflexivity. Qed.

Lemma sample_alert_fetched : sampleAlert ∈ nodesOf (sampleIssueData [sampleAlert]) "comments".
Proof.
  assert (nodesOf (sampleIssueData [sampleAlert]) "comments" = [sampleAlert]) as ->.
  { vm_compute. reflexivity. }
  by left.
Qed.

Lemma sample_alert_body : index sampleAlertFields "body" = Str alertComment.
Proof. vm_compute. reflexivity. Qed.

Lemma sample_alert_latest :
  Forall (fun e => Time e <= parseTime sampleRuntime (index sampleAlertFields "createdAt"))
    (buildHistoryTimeline sampleRuntime (sampleIssueData [sampleAlert])).1.1.
Proof. refine (bool_decide_unpack _ _). vm_compute. exact I. Qed.

Lemma sample_search_fuel : (1 < 5)%nat.
Proof. lia. Qed.

Lemma sample_search_pages : Z.of_nat 1 < 2 ^ 62.
Proof. vm_compute. reflexivity. Qed.

Lemma sample_search_counter : 0 <= apiCallCount searchWorld < 2 ^ 62.
Proof. vm_compute. split; [discriminate|reflexivity]. Qed.

Lemma sample_search_quiet (i : nat) :
  (i <= 1)%nat ->
  transient (network searchWorld (length (requests searchWorld) + i)) = false.
Proof. intros Hi. destruct i as [|[|i]]; [vm_compute; reflexivity..|lia]. Qed.

Lemma sample_search_full (i : nat) : (i < 1)%nat -> fullPage (pageAnswer searchWorld i).
Proof.
  intros Hi. destruct i as [|i]; [|lia]. split.
  - assert (length (pageItems (pageAnswer searchWorld 0)) = 100%nat) as ->; [|lia].
    vm_compute. reflexivity.
  - refine (bool_decide_unpack _ _). vm_compute. exact I.
Qed.

Lemma sample_search_last : lastPage (pageAnswer searchWorld 1).
Proof.
  split.
  - assert (length (pageItems (pageAnswer searchWorld 1)) = 3%nat) as ->; [|lia].
    vm_compute. reflexivity.
  - refine (bool_decide_unpack _ _). vm_compute. exact I.
Qed.

Lemma broken_search_counter : 0 <= apiCallCount brokenSearchWorld < 2 ^ 62.
Proof. vm_compute. split; [discriminate|reflexivity]. Qed.

Lemma broken_search_quiet (i : nat) :
  (i <= 1)%nat ->
  transient (network brokenSearchWorld (length (requests brokenSearchWorld) + i)) = false.
Proof. intros Hi. destruct i as [|[|i]]; [vm_compute; reflexivity..|lia]. Qed.

Lemma broken_search_full (i : nat) :
  (i < 1)%nat -> fullPage (pageAnswer brokenSearchWorld i).
Proof.
  intros Hi. destruct i as [|i]; [|lia]. split.
  - assert (length (pageItems (pageAnswer brokenSearchWorld 0)) = 100%nat) as ->; [|lia].
    vm_compute. reflexivity.
  - refine (bool_decide_unpack _ _). vm_compute. exact I.
Qed.

Lemma broken_search_item :
  Exists (fun item => asMap item = None) (pageItems (pageAnswer brokenSearchWorld 1)).
Proof.
  assert (pageItems (pageAnswer brokenSearchWorld 1) = [issueItem 101; Nil]) as ->.
  { vm_compute. reflexivity. }
  apply Exists_cons_tl, Exists_cons_hd. reflexivity.
Qed.

Lemma idleChunk_returns (chunk : list Z) (w0 : World) :
  exists results w0', idleChunk chunk w0 = (Returned results, w0').
Proof. by eexists _, _. Qed.

Lemma sampleIssues_nonempty : sampleIssues <> [].
Proof. done. Qed.

Lemma sampleConfig_limit : 0 < ConcurrencyLimit sampleConfig <= maxInt.
Proof. vm_compute. split; [reflexivity|discriminate]. Qed.

Lemma sampleIssues_small : Z.of_nat (length sampleIssues) <= 2 ^ 62.
Proof. vm_compute. discriminate. Qed.

Lemma zeroLimit_range : minInt <= ConcurrencyLimit zeroLimitConfig <= 0.
Proof. vm_compute. split; discriminate. Qed.

Lemma fresh_listing :
  getCachedMaintainers sampleRuntime sampleConfig freshWorld
  = (Returned (Ok ["alice"; "bob"]), freshWorldListed).
Proof. vm_compute. reflexivity. Qed.

Lemma fresh_fetch :
  FetchGraphQLData sampleRuntime sampleConfig (IssueNumber sampleArgs) freshWorldListed
  = (Returned (Ok freshIssueData), freshWorldFetched).
Proof. vm_compute. reflexivity. Qed.

Lemma fresh_comments : nodesOf freshIssueData "comments" = [].
Proof. vm_compute. reflexivity. Qed.

Lemma fresh_edits : nodesOf freshIssueData "userContentEdits" = [].
Proof. vm_compute. reflexivity. Qed.

Lemma fresh_items : nodesOf freshIssueData "timelineItems" = [].
Proof. vm_compute. reflexivity. Qed.




(** The first listing of the maintainers in the sample process. *)
Lemma maintainers_listing_witness :
  exists k, attempts (sampleWorld []) k /\
    match decoded (answer (sampleWorld []) k) with
    | Ok (Slice rawList) =>
        getCachedMaintainers sampleRuntime sampleConfig (sampleWorld [])
        = (Returned (Ok (loginsOf rawList)),
           set_maintainersCache (Some (loginsOf rawList)) (afterCall (sampleWorld [])
               sampleCollaboratorsGet k))
    | Ok _ =>
        getCachedMaintainers sampleRuntime sampleConfig (sampleWorld [])
        = (Returned (Err "github API returned non-list data"), afterCall (sampleWorld [])
            sampleCollaboratorsGet k) /\
        maintainersCache (afterCall (sampleWorld []) sampleCollaboratorsGet k) = None
    | Err e =>
        getCachedMaintainers sampleRuntime sampleConfig (sampleWorld [])
        = (Returned (Err ("maintainer verification failed: " +:+ e)), afterCall (sampleWorld [])
            sampleCollaboratorsGet k) /\
        maintainersCache (afterCall (sampleWorld []) sampleCollaboratorsGet k) = None
    end.
Proof.
  exact (maintainers_listing_outcome sampleRuntime sampleConfig (sampleWorld [])
           (collaboratorsURL sampleConfig) sampleCollaboratorsGet eq_refl eq_refl eq_refl).
Defined.

(** The fetch of issue 7 in the sample process. *)
Lemma graphql_fetch_witness :
  exists k out, attempts (sampleWorldListed []) k /\
    FetchGraphQLData sampleRuntime sampleConfig 7 (sampleWorldListed []) = (out, afterCall
        (sampleWorldListed []) sampleGraphQLPost k) /\
    (forall issue,
       out = Returned (Ok issue) <->
       exists resp data repo,
         decoded (answer (sampleWorldListed []) k) = Ok (Map resp) /\ resp !! "errors" = None /\
         resp !! "data" = Some (Map data) /\ data !! "repository" = Some (Map repo) /\
         repo !! "issue" = Some (Map issue)) /\
    (forall resp errs,
       decoded (answer (sampleWorldListed []) k) = Ok (Map resp) -> resp !! "errors" = Some errs
           ->
       match errs with
       | Slice (Map firstErr :: _) =>
           out = Returned (Err ("GraphQL Error: " +:+ fmt_v sampleRuntime (index firstErr
               "message")))
       | _ => exists reason, out = Panicked reason
       end) /\
    (forall resp data repo,
       decoded (answer (sampleWorldListed []) k) = Ok (Map resp) -> resp !! "errors" = None ->
       resp !! "data" = Some (Map data) -> data !! "repository" = Some (Map repo) ->
       index repo "issue" = Nil ->
       out = Returned (Err ("Issue #" +:+ pretty 7 +:+ " not found."))) /\
    (forall e, decoded (answer (sampleWorldListed []) k) = Err e -> out = Returned (Err e)).
Proof.
  exact (graphql_fetch_outcome sampleRuntime sampleConfig 7 (sampleWorldListed [])
           sampleGraphQLPost eq_refl).
Defined.

(** The fact sheet of the sample issue. *)
Lemma fact_sheet_fields_witness :
  exists payload,
    getIssueState sampleRuntime sampleConfig sampleArgs (sampleWorld []) = (Returned (payload,
        None), (sampleWorldFetched [])) /\
    dom payload = (list_to_set factSheetFields : gset string) /\
    payload !! "current_labels"
    = Some (Strings (omap (fun n => node ← asMap n; asString (index node "name"))
                       (nodesOf (sampleIssueData []) "labels"))) /\
    (payload !! "is_stale" = Some (Bool true) \/ payload !! "is_stale" = Some (Bool false)) /\
    (payload !! "is_stale" = Some (Bool true) <-> STALE_LABEL_NAME ∈ labelNames (sampleIssueData
        [])) /\
    payload !! "issue_author" = Some (Str (loginOf (sampleIssueData []) "author")) /\
    ((sampleIssueData []) !! "author" = None -> payload !! "issue_author" = Some (Str "")) /\
    payload !! "maintainers" = Some (Strings ["alice"; "bob"]) /\
    payload !! "stale_threshold_days"
    = Some (Float64 (STALE_HOURS_THRESHOLD sampleConfig / 24)%float) /\
    payload !! "close_threshold_days"
    = Some (Float64 (CLOSE_HOURS_AFTER_STALE_THRESHOLD sampleConfig / 24)%float).
Proof.
  exact (fact_sheet_fields sampleRuntime sampleConfig sampleArgs (sampleWorld [])
           (sampleWorldListed []) (sampleWorldFetched []) ["alice"; "bob"] (sampleIssueData [])
           sample_listing sample_fetch).
Defined.

(** The fact sheet of the untouched sample issue. *)
Lemma untouched_issue_witness :
  exists payload,
    getIssueState sampleRuntime sampleConfig sampleArgs freshWorld = (Returned (payload, None),
        freshWorldFetched) /\
    payload !! "last_action_role" = Some (Str "author") /\
    payload !! "last_action_type" = Some (Str "created") /\
    payload !! "last_actor_name" = Some (Str (loginOf freshIssueData "author")) /\
    payload !! "last_comment_text" = Some (StrPtr None) /\
    payload !! "maintainer_alert_needed" = Some (Bool false) /\
    payload !! "days_since_stale_label" = Some (Float64 0) /\
    payload !! "days_since_activity"
    = Some (Float64 (Hours (Sub (clock freshWorldFetched) (parseTime sampleRuntime (index
        freshIssueData "createdAt"))) / 24)%float).
Proof.
  exact (untouched_issue_reports_its_creation sampleRuntime sampleConfig sampleArgs
           freshWorld freshWorldListed freshWorldFetched ["alice"; "bob"] freshIssueData
           fresh_listing fresh_fetch fresh_comments fresh_edits fresh_items).
Defined.

(** The sample issue once the alert is among its comments. *)
Lemma posted_alert_witness :
  (exists payload,
     getIssueState sampleRuntime sampleConfig sampleArgs (sampleWorld [sampleAlert]) = (Returned
         (payload, None), (sampleWorldFetched [sampleAlert])) /\
     payload !! "maintainer_alert_needed" = Some (Bool false)) /\
  commentEvents sampleRuntime sampleAlert = [] /\
  (forall (target : IssueTargetArgs) (w0 : World) (req : Request),
     http_NewRequest sampleRuntime "POST" (issueEndpoint sampleConfig (IssueNumber target) +:+
         "/comments")
       (Some (stringMap "body" alertComment)) = Ok req ->
     exists k, attempts w0 k /\
       alertMaintainerOfEdit sampleRuntime sampleConfig target w0
       = (Returned
            (match decoded (answer w0 k) with
             | Ok _ => (mkToolResult "success" "", None)
             | Err e => (mkToolResult "failure" ("error posting alert: " +:+ e), Some e)
             end),
          afterCall w0 req k)).
Proof.
  exact (posted_alert_is_not_repeated sampleRuntime sampleConfig sampleArgs
           (sampleWorld [sampleAlert]) (sampleWorldListed [sampleAlert])
           (sampleWorldFetched [sampleAlert]) ["alice"; "bob"] (sampleIssueData [sampleAlert])
           sampleAlert sampleAlertFields sample_listing_alert sample_fetch_alert
           sample_alert_fetched eq_refl sample_alert_body sample_alert_latest).
Defined.

(** The sample search: a full page and a last one. *)
Lemma search_pages_witness :
  exists w',
    GetOldOpenIssueNumbers sampleRuntime sampleConfig sampleFormat 5%nat "indurireddy-TF"
        "stale-bot" None searchWorld
    = (Returned
         (Some (seq 0 (S 1%nat) ≫= (fun i => pageItems (pageAnswer searchWorld i) ≫= itemIssue),
             None)),
       w') /\
    requests w' = requests searchWorld ++ ((fun i => sampleSearchGet (1 + Z.of_nat i)) <$> seq 0
        (S 1%nat)) /\
    apiCallCount w' = apiCallCount searchWorld + Z.of_nat (S 1%nat) /\
    slept w' = slept searchWorld.
Proof.
  exact (search_collects_the_pages sampleRuntime sampleConfig sampleFormat
           "indurireddy-TF" "stale-bot" None searchWorld
           "https://api.github.com/search/issues" sampleSearchGet 1 5 eq_refl
           (fun page => eq_refl) sample_search_fuel sample_search_pages sample_search_counter
           sample_search_quiet sample_search_full sample_search_last).
Defined.

(** A search whose second page holds a [null] item. *)
Lemma search_panic_witness :
  exists w',
    GetOldOpenIssueNumbers sampleRuntime sampleConfig sampleFormat 5%nat "indurireddy-TF"
        "stale-bot" None brokenSearchWorld
    = (Panicked "interface conversion: item is not map[string]interface {}", w') /\
    requests w' = requests brokenSearchWorld ++ ((fun i => sampleSearchGet (1 + Z.of_nat i)) <$>
        seq 0 (S 1%nat)) /\
    apiCallCount w' = apiCallCount brokenSearchWorld + Z.of_nat (S 1%nat).
Proof.
  exact (search_panics_on_an_item_that_is_no_object sampleRuntime sampleConfig sampleFormat
           "indurireddy-TF" "stale-bot" None brokenSearchWorld
           "https://api.github.com/search/issues" sampleSearchGet 1 5 eq_refl
           (fun page => eq_refl) sample_search_fuel sample_search_pages broken_search_counter
           broken_search_quiet broken_search_full broken_search_item).
Defined.

(** Seven issues in chunks of three. *)
Lemma batch_count_witness :
  exists totals w',
    main_batches_numbered sampleConfig idleChunk sampleIssues flakyWorld = (Returned (Some
        totals), w') /\
    processedCount totals = Z.of_nat (length sampleIssues).
Proof.
  exact (batch_loop_counts_every_issue sampleConfig idleChunk idleChunk_returns sampleIssues
           flakyWorld sampleIssues_nonempty sampleConfig_limit sampleIssues_small).
Defined.

(** Seven issues with the limit 0. *)
Lemma zero_limit_witness :
  (ConcurrencyLimit zeroLimitConfig = 0 ->
   forall w,
     main_batches_numbered zeroLimitConfig idleChunk sampleIssues w
     = (Panicked "integer divide by zero", w)) /\
  (ConcurrencyLimit zeroLimitConfig < 0 ->
   forall w,
     main_batches_numbered zeroLimitConfig idleChunk sampleIssues w
     = (Panicked "slice bounds out of range", w)).
Proof.
  exact (batch_loop_needs_a_positive_limit zeroLimitConfig idleChunk sampleIssues
           sampleIssues_nonempty zeroLimit_range).
Defined.
